(** * RavGateway: on-chain payment verification and the mark-paid update

    A shallow embedding of the payment-verification code of the repository:
    - [verifyPayment] as written in docs/BLOCKCHAIN.md and in docs/SECURITY.md
      (two copies, modules [Blockchain] and [Security]);
    - [parseAmount] and [TOKEN_DECIMALS] of docs/BLOCKCHAIN.md;
    - the "mark paid" update of docs/SECURITY.md on the [invoices] table,
      with the table's [updated_at] trigger;
    - [validateAddress], [validateAmount], the explorer link and
      [getTokenInfo] with its cache, of docs/BLOCKCHAIN.md (module
      [BlockchainMd]);
    - [validateAddress], [escapeHTML], the generation and validation of API
      keys and the rate-limit check of docs/SECURITY.md (module
      [SecurityMd]);
    - [hashApiKey] and [validateApiKey] of the API handlers and
      [generateApiKey] of the key-creation handler (module [Api]).

    JavaScript strings are modelled as [string], one [ascii] per UTF-16 code
    unit below 256; [bigint] as [Z]; a [number] as an IEEE 754 binary64
    value ([spec_float] of the Standard Library), with the decimal text that
    [toString()] gives it; a thrown exception as the left summand of a sum
    type. *)

From stdpp Require Import base option list gmap strings.
From Stdlib Require Import ZArith Lia Ascii String List Bool.
From Stdlib Require SpecFloat.
Import ListNotations.

Local Open Scope string_scope.
Local Open Scope Z_scope.

(** ** Exceptions *)

(** What a call can throw.  The first five are the [Error]s the source
    constructs itself, named after their messages; the others are raised by
    the runtime or by ethers inside the decode step. *)
Inductive Thrown : Type :=
| TransactionNotFound      (* Error("Transaction not found") *)
| TransactionFailed        (* Error("Transaction failed") *)
| TransferEventNotFound    (* Error("Transfer event not found") *)
| RecipientMismatch        (* Error("Recipient mismatch") *)
| AmountMismatch           (* Error("Amount mismatch") *)
| TypeError                (* reading a property of undefined *)
| SyntaxError              (* BigInt(...) on a string that is no integer literal *)
| InvalidArgument          (* ethers: invalid address, bad address checksum, invalid FixedNumber string value *)
| NumericFault.            (* ethers: overflow, too many decimals for format *)

(** The message of the [Error]s that the source constructs; the other
    exceptions carry the runtime's or the library's own text. *)
Definition message (e : Thrown) : option string :=
  match e with
  | TransactionNotFound => Some "Transaction not found"
  | TransactionFailed => Some "Transaction failed"
  | TransferEventNotFound => Some "Transfer event not found"
  | RecipientMismatch => Some "Recipient mismatch"
  | AmountMismatch => Some "Amount mismatch"
  | TypeError | SyntaxError | InvalidArgument | NumericFault => None
  end.

Definition Result (A : Type) : Type := Thrown + A.

Definition throw {A : Type} (e : Thrown) : Result A := inl e.
Definition ret {A : Type} (a : A) : Result A := inr a.

Definition bind {A B : Type} (m : Result A) (k : A -> Result B) : Result B :=
  match m with
  | inl e => inl e
  | inr a => k a
  end.

Notation "'let*' x ':=' m 'in' k" := (bind m (fun x => k))
  (at level 10, x name, m at level 100, k at level 200).

(** ** Strings of the runtime *)

Definition code (c : ascii) : Z := Z.of_nat (nat_of_ascii c).
Definition chr (z : Z) : ascii := ascii_of_nat (Z.to_nat z).

Definition in_range (lo hi : Z) (c : ascii) : bool :=
  (lo <=? code c) && (code c <=? hi).

Definition is_digit (c : ascii) : bool := in_range 48 57 c.
Definition is_lower_hex (c : ascii) : bool := in_range 97 102 c.
Definition is_upper_hex (c : ascii) : bool := in_range 65 70 c.
Definition is_hex (c : ascii) : bool :=
  is_digit c || is_lower_hex c || is_upper_hex c.

(** [String.prototype.toLowerCase] and [toUpperCase] on code units below 256:
    the ASCII letters and the Latin-1 letters that have a counterpart below
    256. *)
Definition lower_char (c : ascii) : ascii :=
  if in_range 65 90 c then chr (code c + 32)
  else if in_range 192 222 c && negb (code c =? 215) then chr (code c + 32)
  else c.

Definition upper_char (c : ascii) : ascii :=
  if in_range 97 122 c then chr (code c - 32)
  else if in_range 224 254 c && negb (code c =? 247) then chr (code c - 32)
  else c.

Fixpoint map_string (f : ascii -> ascii) (s : string) : string :=
  match s with
  | EmptyString => EmptyString
  | String c r => String (f c) (map_string f r)
  end.

Definition toLowerCase (s : string) : string := map_string lower_char s.

Fixpoint forall_string (p : ascii -> bool) (s : string) : bool :=
  match s with
  | EmptyString => true
  | String c r => p c && forall_string p r
  end.

Fixpoint exists_string (p : ascii -> bool) (s : string) : bool :=
  match s with
  | EmptyString => false
  | String c r => p c || exists_string p r
  end.

(** [s.slice(n)] for a non-negative [n]: the string from index [n] on. *)
Fixpoint slice (n : nat) (s : string) : string :=
  match n, s with
  | O, _ => s
  | S n', String _ r => slice n' r
  | S _, EmptyString => EmptyString
  end.

(** ** Keccak-256, as ethers' [keccak256] *)

Module Keccak.

Definition mask64 : Z := Z.ones 64.

Definition rotl64 (x : Z) (n : Z) : Z :=
  Z.lor (Z.land (Z.shiftl x n) mask64) (Z.shiftr x (64 - n)).

Definition not64 (x : Z) : Z := Z.lxor x mask64.

Definition RC : list Z :=
  [ 0x0000000000000001; 0x0000000000008082; 0x800000000000808A;
    0x8000000080008000; 0x000000000000808B; 0x0000000080000001;
    0x8000000080008081; 0x8000000000008009; 0x000000000000008A;
    0x0000000000000088; 0x0000000080008009; 0x000000008000000A;
    0x000000008000808B; 0x800000000000008B; 0x8000000000008089;
    0x8000000000008003; 0x8000000000008002; 0x8000000000000080;
    0x000000000000800A; 0x800000008000000A; 0x8000000080008081;
    0x8000000000008080; 0x0000000080000001; 0x8000000080008008 ].

(** Rotation offsets, lane [(x, y)] at index [x + 5 * y]. *)
Definition rotc : list Z :=
  [ 0; 1; 62; 28; 27;
    36; 44; 6; 55; 20;
    3; 10; 43; 25; 39;
    41; 45; 15; 21; 8;
    18; 2; 61; 56; 14 ].

Definition lane (st : list Z) (x y : nat) : Z :=
  nth (x mod 5 + 5 * (y mod 5)) st 0.

Definition coords : list (nat * nat) :=
  flat_map (fun y => List.map (fun x => (x, y)) (seq 0 5)) (seq 0 5).

Definition theta (st : list Z) : list Z :=
  let C x := fold_left Z.lxor (List.map (fun y => lane st x y) (seq 0 5)) 0 in
  let D x := Z.lxor (C (x + 4)%nat) (rotl64 (C (x + 1)%nat) 1) in
  List.map (fun '(x, y) => Z.lxor (lane st x y) (D x)) coords.

(** rho and pi together: the lane that lands on [(x, y)] comes from
    [(x + 3 y, x)]. *)
Definition rho_pi (st : list Z) : list Z :=
  List.map (fun '(x, y) =>
         let sx := ((x + 3 * y) mod 5)%nat in
         rotl64 (lane st sx x) (nth (sx + 5 * x) rotc 0)) coords.

Definition chi (st : list Z) : list Z :=
  List.map (fun '(x, y) =>
         Z.lxor (lane st x y)
                (Z.land (not64 (lane st (x + 1) y)) (lane st (x + 2) y)))
      coords.

Definition iota (rc : Z) (st : list Z) : list Z :=
  match st with
  | [] => []
  | a :: r => Z.lxor a rc :: r
  end.

Definition round (st : list Z) (rc : Z) : list Z :=
  iota rc (chi (rho_pi (theta st))).

Definition keccak_f (st : list Z) : list Z := fold_left round RC st.

(** Little-endian lane of up to eight bytes. *)
Fixpoint lane_of_bytes (bs : list Z) : Z :=
  match bs with
  | [] => 0
  | b :: r => Z.lor b (Z.shiftl (lane_of_bytes r) 8)
  end.

Fixpoint bytes_of_lane (n : nat) (w : Z) : list Z :=
  match n with
  | O => []
  | S n' => Z.land w 255 :: bytes_of_lane n' (Z.shiftr w 8)
  end.

Fixpoint chunks (fuel : nat) (k : nat) (bs : list Z) : list (list Z) :=
  match fuel with
  | O => []
  | S f =>
      match bs with
      | [] => []
      | _ => firstn k bs :: chunks f k (skipn k bs)
      end
  end.

Definition rate : nat := 136.

(** Keccak padding (domain byte 0x01, final bit 0x80) to a multiple of the
    rate. *)
Definition pad (msg : list Z) : list Z :=
  let q := (rate - (List.length msg mod rate))%nat in
  if (q =? 1)%nat then msg ++ [0x81]
  else msg ++ [0x01] ++ repeat 0 (q - 2) ++ [0x80].

Fixpoint xor_lanes (st blk : list Z) : list Z :=
  match st, blk with
  | s :: st', b :: blk' => Z.lxor s b :: xor_lanes st' blk'
  | _, [] => st
  | [], _ => []
  end.

Definition absorb (st : list Z) (block : list Z) : list Z :=
  keccak_f (xor_lanes st (List.map lane_of_bytes (chunks 17 8 block))).

Definition keccak256 (msg : list Z) : list Z :=
  let p := pad msg in
  let st := fold_left absorb (chunks (S (List.length msg)) rate p) (repeat 0 25%nat) in
  firstn 32 (flat_map (bytes_of_lane 8) st).

End Keccak.

Definition hex_digit (n : Z) : ascii :=
  if n <? 10 then chr (48 + n) else chr (87 + n).

Fixpoint hexlify (bs : list Z) : string :=
  match bs with
  | [] => EmptyString
  | b :: r => String (hex_digit (Z.shiftr b 4)) (String (hex_digit (Z.land b 15)) (hexlify r))
  end.

Fixpoint chars (s : string) : list ascii :=
  match s with
  | EmptyString => []
  | String c r => c :: chars r
  end.

Fixpoint join (cs : list ascii) : string :=
  match cs with
  | [] => EmptyString
  | c :: r => String c (join r)
  end.

(** [toUtf8Bytes] on code units below 256. *)
Definition utf8 (c : ascii) : list Z :=
  if code c <? 128 then [code c]
  else [Z.lor 192 (Z.shiftr (code c) 6); Z.lor 128 (Z.land (code c) 63)].

(** ** The built-in [BigInt(string)] *)

(** White space and line terminators below 256. *)
Definition is_ws (c : ascii) : bool :=
  in_range 9 13 c || (code c =? 32) || (code c =? 160).

Fixpoint trim_start (s : string) : string :=
  match s with
  | String c r => if is_ws c then trim_start r else s
  | EmptyString => EmptyString
  end.

Fixpoint trim_end (s : string) : string :=
  match s with
  | EmptyString => EmptyString
  | String c r =>
      match trim_end r with
      | EmptyString => if is_ws c then EmptyString else String c EmptyString
      | r' => String c r'
      end
  end.

Definition digit_value (c : ascii) : Z :=
  if is_digit c then code c - 48
  else if in_range 97 122 c then code c - 87
  else code c - 55.

Definition is_radix_digit (radix : Z) (c : ascii) : bool :=
  (is_digit c || in_range 97 122 c || in_range 65 90 c) && (digit_value c <? radix).

(** The value of a digit string, most significant digit first. *)
Fixpoint digits_value (radix : Z) (acc : Z) (s : string) : Z :=
  match s with
  | EmptyString => acc
  | String c r => digits_value radix (radix * acc + digit_value c) r
  end.

Definition parse_digits (radix : Z) (s : string) : Result Z :=
  match s with
  | EmptyString => throw SyntaxError
  | _ => if forall_string (is_radix_digit radix) s
         then ret (digits_value radix 0 s)
         else throw SyntaxError
  end.

(** [BigInt(s)] on a string: white space is trimmed, the empty string is 0,
    a 0x, 0o or 0b prefix selects the radix (no sign allowed there), a
    decimal literal may carry a sign; anything else is a SyntaxError. *)
Definition BigInt (s : string) : Result Z :=
  match trim_end (trim_start s) with
  | EmptyString => ret 0
  | String "0" (String "x" r) | String "0" (String "X" r) => parse_digits 16 r
  | String "0" (String "o" r) | String "0" (String "O" r) => parse_digits 8 r
  | String "0" (String "b" r) | String "0" (String "B" r) => parse_digits 2 r
  | String "-" r => let* v := parse_digits 10 r in ret (- v)
  | String "+" r => parse_digits 10 r
  | t => parse_digits 10 t
  end.

(** Decimal rendering of a non-negative [bigint] ([toString()]). *)
Fixpoint render_digits (fuel : nat) (n : Z) (acc : string) : string :=
  match fuel with
  | O => acc
  | S f =>
      let acc' := String (chr (48 + n mod 10)) acc in
      if n <? 10 then acc' else render_digits f (n / 10) acc'
  end.

Definition render (n : Z) : string :=
  render_digits (S (Z.to_nat (Z.log2 n))) n EmptyString.

Definition bigint_toString (n : Z) : string :=
  if n <? 0 then String "-" (render (- n)) else render n.


(** ** The functions of ethers v6 that the source calls *)

Module ethers.

(** [ethers.id(text)]: the Keccak-256 of the UTF-8 bytes, as a 0x string. *)
Definition id (text : string) : string :=
  "0x" +:+ hexlify (Keccak.keccak256 (flat_map utf8 (chars text))).

(** The loop of [getChecksumAddress]: two characters per hash byte, each
    upper-cased when its nibble is 8 or more. *)
Fixpoint checksum_case (cs : list ascii) (hashed : list Z) : list ascii :=
  match cs, hashed with
  | c1 :: c2 :: r, h :: hs =>
      (if 8 <=? Z.shiftr h 4 then upper_char c1 else c1)
        :: (if 8 <=? Z.land h 15 then upper_char c2 else c2)
        :: checksum_case r hs
  | _, _ => cs
  end.

(** [getChecksumAddress(address)], [address] a 0x string of 40 hex digits. *)
Definition getChecksumAddress (address : string) : string :=
  let cs := chars (slice 2 (toLowerCase address)) in
  let hashed := Keccak.keccak256 (List.map code cs) in
  "0x" +:+ join (checksum_case cs hashed).

Definition hex40 (s : string) : bool :=
  (String.length s =? 40)%nat && forall_string is_hex s.

(** [/([A-F].*[a-f])|([a-f].*[A-F])/] on a string of hex digits and x:
    both an upper-case and a lower-case hex letter occur. *)
Definition mixed_case (s : string) : bool :=
  exists_string is_upper_hex s && exists_string is_lower_hex s.

(** [ethers.getAddress(address)] on the strings [/^(0x)?[0-9a-fA-F]{40}$/]
    accepts, and on every other string that begins with 0x, which it
    rejects as an invalid address.  (The ICAP form begins with XE; the
    source only passes strings that begin with 0x.) *)
Definition getAddress (address : string) : Result string :=
  let checked (a : string) : Result string :=
    let result := getChecksumAddress a in
    if mixed_case a && negb (String.eqb result a)
    then throw InvalidArgument
    else ret result in
  match address with
  | String "0" (String "x" body) =>
      if hex40 body then checked address else throw InvalidArgument
  | _ =>
      if hex40 address then checked ("0x" +:+ address) else throw InvalidArgument
  end.

(** [checkValue] at the fixed format of [parseUnits] and [formatUnits]:
    signed, 512 bits wide. *)
Definition checkValue (val : Z) : Result Z :=
  if (- 2 ^ 511 <=? val) && (val <? 2 ^ 511) then ret val else throw NumericFault.

Fixpoint span (p : ascii -> bool) (s : string) : string * string :=
  match s with
  | String c r => if p c then let '(a, b) := span p r in (String c a, b) else (EmptyString, s)
  | EmptyString => (EmptyString, EmptyString)
  end.

(** The regular expression of [FixedNumber.fromString]: an optional minus
    sign, digits, an optional point, digits, and nothing else.  The result
    is the sign, the whole part and the fraction, when the string matches. *)
Definition match_fixed (value : string) : option (bool * string * string) :=
  let '(neg, rest) :=
    match value with
    | String c r => if code c =? 45 then (true, r) else (false, value)
    | EmptyString => (false, value)
    end in
  let '(whole, rest1) := span is_digit rest in
  let rest2 :=
    match rest1 with
    | String c r => if code c =? 46 then r else rest1
    | EmptyString => rest1
    end in
  let '(frac, rest3) := span is_digit rest2 in
  match rest3 with
  | EmptyString => Some (neg, whole, frac)
  | _ => None
  end.

Fixpoint zeros (n : nat) : string :=
  match n with
  | O => EmptyString
  | S n' => String "0" (zeros n')
  end.

Definition is_zero_char (c : ascii) : bool := code c =? 48.

(** [FixedNumber.fromString(value, { decimals, width: 512 }).value], for a
    decimal count that ethers admits (at most 80; the source has 6 and 18).
    The fraction is padded with zeros to the decimal count; digits beyond it
    must all be zero. *)
Definition fromString (value : string) (decimals : nat) : Result Z :=
  match match_fixed value with
  | None => throw InvalidArgument
  | Some (neg, whole0, frac) =>
      if (String.length whole0 + String.length frac =? 0)%nat then throw InvalidArgument
      else
        let whole := match whole0 with EmptyString => "0" | _ => whole0 end in
        let padded := frac +:+ zeros (decimals - String.length frac) in
        if negb (forall_string is_zero_char (slice decimals padded))
        then throw NumericFault
        else
          let decimal := substring 0 decimals padded in
          let v := digits_value 10 0 (whole +:+ decimal) in
          checkValue (if neg then - v else v)
  end.

(** [ethers.parseUnits(value, decimals)]; an undefined [decimals] means 18. *)
Definition parseUnits (value : string) (unit : option nat) : Result Z :=
  fromString value (default 18%nat unit).

Fixpoint trim_whole (s : string) : string :=
  match s with
  | String "0" (String c r as t) => if (code c =? 46) then s else trim_whole t
  | _ => s
  end.

(** Trailing zeros of the fraction go, but for the one after the point. *)
Fixpoint trim_fraction (s : string) : string :=
  match s with
  | EmptyString => EmptyString
  | String c r =>
      match trim_fraction r with
      | EmptyString => if (code c =? 48) then EmptyString else String c EmptyString
      | r' => String c r'
      end
  end.

(** [toString(val, decimals)] of FixedNumber: the digits with a point
    [decimals] places from the right, at least one digit on each side, no
    other leading or trailing zeros. *)
Definition fixed_toString (val : Z) (decimals : nat) : string :=
  let negative := if val <? 0 then "-" else "" in
  let str := render (Z.abs val) in
  if (decimals =? 0)%nat then negative +:+ str
  else
    let str := zeros (S decimals - String.length str) +:+ str in
    let index := (String.length str - decimals)%nat in
    let whole := trim_whole (substring 0 index str +:+ ".") in
    let fraction :=
      match slice index str with
      | String c r => String c (trim_fraction r)
      | EmptyString => EmptyString
      end in
    negative +:+ whole +:+ fraction.

(** [ethers.formatUnits(value, decimals)]. *)
Definition formatUnits (value : Z) (decimals : nat) : Result string :=
  let* v := checkValue value in
  ret (fixed_toString v decimals).

End ethers.

(** ** Numbers *)

(** A JavaScript number is an IEEE 754 binary64 value: [spec_float] of the
    Standard Library at precision 53 and maximal exponent 1024, where
    [S754_finite sign m e] is the number (-1)^sign * m * 2^e. *)
Module Number.

Import SpecFloat.

Definition prec : Z := 53.
Definition emax : Z := 1024.

Definition add : spec_float -> spec_float -> spec_float := SFadd prec emax.
Definition mul : spec_float -> spec_float -> spec_float := SFmul prec emax.
Definition div : spec_float -> spec_float -> spec_float := SFdiv prec emax.

(** The Number value for an integer: the integer itself up to 2^53 in
    magnitude, the nearest number beyond. *)
Definition of_Z (n : Z) : spec_float := binary_normalize prec emax n 0 false.

(** [a * 10^q] compared with [b * 2^f], exactly. *)
Definition compare_scaled (a q b f : Z) : comparison :=
  (a * 10 ^ Z.max q 0 * 2 ^ Z.max (- f) 0 ?= b * 2 ^ Z.max f 0 * 10 ^ Z.max (- q) 0).

(** The Number value for [s * 10^q] is [m * 2^e]: the decimal lies between
    the midpoints to the neighbours of the number, which are half a unit in
    the last place away (a quarter below a power of two), a midpoint itself
    going to the number whose mantissa is even. *)
Definition rounds_to (m : positive) (e : Z) (s q : Z) : bool :=
  let below := if (Zpos m =? 2 ^ (prec - 1)) && (emin prec emax <? e) then 1 else 2 in
  match compare_scaled s q (4 * Zpos m - below) (e - 2),
        compare_scaled s q (4 * Zpos m + 2) (e - 2) with
  | Gt, Lt => true
  | Eq, Lt | Gt, Eq => Z.even (Zpos m)
  | _, _ => false
  end.

(** The integer part of [m * 2^e / 10^q]. *)
Definition quotient (m : positive) (e q : Z) : Z :=
  (Zpos m * 2 ^ Z.max e 0 * 10 ^ Z.max (- q) 0) / (2 ^ Z.max (- e) 0 * 10 ^ Z.max q 0).

(** The decimal exponent of [m * 2^e], the [n] with
    [10^(n-1) <= m * 2^e < 10^n], from the digits of its integer part, or of
    the integer part of its inverse when it is below 1 (then give or take
    one). *)
Definition magnitude (m : positive) (e : Z) : Z :=
  let whole := quotient m e 0 in
  if 0 <? whole then Z.of_nat (String.length (render whole))
  else 1 - Z.of_nat (String.length (render (2 ^ Z.max (- e) 0 / Zpos m))).

(** The exponents [n] a decimal that reads back as the number can have: it
    lies in the decade of the number or in one next to it. *)
Definition exponents (m : positive) (e : Z) : list Z :=
  let n := magnitude m e in [n + 1; n; n - 1].

(** [(s, n)] has [k] digits and [s * 10^(n-k)] reads back as the number. *)
Definition admissible (m : positive) (e k : Z) (c : Z * Z) : bool :=
  (10 ^ (k - 1) <=? fst c) && (fst c <? 10 ^ k) && rounds_to m e (fst c) (snd c - k).

(** The decimals of [k] digits that read back as the number: for each
    exponent, of the two that enclose the number, those that do. *)
Definition candidates (m : positive) (e k : Z) : list (Z * Z) :=
  List.filter (admissible m e k)
    (flat_map (fun n => let s := quotient m e (n - k) in [(s, n); (s + 1, n)])
              (exponents m e)).

(** The distance of [s * 10^q] to [m * 2^e], as a fraction. *)
Definition distance (m : positive) (e s q : Z) : Z * Z :=
  (Z.abs (s * 10 ^ Z.max q 0 * 2 ^ Z.max (- e) 0 - Zpos m * 2 ^ Z.max e 0 * 10 ^ Z.max (- q) 0),
   10 ^ Z.max (- q) 0 * 2 ^ Z.max (- e) 0).

Definition nearer (a b : Z * Z) : bool := fst a * snd b <? fst b * snd a.

(** Of two decimals the one closer to the number, and of two as close the
    one whose [s] is even. *)
Definition better (m : positive) (e k : Z) (c c' : Z * Z) : Z * Z :=
  let d := distance m e (fst c) (snd c - k) in
  let d' := distance m e (fst c') (snd c' - k) in
  if nearer d' d then c'
  else if nearer d d' then c
  else if Z.even (fst c) then c else c'.

Definition closest (m : positive) (e k : Z) (cs : list (Z * Z)) : option (Z * Z) :=
  match cs with
  | [] => None
  | c :: r => Some (fold_left (better m e k) r c)
  end.

(** The exact decimal expansion of [m * 2^e]. *)
Definition exact (m : positive) (e : Z) : Z * Z * Z :=
  let s := Zpos m * 2 ^ Z.max e 0 * 5 ^ Z.max (- e) 0 in
  let k := Z.of_nat (String.length (render s)) in
  (s, k + Z.min e 0, k).

(** Step 5 of Number::toString: integers [n], [k], [s] with [k >= 1],
    [10^(k-1) <= s < 10^k], the Number value for [s * 10^(n-k)] being the
    number, [k] as small as possible, and [s] such that [s * 10^(n-k)] is
    closest to the number.  Seventeen digits always determine a binary64
    value; the exact expansion stands for the outcome past them. *)
Fixpoint shortest_from (fuel : nat) (m : positive) (e k : Z) : Z * Z * Z :=
  match fuel with
  | O => exact m e
  | S f =>
      match closest m e k (candidates m e k) with
      | Some (s, n) => (s, n, k)
      | None => shortest_from f m e (k + 1)
      end
  end.

Definition shortest (m : positive) (e : Z) : Z * Z * Z := shortest_from 17 m e 1.

(** Steps 6 to 10 of Number::toString: the digits of [s] with the point
    after the [n]-th, or in exponent notation when [n] is above 21 or below
    -5. *)
Definition notation (s n k : Z) : string :=
  let digits := render s in
  if (k <=? n) && (n <=? 21) then digits +:+ ethers.zeros (Z.to_nat (n - k))
  else if (0 <? n) && (n <=? 21)
  then substring 0 (Z.to_nat n) digits +:+ "." +:+ slice (Z.to_nat n) digits
  else if (-6 <? n) && (n <=? 0)
  then "0." +:+ ethers.zeros (Z.to_nat (- n)) +:+ digits
  else
    let exponent := (if n - 1 <? 0 then "-" else "+") +:+ render (Z.abs (n - 1)) in
    if k =? 1 then digits +:+ "e" +:+ exponent
    else substring 0 1 digits +:+ "." +:+ slice 1 digits +:+ "e" +:+ exponent.

End Number.

(** [Number.prototype.toString()], radix 10. *)
Definition Number_toString (x : SpecFloat.spec_float) : string :=
  match x with
  | SpecFloat.S754_nan => "NaN"
  | SpecFloat.S754_zero _ => "0"
  | SpecFloat.S754_infinity sign => if sign then "-Infinity" else "Infinity"
  | SpecFloat.S754_finite sign m e =>
      let '(s, n, k) := Number.shortest m e in
      (if sign then "-" else "") +:+ Number.notation s n k
  end.

(** ** Chain data, as ethers hands it to the caller *)

Module Chain.

Record Log : Type := mkLog {
  address : string;
  topics : list string;
  data : string
}.

(** [status] is [null | number]: 1 for success, 0 for a reverted
    transaction. *)
Record TransactionReceipt : Type := mkReceipt {
  status : option Z;
  logs : list Log;
  blockNumber : Z
}.

(** What a JSON-RPC endpoint answers: the receipt of a transaction hash
    ([null] when the node has none) and the number of the latest block. *)
Record JsonRpcProvider : Type := mkProvider {
  getTransactionReceipt : string -> option TransactionReceipt;
  getBlockNumber : Z
}.

(** [new ethers.JsonRpcProvider(rpcUrl)]: the endpoints, by URL. *)
Definition Rpc : Type := string -> JsonRpcProvider.

End Chain.
Import Chain.

(** ** Network configuration (docs/BLOCKCHAIN.md) *)

Record Stablecoin : Type := mkStablecoin {
  coin_address : string;
  symbol : string;
  decimals : nat
}.

Record NetworkConfig : Type := mkNetworkConfig {
  name : string;
  chainId : string;
  rpcUrl : string;
  explorer : string;
  stablecoin : Stablecoin
}.

Definition baseConfig : NetworkConfig :=
  {| name := "Base Mainnet";
     chainId := "0x2105";
     rpcUrl := "https://mainnet.base.org";
     explorer := "https://basescan.org";
     stablecoin :=
       {| coin_address := "0x833589fCD6eDb6E08f4c7C32D4f71b54bdA02913";
          symbol := "USDC";
          decimals := 6 |} |}.

Definition celoConfig : NetworkConfig :=
  {| name := "Celo Mainnet";
     chainId := "0xa4ec";
     rpcUrl := "https://forno.celo.org";
     explorer := "https://explorer.celo.org";
     stablecoin :=
       {| coin_address := "0x765DE816845861e75A25fCA122bb6898B8B1282a";
          symbol := "cUSD";
          decimals := 18 |} |}.

(** The type ["base" | "celo"] of the [network] argument. *)
Inductive Network : Type := base | celo.

(** Modelled from the spec: the [NETWORKS] table, which the source indexes but
    does not define.  The spec's registry maps base to USDC with 6 decimals
    and celo to cUSD with 18; these are the source's [baseConfig] and
    [celoConfig]. *)
Definition NETWORKS (network : Network) : NetworkConfig :=
  match network with
  | base => baseConfig
  | celo => celoConfig
  end.

(** ** Token decimal handling (docs/BLOCKCHAIN.md) *)

(** What indexing an object literal with a string gives: the value of an
    own entry, a member inherited from [Object.prototype], or [undefined]. *)
Inductive Member : Type :=
| Own (value : nat)
| Inherited
| Undefined.

(** The string-keyed properties of [Object.prototype]: functions, and for
    [__proto__] the prototype object itself. *)
Definition Object_prototype : list string :=
  ["constructor"; "__defineGetter__"; "__defineSetter__"; "hasOwnProperty";
   "__lookupGetter__"; "__lookupSetter__"; "isPrototypeOf"; "propertyIsEnumerable";
   "toString"; "valueOf"; "__proto__"; "toLocaleString"].

(** [TOKEN_DECIMALS[tokenSymbol]]: the four entries of the literal, what
    the literal inherits, and [undefined] for any other string. *)
Definition TOKEN_DECIMALS (tokenSymbol : string) : Member :=
  if String.eqb tokenSymbol "USDC" then Own 6
  else if String.eqb tokenSymbol "USDT" then Own 6
  else if String.eqb tokenSymbol "cUSD" then Own 18
  else if String.eqb tokenSymbol "CELO" then Own 18
  else if existsb (String.eqb tokenSymbol) Object_prototype then Inherited
  else Undefined.

(** [parseAmount(usdAmount, tokenSymbol)].  [ethers.parseUnits] takes the
    unit through [getNumber], which rejects what is neither a number nor
    [undefined] ("invalid numeric value") before the text is read. *)
Definition parseAmount (usdAmount : SpecFloat.spec_float) (tokenSymbol : string) : Result Z :=
  let decimals := TOKEN_DECIMALS tokenSymbol in
  match decimals with
  | Own unit => ethers.parseUnits (Number_toString usdAmount) (Some unit)
  | Undefined => ethers.parseUnits (Number_toString usdAmount) None
  | Inherited => throw InvalidArgument
  end.

(** ** Transaction verification *)

(** [ethers.id("Transfer(address,address,uint256)")]. *)
Definition transferTopic : string := ethers.id "Transfer(address,address,uint256)".

(** [log.topics[0] === transferTopic]; a missing [topics[0]] is [undefined]
    and equals no string. *)
Definition is_transfer (log : Log) : bool :=
  match nth_error (topics log) 0 with
  | Some t => String.eqb t transferTopic
  | None => false
  end.

(** [receipt.status === 0]. *)
Definition status_is_0 (receipt : TransactionReceipt) : bool :=
  match status receipt with
  | Some n => n =? 0
  | None => false
  end.

(** [transferLog.topics[2].slice(26)]: reading [slice] off [undefined] is a
    TypeError. *)
Definition topic2_slice26 (transferLog : Log) : Result string :=
  match nth_error (topics transferLog) 2 with
  | Some t => ret (slice 26 t)
  | None => throw TypeError
  end.

(** The copy of docs/BLOCKCHAIN.md. *)
Module Blockchain.

Record Verification : Type := mkVerification {
  verified : bool;
  txHash : string;
  recipient : string;
  amount : string;
  blockNumber : Z;
  confirmations : Z
}.

Definition verifyPayment (rpc : Rpc) (txHash expectedRecipient : string)
    (expectedAmount : Z) (network : Network) : Result Verification :=
  let networkConfig := NETWORKS network in
  let provider := rpc (rpcUrl networkConfig) in
  (* Get transaction receipt *)
  match getTransactionReceipt provider txHash with
  | None => throw TransactionNotFound
  | Some receipt =>
      if status_is_0 receipt then throw TransactionFailed
      else
        (* Parse Transfer event from logs *)
        match List.find is_transfer (logs receipt) with
        | None => throw TransferEventNotFound
        | Some transferLog =>
            (* Decode recipient and amount from log *)
            let* tail := topic2_slice26 transferLog in
            let* recipient := ethers.getAddress ("0x" +:+ tail) in
            let* amount := BigInt (data transferLog) in
            (* Verify *)
            if negb (String.eqb (toLowerCase recipient) (toLowerCase expectedRecipient))
            then throw RecipientMismatch
            else if amount <? expectedAmount
            then throw AmountMismatch
            else
              let* formatted :=
                ethers.formatUnits amount (decimals (stablecoin networkConfig)) in
              ret {| verified := true;
                     txHash := txHash;
                     recipient := recipient;
                     amount := formatted;
                     blockNumber := Chain.blockNumber receipt;
                     confirmations := getBlockNumber provider - Chain.blockNumber receipt |}
        end
  end.

End Blockchain.

(** The copy of docs/SECURITY.md.  Its [network] is typed [string]; it is
    given the two keys of [NETWORKS] here. *)
Module Security.

Definition verifyPayment (rpc : Rpc) (txHash expectedRecipient : string)
    (expectedAmount : Z) (network : Network) : Result bool :=
  let provider := rpc (rpcUrl (NETWORKS network)) in
  (* Get transaction receipt *)
  let receipt := getTransactionReceipt provider txHash in
  match receipt with
  | None => throw TransactionFailed
  | Some receipt =>
      if status_is_0 receipt then throw TransactionFailed
      else
        (* Parse Transfer event *)
        match List.find is_transfer (logs receipt) with
        | None => throw TransferEventNotFound
        | Some transferLog =>
            (* Verify recipient and amount *)
            let* tail := topic2_slice26 transferLog in
            let* recipient := ethers.getAddress ("0x" +:+ tail) in
            let* amount := BigInt (data transferLog) in
            if negb (String.eqb (toLowerCase recipient) (toLowerCase expectedRecipient))
            then throw RecipientMismatch
            else if amount <? expectedAmount
            then throw AmountMismatch
            else ret true
        end
  end.

End Security.

(** ** The invoices table and the mark-paid update *)

Module Db.

(** A row of [invoices] (the columns the payment flow reads or writes),
    keyed by its [id] in the table.  Timestamps are instants on an integer
    clock; [amount] is a whole number of USD. *)
Record Invoice : Type := mkInvoice {
  merchant_id : string;
  invoice_number : string;
  amount : Z;
  status : string;
  due_date : Z;
  paid_at : option Z;
  tx_hash : option string;
  network : option string;
  updated_at : Z
}.

(** The trigger [update_updated_at_column], BEFORE UPDATE on each row:
    [NEW.updated_at = NOW()]. *)
Definition update_updated_at_column (now : Z) (NEW : Invoice) : Invoice :=
  {| merchant_id := merchant_id NEW;
     invoice_number := invoice_number NEW;
     amount := amount NEW;
     status := status NEW;
     due_date := due_date NEW;
     paid_at := paid_at NEW;
     tx_hash := tx_hash NEW;
     network := network NEW;
     updated_at := now |}.

(** The column assignment [{ tx_hash: tx.hash, status: 'paid' }]. *)
Definition set_paid (txHash : string) (row : Invoice) : Invoice :=
  {| merchant_id := merchant_id row;
     invoice_number := invoice_number row;
     amount := amount row;
     status := "paid";
     due_date := due_date row;
     paid_at := paid_at row;
     tx_hash := Some txHash;
     network := network row;
     updated_at := updated_at row |}.

(** [supabase.from('invoices').update({ tx_hash: tx.hash, status: 'paid' })
    .eq('id', invoiceId)] at instant [now]: the row whose id is
    [invoiceId], if there is one, gets the two columns, and the trigger
    stamps it. *)
Definition markPaid (now : Z) (invoices : gmap string Invoice)
    (invoiceId txHash : string) : gmap string Invoice :=
  alter (fun row => update_updated_at_column now (set_paid txHash row))
        invoiceId invoices.

End Db.

(** ** Auxiliary definitions for the statements *)

(** The decode step of [verifyPayment] in isolation: recipient and amount of
    the chosen log, or what decoding throws. *)
Definition decode (transferLog : Log) : Result (string * Z) :=
  let* tail := topic2_slice26 transferLog in
  let* recipient := ethers.getAddress ("0x" +:+ tail) in
  let* amount := BigInt (data transferLog) in
  ret (recipient, amount).

(** An endpoint that answers every receipt request with [receipt] and whose
    latest block is [head]. *)
Definition serving (receipt : option TransactionReceipt) (head : Z) : Rpc :=
  fun _ => {| getTransactionReceipt := fun _ => receipt; getBlockNumber := head |}.

(** The same chain with every log's emitting address replaced by [f log]. *)
Definition readdress_log (f : Log -> string) (log : Log) : Log :=
  {| address := f log; topics := topics log; data := data log |}.

Definition readdress_receipt (f : Log -> string) (r : TransactionReceipt) : TransactionReceipt :=
  {| status := status r; logs := List.map (readdress_log f) (logs r); blockNumber := blockNumber r |}.

Definition readdress (f : Log -> string) (rpc : Rpc) : Rpc :=
  fun url =>
    {| getTransactionReceipt := fun h => option_map (readdress_receipt f) (getTransactionReceipt (rpc url) h);
       getBlockNumber := getBlockNumber (rpc url) |}.



(** *** Fixtures *)

Definition merchant : string := "0x1111111111111111111111111111111111111111".
Definition merchant_topic : string :=
  "0x0000000000000000000000001111111111111111111111111111111111111111".
Definition stranger_topic : string :=
  "0x0000000000000000000000002222222222222222222222222222222222222222".
Definition payer_topic : string :=
  "0x000000000000000000000000aaaaaaaaaaaaaaaaaaaaaaaaaaaaaaaaaaaaaaaa".
Definition other_contract : string := "0x000000000000000000000000000000000000dEaD".
Definition usdc : string := coin_address (stablecoin baseConfig).

(** 100_000_000 and 99_999_999 as 32-byte words. *)
Definition word_100_000_000 : string :=
  "0x0000000000000000000000000000000000000000000000000000000005f5e100".
Definition word_99_999_999 : string :=
  "0x0000000000000000000000000000000000000000000000000000000005f5e0ff".

Definition transfer_log (contract to amount : string) : Log :=
  {| address := contract; topics := [transferTopic; payer_topic; to]; data := amount |}.


Definition receipt_of (ls : list Log) : TransactionReceipt :=
  {| status := Some 1; logs := ls; blockNumber := 10 |}.

Definition sent_invoice : Db.Invoice :=
  {| Db.merchant_id := "m-1"; Db.invoice_number := "INV-1"; Db.amount := 100;
     Db.status := "sent"; Db.due_date := 700; Db.paid_at := None;
     Db.tx_hash := None; Db.network := Some "base"; Db.updated_at := 5 |}.

Definition paid_invoice : Db.Invoice :=
  {| Db.merchant_id := "m-1"; Db.invoice_number := "INV-2"; Db.amount := 100;
     Db.status := "paid"; Db.due_date := 700; Db.paid_at := Some 50;
     Db.tx_hash := Some "0xaaaa"; Db.network := Some "base"; Db.updated_at := 50 |}.

(** ** Further functions of docs/BLOCKCHAIN.md *)

Module BlockchainMd.

(** [/^0x[a-fA-F0-9]{40}$/.test(address)]. *)
Definition evm_address (address : string) : bool :=
  match address with
  | String "0" (String "x" body) => ethers.hex40 body
  | _ => false
  end.

(** [validateAddress(address, network)], [network] of type
    ["base" | "celo"]. *)
Definition validateAddress (address : string) (network : Network) : bool :=
  match network with
  | base | celo => evm_address address
  end.

(** [validateAmount(amount, balance, minAmount = 1n)]; an omitted
    [minAmount] is [None]. *)
Definition validateAmount (amount balance : Z) (minAmount : option Z) : bool :=
  let minAmount := default 1 minAmount in
  if amount <=? 0 then false
  else if amount <? minAmount then false
  else if balance <? amount then false
  else true.

(** The explorer link of a transaction: Basescan when [selectedNetwork] is
    "base", the Celo explorer otherwise. *)
Definition explorerUrl (selectedNetwork txHash : string) : string :=
  if String.eqb selectedNetwork "base"
  then "https://basescan.org/tx/" +:+ txHash
  else "https://explorer.celo.org/mainnet/tx/" +:+ txHash.

(** What [getTokenInfo] keeps of a token. *)
Record TokenInfo : Type := mkTokenInfo {
  info_decimals : Z;
  info_symbol : string
}.

(** [getTokenInfo(tokenAddress)] with the module-level [tokenCache].  [read]
    stands for the two batched contract reads, [decimals()] and [symbol()]:
    [None] when either is rejected, which rejects the call.  The result is
    what the call resolves to and the cache it leaves. *)
Definition getTokenInfo (read : string -> option TokenInfo)
    (tokenCache : gmap string TokenInfo) (tokenAddress : string)
    : option TokenInfo * gmap string TokenInfo :=
  match tokenCache !! tokenAddress with
  | Some cached => (Some cached, tokenCache)
  | None =>
      match read tokenAddress with
      | None => (None, tokenCache)
      | Some info => (Some info, <[tokenAddress := info]> tokenCache)
      end
  end.

End BlockchainMd.

(** ** Further functions of docs/SECURITY.md *)

Module SecurityMd.

(** The character class [[1-9A-HJ-NP-Za-km-z]]. *)
Definition is_base58 (c : ascii) : bool :=
  in_range 49 57 c || in_range 65 72 c || in_range 74 78 c || in_range 80 90 c
  || in_range 97 107 c || in_range 109 122 c.

(** [/^[1-9A-HJ-NP-Za-km-z]{32,44}$/.test(address)]. *)
Definition solana_address (address : string) : bool :=
  (32 <=? String.length address)%nat && (String.length address <=? 44)%nat
  && forall_string is_base58 address.

(** [validateAddress(address, network)], [network] any string. *)
Definition validateAddress (address network : string) : bool :=
  if String.eqb network "base" || String.eqb network "celo"
  then BlockchainMd.evm_address address
  else if String.eqb network "solana" then solana_address address
  else false.

(** [s.replace(/c/g, by)] for a single character [c] (and a replacement
    text without dollar signs). *)
Fixpoint replace_all (c : ascii) (by_ : string) (s : string) : string :=
  match s with
  | EmptyString => EmptyString
  | String a r =>
      if Ascii.eqb a c then by_ +:+ replace_all c by_ r
      else String a (replace_all c by_ r)
  end.

Definition amp : ascii := "&".
Definition lt : ascii := "<".
Definition gt : ascii := ">".
Definition quot : ascii := "034".
Definition apos : ascii := "'".

(** [escapeHTML(unsafe)]: the five replacements, in the order of the
    source. *)
Definition escapeHTML (unsafe : string) : string :=
  replace_all apos "&#039;"
    (replace_all quot "&quot;"
       (replace_all gt "&gt;"
          (replace_all lt "&lt;"
             (replace_all amp "&amp;" unsafe)))).

(** A row of [api_keys].  The integer columns hold integers (their defaults
    or what the code writes); timestamps are instants on an integer clock. *)
Record ApiKey : Type := mkApiKey {
  id : string;
  profile_id : string;
  key_prefix : string;
  key_hash : string;
  tier : string;
  is_active : bool;
  rate_limit : Z;
  calls_used : Z;
  last_used_at : option Z;
  updated_at : Z
}.

(** The update [{ last_used_at: new Date() }] on a row, with the table's
    [updated_at] trigger. *)
Definition touch (now : Z) (row : ApiKey) : ApiKey :=
  {| id := id row; profile_id := profile_id row; key_prefix := key_prefix row;
     key_hash := key_hash row; tier := tier row; is_active := is_active row;
     rate_limit := rate_limit row; calls_used := calls_used row;
     last_used_at := Some now; updated_at := now |}.

(** The API key of the generation snippet, from the 16 random bytes. *)
Definition apiKey (random : list Z) : string := "rav_live_" +:+ hexlify random.

(** The row the generation snippet inserts for [userId]; [keyHash] is the
    bcrypt hash of the key, [newId] the id the table gives the row, the
    other columns take their defaults. *)
Definition generated_row (random : list Z) (keyHash userId newId : string) (now : Z) : ApiKey :=
  {| id := newId; profile_id := userId;
     key_prefix := substring 0 7 (apiKey random);
     key_hash := keyHash; tier := "starter"; is_active := true;
     rate_limit := 1000; calls_used := 0; last_used_at := None; updated_at := now |}.

(** [validateApiKey(providedKey)] at instant [now] on the table [api_keys],
    rows in the order the query returns them; [bcrypt_compare] is
    [bcrypt.compare].  The result is the profile id (or null) and the table
    the call leaves. *)
Definition validateApiKey (bcrypt_compare : string -> string -> bool) (now : Z)
    (api_keys : list ApiKey) (providedKey : string) : option string * list ApiKey :=
  (* Extract prefix *)
  let prefix := substring 0 7 providedKey in
  (* Find potential keys with this prefix *)
  let keys :=
    List.filter (fun row => String.eqb (key_prefix row) prefix && is_active row) api_keys in
  (* Compare hashes *)
  match List.find (fun key => bcrypt_compare providedKey (key_hash key)) keys with
  | Some key =>
      (Some (profile_id key),
       List.map (fun row => if String.eqb (id row) (id key) then touch now row else row)
                api_keys)
  | None => (None, api_keys)
  end.

(** [.single()]: the row, when the query yields exactly one. *)
Definition single {A : Type} (rows : list A) : option A :=
  match rows with
  | [row] => Some row
  | _ => None
  end.

(** The update [{ calls_used: ..., last_used_at: new Date() }]. *)
Definition count_call (used now : Z) (row : ApiKey) : ApiKey :=
  {| id := id row; profile_id := profile_id row; key_prefix := key_prefix row;
     key_hash := key_hash row; tier := tier row; is_active := is_active row;
     rate_limit := rate_limit row; calls_used := used;
     last_used_at := Some now; updated_at := now |}.



End SecurityMd.

(** ** The API handlers (api/v1/invoices/create.ts, list.ts) *)

Module Api.

Import SecurityMd.

(** [hashApiKey(key)]; [sha256_hex] is the hex SHA-256 digest of crypto. *)
Definition hashApiKey (sha256_hex : string -> string) (key : string) : string :=
  sha256_hex key.

(** The columns [validateApiKey] selects. *)
Record KeyData : Type := mkKeyData {
  data_id : string;
  data_profile_id : string;
  data_tier : string;
  data_rate_limit : Z;
  data_calls_used : Z;
  data_is_active : bool
}.

Definition select_data (row : ApiKey) : KeyData :=
  {| data_id := id row; data_profile_id := profile_id row; data_tier := tier row;
     data_rate_limit := rate_limit row; data_calls_used := calls_used row;
     data_is_active := is_active row |}.

(** [validateApiKey(key)] at instant [now]: the selected columns of the key
    (or null) and the table the call leaves. *)
Definition validateApiKey (sha256_hex : string -> string) (now : Z)
    (api_keys : list ApiKey) (key : string) : option KeyData * list ApiKey :=
  let keyHash := hashApiKey sha256_hex key in
  match single (List.filter (fun row => String.eqb (key_hash row) keyHash && is_active row)
                            api_keys) with
  | None => (None, api_keys)
  | Some row =>
      let data := select_data row in
      (* Check rate limit *)
      if data_rate_limit data <=? data_calls_used data then (None, api_keys)
      else
        (* Update usage stats *)
        (Some data,
         List.map (fun r => if String.eqb (id r) (data_id data)
                            then count_call (data_calls_used data + 1) now r
                            else r) api_keys)
  end.

(** Requests made one after the other with the same key, at the instants
    [times]: what each call returns, and the table at the end. *)
Fixpoint validateApiKey_each (sha256_hex : string -> string) (times : list Z)
    (api_keys : list ApiKey) (key : string) : list (option KeyData) * list ApiKey :=
  match times with
  | [] => ([], api_keys)
  | now :: later =>
      let '(result, api_keys') := validateApiKey sha256_hex now api_keys key in
      let '(results, final) := validateApiKey_each sha256_hex later api_keys' key in
      (result :: results, final)
  end.

(** [generateApiKey()] of the key-creation handler, from the 24 random
    bytes: key, hash and prefix. *)
Definition generateApiKey (sha256_hex : string -> string) (random : list Z)
    : string * string * string :=
  let randomBytes := hexlify random in
  let key := "rav_live_" +:+ randomBytes in
  let hash := sha256_hex key in
  let prefix := substring 0 16 key in
  (key, hash, prefix).

End Api.

(** ** Further auxiliary definitions for the statements *)

(** A hex digit that is not an upper-case letter. *)
Definition low_hex (c : ascii) : bool := is_digit c || is_lower_hex c.

(** A 0x string of [n] hex digits, none of them upper case: the form in
    which nodes return topics. *)
Definition lower_hex_word (n : nat) (s : string) : bool :=
  match s with
  | String "0" (String "x" body) =>
      (String.length body =? n)%nat && forall_string low_hex body
  | _ => false
  end.

(** A 0x string of [n] hex digits. *)
Definition hex_word (n : nat) (s : string) : bool :=
  match s with
  | String "0" (String "x" body) => (String.length body =? n)%nat && forall_string is_hex body
  | _ => false
  end.

(** The log of an ERC-20 transfer as the standard has it: the signature and
    two indexed addresses as 32-byte topics, one 32-byte word of data. *)
Definition well_formed_transfer (l : Log) : bool :=
  match topics l with
  | [t0; t1; t2] =>
      String.eqb t0 transferTopic && lower_hex_word 64 t2 && hex_word 64 (data l)
  | _ => false
  end.

(** The text [escapeHTML] puts for one character. *)
Definition escape_char (c : ascii) : string :=
  if Ascii.eqb c SecurityMd.amp then "&amp;"
  else if Ascii.eqb c SecurityMd.lt then "&lt;"
  else if Ascii.eqb c SecurityMd.gt then "&gt;"
  else if Ascii.eqb c SecurityMd.quot then "&quot;"
  else if Ascii.eqb c SecurityMd.apos then "&#039;"
  else String c EmptyString.

(** The characters that open or close markup or an attribute value. *)
Definition is_markup (c : ascii) : bool :=
  Ascii.eqb c SecurityMd.lt || Ascii.eqb c SecurityMd.gt
  || Ascii.eqb c SecurityMd.quot || Ascii.eqb c SecurityMd.apos.

(** The five characters [escapeHTML] replaces. *)
Definition is_special (c : ascii) : bool := Ascii.eqb c SecurityMd.amp || is_markup c.


(** The columns of a row that no validation writes: all but [calls_used],
    [last_used_at] and [updated_at]. *)
Definition identity_of (row : SecurityMd.ApiKey)
    : string * string * string * string * string * bool * Z :=
  (SecurityMd.id row, SecurityMd.profile_id row, SecurityMd.key_prefix row,
   SecurityMd.key_hash row, SecurityMd.tier row, SecurityMd.is_active row,
   SecurityMd.rate_limit row).

(** A key row with a limit of two calls, for the examples; its hash column
    holds the key itself, the digest of the examples being the identity. *)
Definition two_call_key : SecurityMd.ApiKey :=
  {| SecurityMd.id := "key-1"; SecurityMd.profile_id := "user-1";
     SecurityMd.key_prefix := "rav_live_0123456"; SecurityMd.key_hash := "rav_live_0123";
     SecurityMd.tier := "starter"; SecurityMd.is_active := true;
     SecurityMd.rate_limit := 2; SecurityMd.calls_used := 0;
     SecurityMd.last_used_at := None; SecurityMd.updated_at := 1 |}.

(** *** Numbers and amounts *)

(** The integer [v], taken at [d] decimals, is a decimal that denotes the
    number [x]: zero for a zero and, for a finite number, a decimal of its
    sign that reads back as it. *)
Definition denotes (x : SpecFloat.spec_float) (v : Z) (d : nat) : bool :=
  match x with
  | SpecFloat.S754_zero _ => v =? 0
  | SpecFloat.S754_finite sign m e =>
      (if sign then v <? 0 else 0 <? v) && Number.rounds_to m e (Z.abs v) (- Z.of_nat d)
  | _ => false
  end.

(** The integer for the decimal [s * 10^(n-k)] of [k] digits at [d]
    decimals, as it comes out of the text of a number: none for a decimal
    that is written in exponent notation, none for one with digits other
    than zero beyond the decimal count, and else the decimal scaled by
    [10^d], if it fits 512 bits. *)
Definition scaled (sign : bool) (s n k : Z) (d : nat) : Result Z :=
  if (n <=? -6) || (21 <? n) then throw InvalidArgument
  else
    let beyond := k - n - Z.of_nat d in
    if beyond <=? 0 then ethers.checkValue ((if sign then -1 else 1) * (s * 10 ^ (- beyond)))
    else if s mod 10 ^ beyond =? 0
         then ethers.checkValue ((if sign then -1 else 1) * (s / 10 ^ beyond))
         else throw NumericFault.

(** The numbers 0.1, 0.2 and 0.3 (the quotients 1/10, 2/10 and 3/10, which
    are the numbers of those literals), and the sum 0.1 + 0.2 of two line
    items as the handlers of the API add them up. *)
Definition tenth : SpecFloat.spec_float := Number.div (Number.of_Z 1) (Number.of_Z 10).
Definition two_tenths : SpecFloat.spec_float := Number.div (Number.of_Z 2) (Number.of_Z 10).
Definition three_tenths : SpecFloat.spec_float := Number.div (Number.of_Z 3) (Number.of_Z 10).
Definition sum_of_two_items : SpecFloat.spec_float := Number.add tenth two_tenths.

(** A data field of 64 bytes that holds 2^511. *)
Definition word_2_511 : string := "0x8" +:+ ethers.zeros 127.

(** A row up to its [updated_at] stamp. *)
Definition unstamped (row : Db.Invoice) : Db.Invoice := Db.update_updated_at_column 0 row.

(** Two token contracts and what their [decimals()] and [symbol()] answer. *)
Definition usdc_info : BlockchainMd.TokenInfo :=
  {| BlockchainMd.info_decimals := 6; BlockchainMd.info_symbol := "USDC" |}.
Definition cusd_info : BlockchainMd.TokenInfo :=
  {| BlockchainMd.info_decimals := 18; BlockchainMd.info_symbol := "cUSD" |}.
Definition token_reads (tokenAddress : string) : option BlockchainMd.TokenInfo :=
  if String.eqb tokenAddress "0xusdc" then Some usdc_info
  else if String.eqb tokenAddress "0xcusd" then Some cusd_info
  else None.

(** * Properties *)

(** Splitting a conjunction into its parts, and nothing else. *)
Ltac conjuncts := repeat match goal with |- _ /\ _ => split end.

(** ** The library models agree with known values *)

Example transferTopic_value :
  transferTopic = "0xddf252ad1be2c89b69c2b068fc378daa952ba7f163c4a11628f55a4df523b3ef".
Proof. vm_compute. reflexivity. Qed.

Example keccak256_empty :
  ethers.id "" = "0xc5d2460186f7233c927e7db2dcc703c0e500b653ca82273b7bfad8045d85a470".
Proof. vm_compute. reflexivity. Qed.

Example getAddress_usdc :
  ethers.getAddress "0x833589fcd6edb6e08f4c7c32d4f71b54bda02913" = ret usdc.
Proof. vm_compute. reflexivity. Qed.

Example getAddress_cusd :
  ethers.getAddress "0x765de816845861e75a25fca122bb6898b8b1282a"
  = ret (coin_address (stablecoin celoConfig)).
Proof. vm_compute. reflexivity. Qed.

Example getAddress_bad_checksum :
  ethers.getAddress "0x833589fCD6eDb6E08f4c7C32D4f71b54bda02913" = throw InvalidArgument.
Proof. vm_compute. reflexivity. Qed.

Example BigInt_samples :
  BigInt word_100_000_000 = ret 100000000 /\ BigInt "0x" = throw SyntaxError /\
  BigInt "" = ret 0 /\ BigInt " -007 " = ret (-7) /\ BigInt "-0x1" = throw SyntaxError.
Proof. vm_compute. conjuncts; reflexivity. Qed.

Example parseUnits_samples :
  ethers.parseUnits "19.99" (Some 6%nat) = ret 19990000 /\
  ethers.parseUnits "0.1234567" (Some 6%nat) = throw NumericFault /\
  ethers.parseUnits "1e+21" None = throw InvalidArgument /\
  ethers.parseUnits "5." None = ret 5000000000000000000.
Proof. vm_compute. conjuncts; reflexivity. Qed.

Example formatUnits_samples :
  ethers.formatUnits 100000000 6 = ret "100.0" /\
  ethers.formatUnits 1 6 = ret "0.000001" /\
  ethers.formatUnits 1234567 6 = ret "1.234567" /\
  ethers.formatUnits (2 ^ 511) 6 = throw NumericFault.
Proof. vm_compute. conjuncts; reflexivity. Qed.

(** ** What the library calls can throw *)

Lemma getAddress_throws (a : string) (e : Thrown) :
  ethers.getAddress a = inl e -> e = InvalidArgument.
Proof.
  unfold ethers.getAddress.
  repeat match goal with
         | |- context [match ?x with _ => _ end] => destruct x
         end; unfold throw, ret; congruence.
Qed.

Lemma parse_digits_throws (radix : Z) (s : string) (e : Thrown) :
  parse_digits radix s = inl e -> e = SyntaxError.
Proof.
  unfold parse_digits.
  destruct s; [unfold throw; congruence|].
  destruct (forall_string _ _); unfold throw, ret; congruence.
Qed.

Lemma BigInt_throws (s : string) (e : Thrown) :
  BigInt s = inl e -> e = SyntaxError.
Proof.
  unfold BigInt.
  repeat match goal with
         | |- context [match ?x with _ => _ end] => destruct x
         end;
    try (unfold ret; congruence); try apply parse_digits_throws.
  all: unfold bind; destruct (parse_digits 10 _) eqn:E; unfold ret; try congruence.
  all: intros [= <-]; eauto using parse_digits_throws.
Qed.

Lemma formatUnits_throws (v : Z) (d : nat) (e : Thrown) :
  ethers.formatUnits v d = inl e -> e = NumericFault.
Proof.
  unfold ethers.formatUnits, ethers.checkValue, bind.
  destruct (_ && _); unfold throw, ret; congruence.
Qed.

Lemma formatUnits_in_range (v : Z) (d : nat) :
  - 2 ^ 511 <= v < 2 ^ 511 ->
  ethers.formatUnits v d = ret (ethers.fixed_toString v d).
Proof.
  intros [Hlo Hhi]. unfold ethers.formatUnits, ethers.checkValue.
  destruct (Z.leb_spec (- 2 ^ 511) v); [|lia].
  destruct (Z.ltb_spec v (2 ^ 511)); [|lia].
  reflexivity.
Qed.

Lemma decode_throws (l : Log) (e : Thrown) :
  decode l = inl e -> e = TypeError \/ e = InvalidArgument \/ e = SyntaxError.
Proof.
  unfold decode, topic2_slice26, bind.
  destruct (nth_error (topics l) 2); [|unfold throw; intros [= <-]; auto].
  unfold ret.
  destruct (ethers.getAddress _) eqn:Ha.
  - intros [= <-]. right; left. eauto using getAddress_throws.
  - destruct (BigInt _) eqn:Hb; [|congruence].
    intros [= <-]. right; right. eauto using BigInt_throws.
Qed.

(** Closing the branches of a case analysis that end in another error than
    the one at hand. *)
Ltac other_error :=
  unfold throw, ret in *;
  repeat match goal with
         | H : decode _ = inl _ |- _ =>
             apply decode_throws in H; destruct H as [-> | [-> | ->]]
         | H : ethers.formatUnits _ _ = inl _ |- _ =>
             apply formatUnits_throws in H; subst
         end;
  congruence.

(** ** The shape of a verification run *)

Arguments transferTopic : simpl never.
Arguments is_transfer : simpl never.
Arguments ethers.getAddress : simpl never.
Arguments BigInt : simpl never.
Arguments ethers.formatUnits : simpl never.
Arguments toLowerCase : simpl never.

(** The verdict once a receipt is at hand and a log is chosen and decoded. *)
Lemma Blockchain_verifyPayment_cases (rpc : Rpc) (tx eR : string) (eA : Z) (n : Network) :
  let p := rpc (rpcUrl (NETWORKS n)) in
  let vp := Blockchain.verifyPayment rpc tx eR eA n in
  match getTransactionReceipt p tx with
  | None => vp = throw TransactionNotFound
  | Some r =>
      if status_is_0 r then vp = throw TransactionFailed
      else
        match List.find is_transfer (logs r) with
        | None => vp = throw TransferEventNotFound
        | Some l =>
            match decode l with
            | inl e => vp = inl e
            | inr (recipient, amount) =>
                if negb (String.eqb (toLowerCase recipient) (toLowerCase eR))
                then vp = throw RecipientMismatch
                else if amount <? eA then vp = throw AmountMismatch
                else
                  match ethers.formatUnits amount (decimals (stablecoin (NETWORKS n))) with
                  | inl e => vp = inl e
                  | inr formatted =>
                      vp = ret {| Blockchain.verified := true;
                                  Blockchain.txHash := tx;
                                  Blockchain.recipient := recipient;
                                  Blockchain.amount := formatted;
                                  Blockchain.blockNumber := blockNumber r;
                                  Blockchain.confirmations := getBlockNumber p - blockNumber r |}
                  end
            end
        end
  end.
Proof.
  cbv zeta. unfold Blockchain.verifyPayment, decode, bind.
  destruct (getTransactionReceipt _ tx) as [r|]; [|reflexivity].
  destruct (status_is_0 r); [reflexivity|].
  destruct (List.find is_transfer (logs r)) as [l|]; [|reflexivity].
  destruct (topic2_slice26 l) as [e|tail]; [reflexivity|].
  destruct (ethers.getAddress _) as [e|recipient]; [reflexivity|].
  destruct (BigInt _) as [e|amount]; [reflexivity|].
  unfold ret at 1.
  destruct (negb _); [reflexivity|].
  destruct (amount <? eA); [reflexivity|].
  destruct (ethers.formatUnits _ _); reflexivity.
Qed.

Lemma Security_verifyPayment_cases (rpc : Rpc) (tx eR : string) (eA : Z) (n : Network) :
  let p := rpc (rpcUrl (NETWORKS n)) in
  let vp := Security.verifyPayment rpc tx eR eA n in
  match getTransactionReceipt p tx with
  | None => vp = throw TransactionFailed
  | Some r =>
      if status_is_0 r then vp = throw TransactionFailed
      else
        match List.find is_transfer (logs r) with
        | None => vp = throw TransferEventNotFound
        | Some l =>
            match decode l with
            | inl e => vp = inl e
            | inr (recipient, amount) =>
                if negb (String.eqb (toLowerCase recipient) (toLowerCase eR))
                then vp = throw RecipientMismatch
                else if amount <? eA then vp = throw AmountMismatch
                else vp = ret true
            end
        end
  end.
Proof.
  cbv zeta. unfold Security.verifyPayment, decode, bind.
  destruct (getTransactionReceipt _ tx) as [r|]; [|reflexivity].
  destruct (status_is_0 r); [reflexivity|].
  destruct (List.find is_transfer (logs r)) as [l|]; [|reflexivity].
  destruct (topic2_slice26 l) as [e|tail]; [reflexivity|].
  destruct (ethers.getAddress _) as [e|recipient]; [reflexivity|].
  destruct (BigInt _) as [e|amount]; [reflexivity|].
  unfold ret at 1.
  destruct (negb _); [reflexivity|].
  destruct (amount <? eA); reflexivity.
Qed.

(** [verifyPayment] reads one receipt and the latest block number of one
    endpoint and nothing else. *)
Lemma Blockchain_verifyPayment_serving (rpc : Rpc) (tx eR : string) (eA : Z) (n : Network) :
  Blockchain.verifyPayment rpc tx eR eA n
  = Blockchain.verifyPayment
      (serving (getTransactionReceipt (rpc (rpcUrl (NETWORKS n))) tx)
               (getBlockNumber (rpc (rpcUrl (NETWORKS n))))) tx eR eA n.
Proof. reflexivity. Qed.

Lemma Security_verifyPayment_serving (rpc : Rpc) (tx eR : string) (eA : Z) (n : Network) :
  Security.verifyPayment rpc tx eR eA n
  = Security.verifyPayment
      (serving (getTransactionReceipt (rpc (rpcUrl (NETWORKS n))) tx)
               (getBlockNumber (rpc (rpcUrl (NETWORKS n))))) tx eR eA n.
Proof. reflexivity. Qed.

Lemma find_none_iff {A : Type} (p : A -> bool) (l : list A) :
  List.find p l = None <-> Forall (fun x => p x = false) l.
Proof.
  induction l as [|a l IH]; simpl.
  - split; [constructor|reflexivity].
  - destruct (p a) eqn:Ha.
    + split; [discriminate|]. intros H. inversion H; congruence.
    + rewrite IH. split; [constructor; assumption|]. intros H. inversion H; assumption.
Qed.


(** ** Missing and failed receipts *)

(** In the copy of docs/BLOCKCHAIN.md a missing receipt and only a missing
    receipt is "Transaction not found". *)
Lemma Blockchain_TransactionNotFound_iff (rpc : Rpc) (tx eR : string) (eA : Z) (n : Network) :
  Blockchain.verifyPayment rpc tx eR eA n = throw TransactionNotFound
  <-> getTransactionReceipt (rpc (rpcUrl (NETWORKS n))) tx = None.
Proof.
  pose proof (Blockchain_verifyPayment_cases rpc tx eR eA n) as H. cbv zeta in H.
  destruct (getTransactionReceipt _ tx) as [r|]; [|tauto].
  split; [|discriminate]. intros Hvp. exfalso.
  destruct (status_is_0 r); [other_error|].
  destruct (List.find _ _) as [l|]; [|other_error].
  destruct (decode l) as [e|[recipient amount]] eqn:Hd; [other_error|].
  destruct (negb _); [other_error|].
  destruct (amount <? eA); [other_error|].
  destruct (ethers.formatUnits _ _) eqn:Hf; other_error.
Qed.

(** There, a receipt whose status is 0 and only such a receipt is
    "Transaction failed". *)
Lemma Blockchain_TransactionFailed_iff (rpc : Rpc) (tx eR : string) (eA : Z) (n : Network) :
  Blockchain.verifyPayment rpc tx eR eA n = throw TransactionFailed
  <-> exists r, getTransactionReceipt (rpc (rpcUrl (NETWORKS n))) tx = Some r
                /\ status r = Some 0.
Proof.
  pose proof (Blockchain_verifyPayment_cases rpc tx eR eA n) as H. cbv zeta in H.
  destruct (getTransactionReceipt _ tx) as [r|].
  2:{ split; [other_error|]. intros (r & Hr & _). discriminate. }
  assert (status_is_0 r = true <-> status r = Some 0) as Hstatus.
  { unfold status_is_0. destruct (status r) as [s|]; [|split; discriminate].
    destruct (Z.eqb_spec s 0) as [->|Hne]; split; congruence. }
  destruct (status_is_0 r).
  - split; [|auto]. intros _. exists r. split; [reflexivity|tauto].
  - split.
    + intros Hvp. exfalso.
      destruct (List.find _ _) as [l|]; [|other_error].
      destruct (decode l) as [e|[recipient amount]] eqn:Hd; [other_error|].
      destruct (negb _); [other_error|].
      destruct (amount <? eA); [other_error|].
      destruct (ethers.formatUnits _ _) eqn:Hf; other_error.
    + intros (r' & [= <-] & Hr'). apply Hstatus in Hr'. discriminate.
Qed.

(** The copy of docs/SECURITY.md never reports "Transaction not found". *)
Lemma Security_never_TransactionNotFound (rpc : Rpc) (tx eR : string) (eA : Z) (n : Network) :
  Security.verifyPayment rpc tx eR eA n <> throw TransactionNotFound.
Proof.
  pose proof (Security_verifyPayment_cases rpc tx eR eA n) as H. cbv zeta in H.
  intros Hvp.
  destruct (getTransactionReceipt _ tx) as [r|]; [|other_error].
  destruct (status_is_0 r); [other_error|].
  destruct (List.find _ _) as [l|]; [|other_error].
  destruct (decode l) as [e|[recipient amount]] eqn:Hd; [other_error|].
  destruct (negb _); [other_error|].
  destruct (amount <? eA); other_error.
Qed.

(** There, "Transaction failed" stands for a missing receipt as well as for
    a receipt whose status is 0. *)
Lemma Security_TransactionFailed_iff (rpc : Rpc) (tx eR : string) (eA : Z) (n : Network) :
  Security.verifyPayment rpc tx eR eA n = throw TransactionFailed
  <-> getTransactionReceipt (rpc (rpcUrl (NETWORKS n))) tx = None
      \/ exists r, getTransactionReceipt (rpc (rpcUrl (NETWORKS n))) tx = Some r
                   /\ status r = Some 0.
Proof.
  pose proof (Security_verifyPayment_cases rpc tx eR eA n) as H. cbv zeta in H.
  destruct (getTransactionReceipt _ tx) as [r|]; [|tauto].
  assert (status_is_0 r = true <-> status r = Some 0) as Hstatus.
  { unfold status_is_0. destruct (status r) as [s|]; [|split; discriminate].
    destruct (Z.eqb_spec s 0) as [->|Hne]; split; congruence. }
  destruct (status_is_0 r).
  - split; [|auto]. intros _. right. exists r. split; [reflexivity|tauto].
  - split.
    + intros Hvp. exfalso.
      destruct (List.find _ _) as [l|]; [|other_error].
      destruct (decode l) as [e|[recipient amount]] eqn:Hd; [other_error|].
      destruct (negb _); [other_error|].
      destruct (amount <? eA); other_error.
    + intros [Hnone|(r' & [= <-] & Hr')]; [discriminate|].
      apply Hstatus in Hr'. discriminate.
Qed.

(** C4 (the defect): in the copy of docs/SECURITY.md a missing receipt is
    reported as "Transaction failed", the same error as a receipt whose
    status is 0, where the copy of docs/BLOCKCHAIN.md reports "Transaction
    not found" for the first and "Transaction failed" for the second. *)
Theorem Security_verifyPayment_coalesces_missing_receipt :
  Security.verifyPayment (serving None 12) "0xabc" merchant 100000000 base
  = throw TransactionFailed
  /\ Security.verifyPayment
       (serving (Some {| status := Some 0; logs := []; blockNumber := 10 |}) 12)
       "0xabc" merchant 100000000 base
     = throw TransactionFailed
  /\ Blockchain.verifyPayment (serving None 12) "0xabc" merchant 100000000 base
     = throw TransactionNotFound
  /\ Blockchain.verifyPayment
       (serving (Some {| status := Some 0; logs := []; blockNumber := 10 |}) 12)
       "0xabc" merchant 100000000 base
     = throw TransactionFailed.
Proof. conjuncts; vm_compute; reflexivity. Qed.

(** ** The emitting contract of the log *)

Lemma find_readdress (f : Log -> string) (ls : list Log) :
  List.find is_transfer (List.map (readdress_log f) ls)
  = option_map (readdress_log f) (List.find is_transfer ls).
Proof.
  induction ls as [|l ls IH]; simpl; [reflexivity|].
  change (is_transfer (readdress_log f l)) with (is_transfer l).
  destruct (is_transfer l); [reflexivity|exact IH].
Qed.

Lemma Blockchain_verifyPayment_readdress (f : Log -> string) (rpc : Rpc)
    (tx eR : string) (eA : Z) (n : Network) :
  Blockchain.verifyPayment (readdress f rpc) tx eR eA n
  = Blockchain.verifyPayment rpc tx eR eA n.
Proof.
  unfold Blockchain.verifyPayment, readdress. cbn [getTransactionReceipt getBlockNumber].
  destruct (getTransactionReceipt _ tx) as [r|]; [|reflexivity].
  cbn [option_map].
  change (status_is_0 (readdress_receipt f r)) with (status_is_0 r).
  destruct (status_is_0 r); [reflexivity|].
  cbn [readdress_receipt logs blockNumber]. rewrite find_readdress.
  destruct (List.find is_transfer (logs r)) as [l|]; reflexivity.
Qed.

Lemma Security_verifyPayment_readdress (f : Log -> string) (rpc : Rpc)
    (tx eR : string) (eA : Z) (n : Network) :
  Security.verifyPayment (readdress f rpc) tx eR eA n
  = Security.verifyPayment rpc tx eR eA n.
Proof.
  unfold Security.verifyPayment, readdress. cbn [getTransactionReceipt getBlockNumber].
  destruct (getTransactionReceipt _ tx) as [r|]; [|reflexivity].
  cbn [option_map].
  change (status_is_0 (readdress_receipt f r)) with (status_is_0 r).
  destruct (status_is_0 r); [reflexivity|].
  cbn [readdress_receipt logs blockNumber]. rewrite find_readdress.
  destruct (List.find is_transfer (logs r)) as [l|]; reflexivity.
Qed.

Lemma Blockchain_TransferEventNotFound_iff (rpc : Rpc) (tx eR : string) (eA : Z) (n : Network) :
  Blockchain.verifyPayment rpc tx eR eA n = throw TransferEventNotFound
  <-> exists r, getTransactionReceipt (rpc (rpcUrl (NETWORKS n))) tx = Some r
                /\ status_is_0 r = false
                /\ Forall (fun l => is_transfer l = false) (logs r).
Proof.
  pose proof (Blockchain_verifyPayment_cases rpc tx eR eA n) as H. cbv zeta in H.
  destruct (getTransactionReceipt _ tx) as [r|].
  2:{ split; [other_error|]. intros (r & Hr & _). discriminate. }
  destruct (status_is_0 r) eqn:Hs.
  { split; [other_error|]. intros (r' & [= <-] & Hs' & _). congruence. }
  destruct (List.find _ _) as [l|] eqn:Hfind.
  - split.
    + intros Hvp. exfalso.
      destruct (decode l) as [e|[recipient amount]] eqn:Hd; [other_error|].
      destruct (negb _); [other_error|].
      destruct (amount <? eA); [other_error|].
      destruct (ethers.formatUnits _ _) eqn:Hf; other_error.
    + intros (r' & [= <-] & _ & Hall). apply find_none_iff in Hall. congruence.
  - split; [|auto]. intros _. exists r. rewrite <- find_none_iff. auto.
Qed.

Lemma Security_TransferEventNotFound_iff (rpc : Rpc) (tx eR : string) (eA : Z) (n : Network) :
  Security.verifyPayment rpc tx eR eA n = throw TransferEventNotFound
  <-> exists r, getTransactionReceipt (rpc (rpcUrl (NETWORKS n))) tx = Some r
                /\ status_is_0 r = false
                /\ Forall (fun l => is_transfer l = false) (logs r).
Proof.
  pose proof (Security_verifyPayment_cases rpc tx eR eA n) as H. cbv zeta in H.
  destruct (getTransactionReceipt _ tx) as [r|].
  2:{ split; [other_error|]. intros (r & Hr & _). discriminate. }
  destruct (status_is_0 r) eqn:Hs.
  { split; [other_error|]. intros (r' & [= <-] & Hs' & _). congruence. }
  destruct (List.find _ _) as [l|] eqn:Hfind.
  - split.
    + intros Hvp. exfalso.
      destruct (decode l) as [e|[recipient amount]] eqn:Hd; [other_error|].
      destruct (negb _); [other_error|].
      destruct (amount <? eA); other_error.
    + intros (r' & [= <-] & _ & Hall). apply find_none_iff in Hall. congruence.
  - split; [|auto]. intros _. exists r. rewrite <- find_none_iff. auto.
Qed.

(** C1 (as stated, refuted): a receipt on base whose only Transfer log was
    emitted by a contract other than the configured USDC contract, paying
    the invoice's recipient the expected amount, is accepted by both copies
    of [verifyPayment]; it is not rejected with "Transfer event not found". *)
Lemma verifyPayment_accepts_log_of_other_contract :
  let receipt := receipt_of [transfer_log other_contract merchant_topic word_100_000_000] in
  Forall (fun l => toLowerCase (address l)
                   <> toLowerCase (coin_address (stablecoin (NETWORKS base))))
         (logs receipt)
  /\ Blockchain.verifyPayment (serving (Some receipt) 12) "0xabc" merchant 100000000 base
     = ret {| Blockchain.verified := true;
              Blockchain.txHash := "0xabc";
              Blockchain.recipient := merchant;
              Blockchain.amount := "100.0";
              Blockchain.blockNumber := 10;
              Blockchain.confirmations := 2 |}
  /\ Security.verifyPayment (serving (Some receipt) 12) "0xabc" merchant 100000000 base
     = ret true
  /\ Blockchain.verifyPayment (serving (Some receipt) 12) "0xabc" merchant 100000000 base
     <> throw TransferEventNotFound.
Proof.
  cbv zeta. conjuncts.
  - constructor; [|constructor]. vm_compute. discriminate.
  - vm_compute. reflexivity.
  - vm_compute. reflexivity.
  - vm_compute. discriminate.
Qed.

(** C1 (amended): [verifyPayment] never reads the emitting address of a log.
    Replacing the address of every log by any other leaves the result of
    both copies unchanged, and "Transfer event not found" is thrown exactly
    when the receipt is there, its status is not 0 and no log has the
    Transfer signature as [topics[0]], whichever contracts emitted the
    logs. *)
Theorem verifyPayment_ignores_log_address (f : Log -> string) (rpc : Rpc)
    (tx eR : string) (eA : Z) (n : Network) :
  Blockchain.verifyPayment (readdress f rpc) tx eR eA n
  = Blockchain.verifyPayment rpc tx eR eA n
  /\ Security.verifyPayment (readdress f rpc) tx eR eA n
     = Security.verifyPayment rpc tx eR eA n
  /\ (Blockchain.verifyPayment rpc tx eR eA n = throw TransferEventNotFound
      <-> exists r, getTransactionReceipt (rpc (rpcUrl (NETWORKS n))) tx = Some r
                    /\ status_is_0 r = false
                    /\ Forall (fun l => is_transfer l = false) (logs r))
  /\ (Security.verifyPayment rpc tx eR eA n = throw TransferEventNotFound
      <-> exists r, getTransactionReceipt (rpc (rpcUrl (NETWORKS n))) tx = Some r
                    /\ status_is_0 r = false
                    /\ Forall (fun l => is_transfer l = false) (logs r)).
Proof.
  split; [apply Blockchain_verifyPayment_readdress|].
  split; [apply Security_verifyPayment_readdress|].
  split; [apply Blockchain_TransferEventNotFound_iff|apply Security_TransferEventNotFound_iff].
Qed.

(** ** The decode step on malformed logs *)

Lemma decode_short_topics (l : Log) :
  (List.length (topics l) < 3)%nat -> decode l = throw TypeError.
Proof.
  intros Hlen. unfold decode, topic2_slice26.
  destruct (nth_error (topics l) 2) as [t|] eqn:Ht; [|reflexivity].
  assert (nth_error (topics l) 2 <> None) as Hn by congruence.
  apply nth_error_Some in Hn. lia.
Qed.

Lemma decode_bad_data (l : Log) (t recipient : string) :
  nth_error (topics l) 2 = Some t ->
  ethers.getAddress ("0x" +:+ slice 26 t) = ret recipient ->
  BigInt (data l) = throw SyntaxError ->
  decode l = throw SyntaxError.
Proof.
  intros Ht Ha Hb. unfold decode, topic2_slice26, bind.
  rewrite Ht. unfold ret at 1. rewrite Ha. unfold ret at 1. rewrite Hb. reflexivity.
Qed.

Lemma verifyPayment_decode_error (head : Z) (tx eR : string) (eA : Z) (n : Network)
    (r : TransactionReceipt) (l : Log) (e : Thrown) :
  status_is_0 r = false ->
  List.find is_transfer (logs r) = Some l ->
  decode l = inl e ->
  Blockchain.verifyPayment (serving (Some r) head) tx eR eA n = inl e
  /\ Security.verifyPayment (serving (Some r) head) tx eR eA n = inl e.
Proof.
  intros Hs Hfind Hd.
  pose proof (Blockchain_verifyPayment_cases (serving (Some r) head) tx eR eA n) as HB.
  pose proof (Security_verifyPayment_cases (serving (Some r) head) tx eR eA n) as HS.
  cbv zeta in HB, HS. cbn [serving getTransactionReceipt] in HB, HS.
  rewrite Hs, Hfind, Hd in HB, HS. auto.
Qed.

(** C7 (as stated, refuted): a successful receipt whose only log carries the
    Transfer signature as [topics[0]] and no further topic makes both copies
    of [verifyPayment] throw a TypeError, not "Transfer event not found";
    and a log with the signature, a recipient topic and the empty data "0x"
    (the shape of an ERC-721 transfer) makes them throw a SyntaxError. *)
Lemma verifyPayment_throws_on_malformed_log :
  let short := {| address := usdc; topics := [transferTopic]; data := word_100_000_000 |} in
  let nodata := {| address := usdc;
                   topics := [transferTopic; payer_topic; merchant_topic; word_100_000_000];
                   data := "0x" |} in
  Blockchain.verifyPayment (serving (Some (receipt_of [short])) 12) "0xabc" merchant 100000000 base
  = throw TypeError
  /\ Security.verifyPayment (serving (Some (receipt_of [short])) 12) "0xabc" merchant 100000000 base
     = throw TypeError
  /\ Blockchain.verifyPayment (serving (Some (receipt_of [nodata])) 12) "0xabc" merchant 100000000 base
     = throw SyntaxError
  /\ Security.verifyPayment (serving (Some (receipt_of [nodata])) 12) "0xabc" merchant 100000000 base
     = throw SyntaxError
  /\ Blockchain.verifyPayment (serving (Some (receipt_of [short])) 12) "0xabc" merchant 100000000 base
     <> throw TransferEventNotFound.
Proof.
  cbv zeta. conjuncts; try (vm_compute; reflexivity). vm_compute. discriminate.
Qed.

(** C7 (amended): the decode step checks neither the number of topics nor the
    data.  When the first log with the Transfer signature has fewer than
    three topics, both copies of [verifyPayment] throw a TypeError; when its
    [topics[2]] yields an address but its data is no integer literal, they
    throw a SyntaxError; in neither case, nor in any other once such a log is
    found, is the error "Transfer event not found". *)
Theorem verifyPayment_decode_not_validated (head : Z) (tx eR : string) (eA : Z)
    (n : Network) (r : TransactionReceipt) (l : Log) :
  status_is_0 r = false ->
  List.find is_transfer (logs r) = Some l ->
  ((List.length (topics l) < 3)%nat ->
     Blockchain.verifyPayment (serving (Some r) head) tx eR eA n = throw TypeError
     /\ Security.verifyPayment (serving (Some r) head) tx eR eA n = throw TypeError)
  /\ (forall t recipient,
         nth_error (topics l) 2 = Some t ->
         ethers.getAddress ("0x" +:+ slice 26 t) = ret recipient ->
         BigInt (data l) = throw SyntaxError ->
         Blockchain.verifyPayment (serving (Some r) head) tx eR eA n = throw SyntaxError
         /\ Security.verifyPayment (serving (Some r) head) tx eR eA n = throw SyntaxError)
  /\ Blockchain.verifyPayment (serving (Some r) head) tx eR eA n <> throw TransferEventNotFound
  /\ Security.verifyPayment (serving (Some r) head) tx eR eA n <> throw TransferEventNotFound.
Proof.
  intros Hs Hfind. split; [|split; [|split]].
  - intros Hlen. apply verifyPayment_decode_error with (l := l); auto.
    apply decode_short_topics; assumption.
  - intros t recipient Ht Ha Hb. apply verifyPayment_decode_error with (l := l); auto.
    eapply decode_bad_data; eassumption.
  - rewrite Blockchain_TransferEventNotFound_iff. cbn [serving getTransactionReceipt].
    intros (r' & [= <-] & _ & Hall). apply find_none_iff in Hall. congruence.
  - rewrite Security_TransferEventNotFound_iff. cbn [serving getTransactionReceipt].
    intros (r' & [= <-] & _ & Hall). apply find_none_iff in Hall. congruence.
Qed.

Lemma verifyPayment_decode_not_validated_witness :
  let short := {| address := usdc; topics := [transferTopic]; data := word_100_000_000 |} in
  Blockchain.verifyPayment (serving (Some (receipt_of [short])) 12) "0xabc" merchant 100000000 base
  = throw TypeError
  /\ Security.verifyPayment (serving (Some (receipt_of [short])) 12) "0xabc" merchant 100000000 base
     = throw TypeError.
Proof.
  cbv zeta.
  apply (verifyPayment_decode_not_validated 12 "0xabc" merchant 100000000 base
           (receipt_of [ {| address := usdc; topics := [transferTopic]; data := word_100_000_000 |} ])
           {| address := usdc; topics := [transferTopic]; data := word_100_000_000 |}).
  - reflexivity.
  - vm_compute. reflexivity.
  - simpl. lia.
Defined.

(** ** Which log decides *)



(** The scenario of C9: the first Transfer log pays a stranger, a later one
    pays the merchant the expected amount; the receipt is rejected, although
    the later log alone is accepted. *)
Example first_log_mismatch_later_match :
  let bad := transfer_log usdc stranger_topic word_100_000_000 in
  let good := transfer_log usdc merchant_topic word_100_000_000 in
  Blockchain.verifyPayment (serving (Some (receipt_of [bad; good])) 12)
    "0xabc" merchant 100000000 base = throw RecipientMismatch
  /\ Security.verifyPayment (serving (Some (receipt_of [bad; good])) 12)
       "0xabc" merchant 100000000 base = throw RecipientMismatch
  /\ Security.verifyPayment (serving (Some (receipt_of [good])) 12)
       "0xabc" merchant 100000000 base = ret true
  /\ Security.verifyPayment (serving (Some (receipt_of [good; bad])) 12)
       "0xabc" merchant 100000000 base = ret true.
Proof. cbv zeta. conjuncts; vm_compute; reflexivity. Qed.

(** ** The sender of the transfer *)






(** ** The amount check *)

(** C5 (the defect): an overpayment is not always accepted.  A Transfer log
    whose data field holds 2^511, far above the 100_000_000 expected,
    passes the amount check of both copies; the copy of docs/SECURITY.md
    returns true, but the copy of docs/BLOCKCHAIN.md then formats the amount
    with ethers, whose fixed format is 512 bits wide and signed, and the
    call throws a numeric fault instead of returning the verified record. *)
Lemma verifyPayment_overpayment_overflows :
  let overpaid := transfer_log usdc merchant_topic word_2_511 in
  decode overpaid = ret (merchant, 2 ^ 511)
  /\ 100000000 <= 2 ^ 511
  /\ Blockchain.verifyPayment (serving (Some (receipt_of [overpaid])) 12)
       "0xabc" merchant 100000000 base = throw NumericFault
  /\ Security.verifyPayment (serving (Some (receipt_of [overpaid])) 12)
       "0xabc" merchant 100000000 base = ret true.
Proof. cbv zeta. conjuncts; vm_compute; first [reflexivity | discriminate]. Qed.

(** X26: the amount check in general.  Once the first Transfer log is
    decoded and its recipient is the expected one (compared in lower case),
    "Amount mismatch" is thrown if and only if the decoded amount is
    strictly below the expected amount, in both copies of
    [verifyPayment].  An amount equal to or above
    the expected one is accepted by the copy of docs/SECURITY.md, which
    returns true, and by the copy of docs/BLOCKCHAIN.md, which returns the
    verified record, as long as the amount fits the signed 512-bit format
    in which ethers formats it (every uint256 does); an amount beyond that
    format makes the copy of docs/BLOCKCHAIN.md throw a numeric fault. *)
Theorem verifyPayment_amount_check (head : Z) (tx eR : string) (eA : Z)
    (n : Network) (r : TransactionReceipt) (l : Log) (recipient : string) (amount : Z) :
  status_is_0 r = false ->
  List.find is_transfer (logs r) = Some l ->
  decode l = ret (recipient, amount) ->
  toLowerCase recipient = toLowerCase eR ->
  (Blockchain.verifyPayment (serving (Some r) head) tx eR eA n = throw AmountMismatch
   <-> amount < eA)
  /\ (Security.verifyPayment (serving (Some r) head) tx eR eA n = throw AmountMismatch
      <-> amount < eA)
  /\ (eA <= amount ->
      Security.verifyPayment (serving (Some r) head) tx eR eA n = ret true)
  /\ (eA <= amount -> - 2 ^ 511 <= amount < 2 ^ 511 ->
      Blockchain.verifyPayment (serving (Some r) head) tx eR eA n
      = ret {| Blockchain.verified := true;
               Blockchain.txHash := tx;
               Blockchain.recipient := recipient;
               Blockchain.amount :=
                 ethers.fixed_toString amount (decimals (stablecoin (NETWORKS n)));
               Blockchain.blockNumber := blockNumber r;
               Blockchain.confirmations := head - blockNumber r |})
  /\ (eA <= amount -> ~ (- 2 ^ 511 <= amount < 2 ^ 511) ->
      Blockchain.verifyPayment (serving (Some r) head) tx eR eA n = throw NumericFault).
Proof.
  intros Hs Hfind Hd Hrec.
  pose proof (Blockchain_verifyPayment_cases (serving (Some r) head) tx eR eA n) as HB.
  pose proof (Security_verifyPayment_cases (serving (Some r) head) tx eR eA n) as HS.
  cbv zeta in HB, HS. cbn [serving getTransactionReceipt getBlockNumber] in HB, HS.
  unfold ret in Hd. rewrite Hs, Hfind, Hd, Hrec, String.eqb_refl in HB, HS.
  cbn [negb] in HB, HS.
  destruct (Z.ltb_spec amount eA) as [Hlt|Hge].
  - conjuncts; try tauto; intros; lia.
  - conjuncts.
    + split; [|lia]. intros Hvp.
      destruct (ethers.formatUnits _ _) eqn:Hf; other_error.
    + split; [|lia]. intros Hvp. other_error.
    + intros _. exact HS.
    + intros _ Hrange. rewrite (formatUnits_in_range _ _ Hrange) in HB. exact HB.
    + intros _ Hout.
      assert (ethers.formatUnits amount (decimals (stablecoin (NETWORKS n)))
              = throw NumericFault) as Hf.
      { unfold ethers.formatUnits, ethers.checkValue.
        destruct (Z.leb_spec (- 2 ^ 511) amount);
          destruct (Z.ltb_spec amount (2 ^ 511)); try reflexivity; lia. }
      rewrite Hf in HB. exact HB.
Qed.

Lemma verifyPayment_amount_check_witness :
  (Blockchain.verifyPayment
     (serving (Some (receipt_of [transfer_log usdc merchant_topic word_100_000_000])) 12)
     "0xabc" merchant 100000000 base = throw AmountMismatch
   <-> 100000000 < 100000000)
  /\ (Security.verifyPayment
        (serving (Some (receipt_of [transfer_log usdc merchant_topic word_100_000_000])) 12)
        "0xabc" merchant 100000000 base = throw AmountMismatch
      <-> 100000000 < 100000000)
  /\ (100000000 <= 100000000 ->
      Security.verifyPayment
        (serving (Some (receipt_of [transfer_log usdc merchant_topic word_100_000_000])) 12)
        "0xabc" merchant 100000000 base = ret true)
  /\ (100000000 <= 100000000 -> - 2 ^ 511 <= 100000000 < 2 ^ 511 ->
      Blockchain.verifyPayment
        (serving (Some (receipt_of [transfer_log usdc merchant_topic word_100_000_000])) 12)
        "0xabc" merchant 100000000 base
      = ret {| Blockchain.verified := true;
               Blockchain.txHash := "0xabc";
               Blockchain.recipient := merchant;
               Blockchain.amount := ethers.fixed_toString 100000000 6;
               Blockchain.blockNumber := 10;
               Blockchain.confirmations := 12 - 10 |})
  /\ (100000000 <= 100000000 -> ~ (- 2 ^ 511 <= 100000000 < 2 ^ 511) ->
      Blockchain.verifyPayment
        (serving (Some (receipt_of [transfer_log usdc merchant_topic word_100_000_000])) 12)
        "0xabc" merchant 100000000 base = throw NumericFault).
Proof.
  apply (verifyPayment_amount_check 12 "0xabc" merchant 100000000 base
           (receipt_of [transfer_log usdc merchant_topic word_100_000_000])
           (transfer_log usdc merchant_topic word_100_000_000) merchant 100000000).
  - reflexivity.
  - vm_compute. reflexivity.
  - vm_compute. reflexivity.
  - vm_compute. reflexivity.
Defined.

(** The boundary of C5 on base, expected amount 100_000_000: the exact
    amount passes, one unit below is "Amount mismatch", twice the amount
    passes. *)
Example amount_boundary :
  let pay word := serving (Some (receipt_of [transfer_log usdc merchant_topic word])) 12 in
  Security.verifyPayment (pay word_100_000_000) "0xabc" merchant 100000000 base = ret true
  /\ Security.verifyPayment (pay word_99_999_999) "0xabc" merchant 100000000 base
     = throw AmountMismatch
  /\ Blockchain.verifyPayment (pay word_99_999_999) "0xabc" merchant 100000000 base
     = throw AmountMismatch
  /\ Blockchain.verifyPayment (pay "0x000000000000000000000000000000000000000000000000000000000bebc200")
       "0xabc" merchant 100000000 base
     = ret {| Blockchain.verified := true;
              Blockchain.txHash := "0xabc";
              Blockchain.recipient := merchant;
              Blockchain.amount := "200.0";
              Blockchain.blockNumber := 10;
              Blockchain.confirmations := 2 |}.
Proof. cbv zeta. conjuncts; vm_compute; reflexivity. Qed.

(** ** The conversion to the smallest unit *)

Lemma digit_char (n : Z) :
  0 <= n < 10 -> is_digit (chr (48 + n)) = true /\ digit_value (chr (48 + n)) = n.
Proof.
  intros Hn. rewrite <- (Z2Nat.id n) by lia.
  assert (Z.to_nat n < 10)%nat as Hk by lia.
  revert Hk. generalize (Z.to_nat n) as k. intros k Hk.
  do 10 (destruct k as [|k]; [split; reflexivity|]).
  lia.
Qed.

Lemma render_digits_all_digits (fuel : nat) (n : Z) (acc : string) :
  0 <= n ->
  forall_string is_digit (render_digits fuel n acc) = forall_string is_digit acc.
Proof.
  revert n acc. induction fuel as [|f IH]; intros n acc Hn; [reflexivity|].
  assert (is_digit (chr (48 + n mod 10)) = true) as Hd
      by (apply digit_char; apply Z.mod_pos_bound; lia).
  cbn [render_digits]. destruct (n <? 10).
  - cbn [forall_string]. rewrite Hd. reflexivity.
  - rewrite IH by (apply Z.div_pos; lia). cbn [forall_string]. rewrite Hd. reflexivity.
Qed.

Lemma render_digits_length (fuel : nat) (n : Z) (acc : string) :
  (String.length acc <= String.length (render_digits fuel n acc))%nat.
Proof.
  revert n acc. induction fuel as [|f IH]; intros n acc; [reflexivity|].
  cbn [render_digits]. destruct (n <? 10).
  - cbn [String.length]. lia.
  - etransitivity; [|apply IH]. cbn [String.length]. lia.
Qed.

Lemma render_digits_value (fuel : nat) (n : Z) (acc : string) :
  0 <= n < 2 ^ Z.of_nat fuel ->
  digits_value 10 0 (render_digits fuel n acc) = digits_value 10 n acc.
Proof.
  revert n acc. induction fuel as [|f IH]; intros n acc Hn.
  - change (2 ^ Z.of_nat 0) with 1 in Hn. assert (n = 0) as -> by lia. reflexivity.
  - assert (digit_value (chr (48 + n mod 10)) = n mod 10) as Hd
        by (apply digit_char; apply Z.mod_pos_bound; lia).
    cbn [render_digits]. destruct (Z.ltb_spec n 10) as [Hlt|Hge].
    + cbn [digits_value]. rewrite Hd, Z.mod_small by lia. f_equal.
    + rewrite IH.
      * cbn [digits_value]. rewrite Hd. f_equal.
        pose proof (Z.div_mod n 10). lia.
      * rewrite Nat2Z.inj_succ, Z.pow_succ_r in Hn by lia.
        split; [apply Z.div_pos; lia|].
        apply Z.div_lt_upper_bound; lia.
Qed.

Lemma render_spec (n : Z) :
  0 <= n ->
  forall_string is_digit (render n) = true
  /\ (0 < String.length (render n))%nat
  /\ digits_value 10 0 (render n) = n.
Proof.
  intros Hn. unfold render. split; [|split].
  - rewrite render_digits_all_digits by assumption. reflexivity.
  - cbn [render_digits]. destruct (n <? 10).
    + cbn [String.length]. lia.
    + eapply Nat.lt_le_trans; [|apply render_digits_length]. cbn [String.length]. lia.
  - rewrite render_digits_value; [reflexivity|].
    split; [assumption|].
    destruct (Z.eq_dec n 0) as [->|Hne]; [reflexivity|].
    rewrite Nat2Z.inj_succ, Z2Nat.id by apply Z.log2_nonneg.
    apply Z.log2_spec. lia.
Qed.

Lemma span_all (p : ascii -> bool) (s : string) :
  forall_string p s = true -> ethers.span p s = (s, EmptyString).
Proof.
  induction s as [|c s IH]; cbn [forall_string ethers.span]; [reflexivity|].
  intros [Hc Hs]%andb_prop. rewrite Hc, IH by assumption. reflexivity.
Qed.

Lemma is_digit_code (c : ascii) : is_digit c = true -> 48 <= code c <= 57.
Proof. unfold is_digit, in_range. lia. Qed.

Lemma match_fixed_digits (s : string) :
  forall_string is_digit s = true ->
  ethers.match_fixed s = Some (false, s, EmptyString).
Proof.
  intros Hs. unfold ethers.match_fixed.
  destruct s as [|c s'].
  - reflexivity.
  - pose proof Hs as Hs'. cbn [forall_string] in Hs'.
    apply andb_prop in Hs' as [Hc%is_digit_code _].
    destruct (Z.eqb_spec (code c) 45); [lia|].
    rewrite (span_all _ _ Hs). reflexivity.
Qed.

Lemma digits_value_app (radix acc : Z) (s t : string) :
  digits_value radix acc (s +:+ t) = digits_value radix (digits_value radix acc s) t.
Proof.
  revert acc. induction s as [|c s IH]; intros acc; cbn [String.append digits_value];
    [reflexivity|apply IH].
Qed.

Lemma digits_value_zeros (acc : Z) (k : nat) :
  digits_value 10 acc (ethers.zeros k) = acc * 10 ^ Z.of_nat k.
Proof.
  revert acc. induction k as [|k IH]; intros acc.
  - cbn [ethers.zeros digits_value]. change (10 ^ Z.of_nat 0) with 1. lia.
  - cbn [ethers.zeros digits_value]. rewrite IH.
    change (digit_value "0") with 0.
    rewrite Nat2Z.inj_succ, Z.pow_succ_r by lia. lia.
Qed.

Lemma slice_zeros (k : nat) : slice k (ethers.zeros k) = EmptyString.
Proof. induction k as [|k IH]; [reflexivity|exact IH]. Qed.

Lemma substring_zeros (k : nat) : substring 0 k (ethers.zeros k) = ethers.zeros k.
Proof. induction k as [|k IH]; [reflexivity|]. cbn [ethers.zeros substring]. rewrite IH. reflexivity. Qed.

(** A whole number of tokens is scaled by the power of ten of the unit,
    exactly. *)
Lemma parseUnits_whole (n : Z) (d : nat) :
  0 <= n -> n * 10 ^ Z.of_nat d < 2 ^ 511 ->
  ethers.parseUnits (render n) (Some d) = ret (n * 10 ^ Z.of_nat d).
Proof.
  intros Hn Hbound.
  destruct (render_spec n Hn) as (Hdigits & Hlen & Hval).
  unfold ethers.parseUnits.
  change (default 18%nat (Some d)) with d.
  unfold ethers.fromString. rewrite (match_fixed_digits _ Hdigits).
  cbn [String.length]. rewrite Nat.add_0_r.
  destruct (Nat.eqb_spec (String.length (render n)) 0) as [?|_]; [lia|].
  cbn [String.append]. rewrite Nat.sub_0_r, slice_zeros, substring_zeros.
  cbn [forall_string negb].
  assert (match render n with EmptyString => "0" | String _ _ => render n end = render n)
    as -> by (destruct (render n); [cbn [String.length] in Hlen; lia|reflexivity]).
  rewrite digits_value_app, Hval, digits_value_zeros.
  unfold ethers.checkValue.
  assert (0 <= n * 10 ^ Z.of_nat d) by (apply Z.mul_nonneg_nonneg; lia).
  destruct (Z.leb_spec (- 2 ^ 511) (n * 10 ^ Z.of_nat d)); [|lia].
  destruct (Z.ltb_spec (n * 10 ^ Z.of_nat d) (2 ^ 511)); [|lia].
  reflexivity.
Qed.

Lemma append_cons (c : ascii) (s t : string) : String c s +:+ t = String c (s +:+ t).
Proof. reflexivity. Qed.

Lemma append_nil (t : string) : EmptyString +:+ t = t.
Proof. reflexivity. Qed.

Lemma span_stop (p : ascii -> bool) (s : string) (c : ascii) (t : string) :
  forall_string p s = true -> p c = false ->
  ethers.span p (s +:+ String c t) = (s, String c t).
Proof.
  intros Hs Hc. induction s as [|a s IH].
  - rewrite append_nil. cbn [ethers.span]. rewrite Hc. reflexivity.
  - cbn [forall_string] in Hs. apply andb_prop in Hs as [Ha Hs].
    rewrite append_cons. cbn [ethers.span]. rewrite Ha, IH by assumption. reflexivity.
Qed.

Lemma digits_value_shift (acc : Z) (s : string) :
  digits_value 10 acc s
  = acc * 10 ^ Z.of_nat (String.length s) + digits_value 10 0 s.
Proof.
  revert acc. induction s as [|c s IH]; intros acc.
  - cbn [digits_value String.length]. change (10 ^ Z.of_nat 0) with 1. lia.
  - cbn [digits_value String.length].
    rewrite (IH (10 * acc + digit_value c)), (IH (10 * 0 + digit_value c)).
    rewrite Nat2Z.inj_succ, Z.pow_succ_r by lia. lia.
Qed.

Lemma slice_length (s t : string) : slice (String.length s) (s +:+ t) = t.
Proof.
  induction s as [|c s IH]; [rewrite append_nil; destruct t; reflexivity|].
  rewrite append_cons. exact IH.
Qed.

Lemma substring_length (s t : string) : substring 0 (String.length s) (s +:+ t) = s.
Proof.
  induction s as [|c s IH]; [rewrite append_nil; destruct t; reflexivity|].
  rewrite append_cons. cbn [String.length substring]. rewrite IH. reflexivity.
Qed.

Lemma length_append (s t : string) :
  String.length (s +:+ t) = (String.length s + String.length t)%nat.
Proof.
  induction s as [|c s IH]; [reflexivity|].
  rewrite append_cons. cbn [String.length]. rewrite IH. reflexivity.
Qed.

Lemma length_zeros (k : nat) : String.length (ethers.zeros k) = k.
Proof. induction k as [|k IH]; [reflexivity|]. cbn [ethers.zeros String.length]. rewrite IH. reflexivity. Qed.

Lemma append_empty (s : string) : s +:+ EmptyString = s.
Proof.
  induction s as [|c s IH]; [reflexivity|]. rewrite append_cons, IH. reflexivity.
Qed.

(** An amount written with a whole part [w] and fraction digits [f], no
    more of them than the unit has decimals, is converted digit for digit:
    the digits of [w] and [f], then zeros up to the decimal count. *)
Lemma parseUnits_decimal (w : Z) (f : string) (d : nat) :
  0 <= w ->
  forall_string is_digit f = true ->
  (String.length f <= d)%nat ->
  (w * 10 ^ Z.of_nat (String.length f) + digits_value 10 0 f)
    * 10 ^ Z.of_nat (d - String.length f) < 2 ^ 511 ->
  ethers.parseUnits (render w +:+ String "." f) (Some d)
  = ret ((w * 10 ^ Z.of_nat (String.length f) + digits_value 10 0 f)
         * 10 ^ Z.of_nat (d - String.length f)).
Proof.
  intros Hw Hf Hlen Hbound.
  destruct (render_spec w Hw) as (Hdigits & Hwlen & Hval).
  assert (0 <= digits_value 10 0 f) as HF.
  { clear Hlen Hbound. assert (forall acc, 0 <= acc -> 0 <= digits_value 10 acc f) as Hall.
    { induction f as [|c f IH]; intros acc Hacc; cbn [digits_value]; [assumption|].
      cbn [forall_string] in Hf. apply andb_prop in Hf as [Hc Hf].
      apply IH; [assumption|].
      pose proof (is_digit_code c Hc). unfold digit_value. rewrite Hc. lia. }
    apply Hall. lia. }
  unfold ethers.parseUnits. change (default 18%nat (Some d)) with d.
  unfold ethers.fromString, ethers.match_fixed.
  destruct (render w) as [|c s'] eqn:Hr; [cbn [String.length] in Hwlen; lia|].
  rewrite append_cons.
  pose proof Hdigits as Hd'. cbn [forall_string] in Hd'.
  apply andb_prop in Hd' as [Hc%is_digit_code _].
  destruct (Z.eqb_spec (code c) 45); [lia|].
  change (String c (s' +:+ String "." f)) with (String c s' +:+ String "." f).
  rewrite (span_stop is_digit (String c s') "." f Hdigits eq_refl).
  change (code "." =? 46) with true. cbv iota.
  rewrite (span_all _ _ Hf).
  destruct (Nat.eqb_spec (String.length (String c s') + String.length f) 0) as [Hz|_];
    [cbn [String.length] in Hz; lia|].
  set (k := (d - String.length f)%nat) in *.
  assert (d = String.length (f +:+ ethers.zeros k)) as Hd
      by (rewrite length_append, length_zeros; subst k; lia).
  assert (slice d (f +:+ ethers.zeros k) = EmptyString) as ->.
  { rewrite Hd. rewrite <- (append_empty (f +:+ ethers.zeros k)) at 2.
    apply slice_length. }
  assert (substring 0 d (f +:+ ethers.zeros k) = f +:+ ethers.zeros k) as ->.
  { rewrite Hd. rewrite <- (append_empty (f +:+ ethers.zeros k)) at 2.
    apply substring_length. }
  cbn [forall_string negb].
  rewrite !digits_value_app, Hval, digits_value_zeros, (digits_value_shift w f).
  unfold ethers.checkValue.
  assert (0 <= (w * 10 ^ Z.of_nat (String.length f) + digits_value 10 0 f) * 10 ^ Z.of_nat k)
    by (apply Z.mul_nonneg_nonneg; [|lia]; apply Z.add_nonneg_nonneg; [|lia];
        apply Z.mul_nonneg_nonneg; lia).
  destruct (Z.leb_spec (- 2 ^ 511)
              ((w * 10 ^ Z.of_nat (String.length f) + digits_value 10 0 f) * 10 ^ Z.of_nat k));
    [|lia].
  destruct (Z.ltb_spec
              ((w * 10 ^ Z.of_nat (String.length f) + digits_value 10 0 f) * 10 ^ Z.of_nat k)
              (2 ^ 511)); [|lia].
  reflexivity.
Qed.

Example parseUnits_19_99 :
  ethers.parseUnits (render 19 +:+ String "." "99") (Some 6%nat) = ret 19990000.
Proof. vm_compute. reflexivity. Qed.

(** ** The amount as a number *)

(** The text of numbers, as an engine prints them. *)
Example Number_toString_samples :
  Number_toString (Number.of_Z 100) = "100"
  /\ Number_toString tenth = "0.1"
  /\ Number_toString three_tenths = "0.3"
  /\ Number_toString sum_of_two_items = "0.30000000000000004"
  /\ Number_toString (Number.div (Number.of_Z 1999) (Number.of_Z 100)) = "19.99"
  /\ Number_toString (Number.div (Number.of_Z 1) (Number.of_Z 3)) = "0.3333333333333333"
  /\ Number_toString (Number.mul (Number.div (Number.of_Z 11) (Number.of_Z 10))
                                 (Number.div (Number.of_Z 11) (Number.of_Z 10)))
     = "1.2100000000000002"
  /\ Number_toString (Number.of_Z (- 42)) = "-42"
  /\ Number_toString (Number.of_Z (2 ^ 53)) = "9007199254740992"
  /\ Number_toString (Number.of_Z (2 ^ 60)) = "1152921504606847000"
  /\ Number_toString (Number.of_Z 123456789012345680000) = "123456789012345680000"
  /\ Number_toString (Number.of_Z (10 ^ 20)) = "100000000000000000000"
  /\ Number_toString (Number.of_Z (10 ^ 21)) = "1e+21"
  /\ Number_toString (Number.div (Number.of_Z 1) (Number.of_Z (10 ^ 6))) = "0.000001"
  /\ Number_toString (Number.div (Number.of_Z 1) (Number.of_Z (10 ^ 7))) = "1e-7"
  /\ Number_toString (Number.div (Number.of_Z 15) (Number.of_Z (10 ^ 8))) = "1.5e-7"
  /\ Number_toString (SpecFloat.S754_finite false 1 (-1074)) = "5e-324"
  /\ Number_toString (SpecFloat.S754_finite false 2 (-1074)) = "1e-323"
  /\ Number_toString (SpecFloat.S754_finite true 9007199254740991 971)
     = "-1.7976931348623157e+308"
  /\ Number_toString (SpecFloat.S754_zero true) = "0"
  /\ Number_toString SpecFloat.S754_nan = "NaN"
  /\ Number_toString (SpecFloat.S754_infinity true) = "-Infinity".
Proof. conjuncts; vm_compute; reflexivity. Qed.

Lemma chr_code (c : ascii) : chr (code c) = c.
Proof. unfold chr, code. rewrite Nat2Z.id. apply ascii_nat_embedding. Qed.

Lemma code_inj (c d : ascii) : code c = code d -> c = d.
Proof. intros H. rewrite <- (chr_code c), <- (chr_code d), H. reflexivity. Qed.

Lemma slice_forall (p : ascii -> bool) (n : nat) (s : string) :
  forall_string p s = true -> forall_string p (slice n s) = true.
Proof.
  revert s. induction n as [|n IH]; intros s Hs; [destruct s; exact Hs|].
  destruct s as [|c s]; [reflexivity|].
  cbn [forall_string] in Hs. apply andb_prop in Hs as [_ Hs].
  cbn [slice]. apply IH. exact Hs.
Qed.

Lemma slice_size (n : nat) (s : string) :
  String.length (slice n s) = (String.length s - n)%nat.
Proof.
  revert s. induction n as [|n IH]; intros s; [destruct s; cbn [slice]; lia|].
  destruct s as [|c s]; [reflexivity|]. cbn [slice String.length]. apply IH.
Qed.

Lemma forall_string_app (p : ascii -> bool) (s t : string) :
  forall_string p (s +:+ t) = forall_string p s && forall_string p t.
Proof.
  induction s as [|c s IH]; [reflexivity|].
  rewrite append_cons. cbn [forall_string]. rewrite IH, Bool.andb_assoc. reflexivity.
Qed.

Lemma zeros_digits (k : nat) : forall_string is_digit (ethers.zeros k) = true.
Proof. induction k as [|k IH]; [reflexivity|]. cbn [ethers.zeros forall_string]. rewrite IH. reflexivity. Qed.

Lemma split_at (n : nat) (s : string) :
  (n <= String.length s)%nat ->
  s = substring 0 n s +:+ slice n s
  /\ String.length (substring 0 n s) = n.
Proof.
  revert s. induction n as [|n IH]; intros s Hn.
  - destruct s; split; reflexivity.
  - destruct s as [|c s]; [cbn [String.length] in Hn; lia|].
    cbn [String.length] in Hn. destruct (IH s ltac:(lia)) as [Heq Hlen].
    cbn [substring slice String.length]. rewrite append_cons, <- Heq, Hlen.
    split; reflexivity.
Qed.

Lemma append_assoc (s t u : string) : (s +:+ t) +:+ u = s +:+ (t +:+ u).
Proof.
  induction s as [|c s IH]; [reflexivity|]. rewrite !append_cons, IH. reflexivity.
Qed.


Lemma digits2_bounds (p : positive) :
  2 ^ (Zpos (SpecFloat.digits2_pos p) - 1) <= Zpos p < 2 ^ Zpos (SpecFloat.digits2_pos p).
Proof.
  induction p as [p IH|p IH|]; cbn [SpecFloat.digits2_pos].
  - rewrite Pos2Z.inj_succ. change (Zpos p~1) with (2 * Zpos p + 1).
    replace (Z.succ (Zpos (SpecFloat.digits2_pos p)) - 1)
      with (Z.succ (Zpos (SpecFloat.digits2_pos p) - 1)) by lia.
    rewrite !Z.pow_succ_r by lia. lia.
  - rewrite Pos2Z.inj_succ. change (Zpos p~0) with (2 * Zpos p).
    replace (Z.succ (Zpos (SpecFloat.digits2_pos p)) - 1)
      with (Z.succ (Zpos (SpecFloat.digits2_pos p) - 1)) by lia.
    rewrite !Z.pow_succ_r by lia. lia.
  - change (2 ^ (1 - 1)) with 1. change (2 ^ 1) with 2. lia.
Qed.

Lemma iter_xO_value (p d : positive) : Zpos (Pos.iter xO p d) = Zpos p * 2 ^ Zpos d.
Proof.
  induction d as [|d IH] using Pos.peano_ind.
  - cbn [Pos.iter]. change (2 ^ 1) with 2. lia.
  - rewrite Pos.iter_succ. change (Zpos (Pos.iter xO p d)~0) with (2 * Zpos (Pos.iter xO p d)).
    rewrite IH, Pos2Z.inj_succ, Z.pow_succ_r by lia. lia.
Qed.

Lemma iter_xO_digits (p d : positive) :
  SpecFloat.digits2_pos (Pos.iter xO p d) = (SpecFloat.digits2_pos p + d)%positive.
Proof.
  induction d as [|d IH] using Pos.peano_ind.
  - cbn [Pos.iter SpecFloat.digits2_pos]. lia.
  - rewrite Pos.iter_succ. cbn [SpecFloat.digits2_pos]. rewrite IH. lia.
Qed.

(** The number for a positive integer below 2^53 is the integer, with its
    mantissa shifted to 53 bits. *)
Lemma of_Z_spec (n : Z) :
  0 < n < 2 ^ 53 ->
  exists (m : positive) (j : Z),
    Number.of_Z n = SpecFloat.S754_finite false m (- j)
    /\ 0 <= j /\ Zpos m = n * 2 ^ j /\ 2 ^ 52 <= Zpos m < 2 ^ 53.
Proof.
  intros [Hpos Hlt]. destruct n as [|p|p]; try lia.
  pose proof (digits2_bounds p) as [Hlo Hhi].
  set (D := SpecFloat.digits2_pos p) in *.
  assert (Zpos D <= 53) as HD.
  { destruct (Z.le_gt_cases (Zpos D) 53) as [?|Hgt]; [assumption|exfalso].
    assert (2 ^ 53 <= 2 ^ (Zpos D - 1)) by (apply Z.pow_le_mono_r; lia). lia. }
  unfold Number.of_Z, SpecFloat.binary_normalize, SpecFloat.binary_round.
  fold D. unfold SpecFloat.fexp, SpecFloat.emin, Number.prec, Number.emax.
  replace (Z.max (Zpos D + 0 - 53) (3 - 1024 - 53)) with (Zpos D - 53) by lia.
  unfold SpecFloat.shl_align.
  destruct (Zpos D - 53 - 0) as [|d|d] eqn:Hshift; [|lia|].
  - (* already 53 bits *)
    exists p, 0. 
    unfold SpecFloat.binary_round_aux, SpecFloat.shr_fexp, SpecFloat.fexp, SpecFloat.emin.
    cbn [SpecFloat.Zdigits2 SpecFloat.shr_record_of_loc]. fold D.
    replace (Z.max (Zpos D + 0 - 53) (3 - 1024 - 53) - 0) with 0 by lia.
    cbn [SpecFloat.shr SpecFloat.shr_m SpecFloat.loc_of_shr_record SpecFloat.round_nearest_even
         SpecFloat.shr_record_of_loc SpecFloat.Zdigits2].
    fold D. replace (Z.max (Zpos D + 0 - 53) (3 - 1024 - 53) - 0) with 0 by lia.
    cbn [SpecFloat.shr SpecFloat.shr_m].
    change (0 <=? 1024 - 53) with true. cbv iota.
    split; [reflexivity|]. change (2 ^ 0) with 1. split; [lia|]. split; [lia|].
    replace (Zpos D - 1) with 52 in Hlo by lia. lia.
  - exists (Pos.iter xO p d), (Zpos d).
    assert (Zpos d = 53 - Zpos D) as Hd by lia.
    unfold SpecFloat.binary_round_aux, SpecFloat.shr_fexp, SpecFloat.fexp, SpecFloat.emin.
    cbn [SpecFloat.Zdigits2 SpecFloat.shr_record_of_loc].
    rewrite iter_xO_digits. fold D.
    replace (Z.max (Zpos (D + d) + (Zpos D - 53) - 53) (3 - 1024 - 53) - (Zpos D - 53))
      with 0 by lia.
    cbn [SpecFloat.shr SpecFloat.shr_m SpecFloat.loc_of_shr_record SpecFloat.round_nearest_even
         SpecFloat.shr_record_of_loc SpecFloat.Zdigits2].
    rewrite iter_xO_digits. fold D.
    replace (Z.max (Zpos (D + d) + (Zpos D - 53) - 53) (3 - 1024 - 53) - (Zpos D - 53))
      with 0 by lia.
    cbn [SpecFloat.shr SpecFloat.shr_m].
    destruct (Z.leb_spec (Zpos D - 53) (1024 - 53)); [|lia].
    split; [f_equal; lia|]. split; [lia|]. rewrite iter_xO_value. split; [reflexivity|].
    rewrite Hd.
    assert (0 < 2 ^ (53 - Zpos D)) as Hpow by (apply Z.pow_pos_nonneg; lia).
    assert (2 ^ (Zpos D - 1) * 2 ^ (53 - Zpos D) = 2 ^ 52) as Hlow.
    { rewrite <- Z.pow_add_r by lia. f_equal. lia. }
    assert (2 ^ Zpos D * 2 ^ (53 - Zpos D) = 2 ^ 53) as Hhigh.
    { rewrite <- Z.pow_add_r by lia. f_equal. lia. }
    split.
    + rewrite <- Hlow. apply Z.mul_le_mono_nonneg_r; lia.
    + rewrite <- Hhigh. apply Z.mul_lt_mono_pos_r; lia.
Qed.

(** *** The digits of an integer *)

Lemma render_digits_acc (fuel : nat) (n : Z) (acc : string) :
  render_digits fuel n acc = render_digits fuel n EmptyString +:+ acc.
Proof.
  revert n acc. induction fuel as [|f IH]; intros n acc; [reflexivity|].
  cbn [render_digits]. destruct (n <? 10); [reflexivity|].
  rewrite (IH _ (String _ acc)), (IH _ (String _ EmptyString)).
  rewrite append_assoc. reflexivity.
Qed.

Lemma render_digits_fuel (f1 f2 : nat) (n : Z) (acc : string) :
  0 <= n < 2 ^ Z.of_nat (S f1) -> n < 2 ^ Z.of_nat (S f2) ->
  render_digits (S f1) n acc = render_digits (S f2) n acc.
Proof.
  revert f2 n acc. induction f1 as [|f1 IH]; intros f2 n acc H1 H2.
  - change (2 ^ Z.of_nat 1) with 2 in H1. cbn [render_digits].
    destruct (Z.ltb_spec n 10); [reflexivity|lia].
  - cbn [render_digits]. destruct (Z.ltb_spec n 10) as [|Hge]; [reflexivity|].
    destruct f2 as [|f2]; [change (2 ^ Z.of_nat 1) with 2 in H2; lia|].
    rewrite (Nat2Z.inj_succ (S f1)), (Nat2Z.inj_succ (S f2)), Z.pow_succ_r in * by lia.
    apply IH.
    + split; [apply Z.div_pos; lia|]. apply Z.div_lt_upper_bound; lia.
    + apply Z.div_lt_upper_bound; lia.
Qed.

Lemma render_step (n : Z) :
  10 <= n -> render n = render (n / 10) +:+ String (chr (48 + n mod 10)) EmptyString.
Proof.
  intros Hn. unfold render at 1. cbn [render_digits].
  destruct (Z.ltb_spec n 10) as [|_]; [lia|].
  rewrite render_digits_acc. f_equal.
  pose proof (Z.log2_spec n ltac:(lia)) as [Hlo Hhi].
  assert (3 <= Z.log2 n) as H3 by (apply (Z.log2_le_mono 8 n); lia).
  assert (0 <= n / 10) as Hq by (apply Z.div_pos; lia).
  destruct (Z.to_nat (Z.log2 n)) as [|f] eqn:Hf; [lia|].
  unfold render. apply render_digits_fuel.
  - split; [assumption|]. apply Z.div_lt_upper_bound; [lia|].
    replace (Z.succ (Z.log2 n)) with (Z.succ (Z.of_nat (S f))) in Hhi by lia.
    rewrite Z.pow_succ_r in Hhi by lia. lia.
  - destruct (Z.eq_dec (n / 10) 0) as [->|Hne]; [apply Z.pow_pos_nonneg; lia|].
    rewrite Nat2Z.inj_succ, Z2Nat.id by apply Z.log2_nonneg.
    apply Z.log2_spec. lia.
Qed.

Lemma render_small (n : Z) :
  0 <= n < 10 -> render n = String (chr (48 + n)) EmptyString.
Proof.
  intros Hn. unfold render. cbn [render_digits].
  destruct (Z.ltb_spec n 10); [|lia]. rewrite Z.mod_small by lia. reflexivity.
Qed.

(** The number of digits of a positive integer. *)
Lemma render_length (n : Z) :
  1 <= n ->
  10 ^ (Z.of_nat (String.length (render n)) - 1) <= n < 10 ^ Z.of_nat (String.length (render n)).
Proof.
  assert (forall (b : nat) (a : Z), a < Z.of_nat b -> 1 <= a ->
            10 ^ (Z.of_nat (String.length (render a)) - 1) <= a
            < 10 ^ Z.of_nat (String.length (render a))) as Hall;
    [|intros Hn; apply (Hall (Z.to_nat (n + 1))); lia].
  clear n. induction b as [|b IHb]; intros n Hb Hn; [lia|].
  assert (forall a, 0 <= a < n -> 0 <= n -> 1 <= a ->
            10 ^ (Z.of_nat (String.length (render a)) - 1) <= a
            < 10 ^ Z.of_nat (String.length (render a))) as IH
      by (intros a Ha _ Ha1; apply IHb; lia).
  destruct (Z.lt_ge_cases n 10) as [Hlt|Hge].
  - rewrite render_small by lia. cbn [String.length].
    change (10 ^ (Z.of_nat 1 - 1)) with 1. change (10 ^ Z.of_nat 1) with 10. lia.
  - rewrite (render_step n Hge), length_append. cbn [String.length].
    assert (1 <= n / 10) as Hq by (apply Z.div_le_lower_bound; lia).
    specialize (IH (n / 10)).
    assert (10 ^ (Z.of_nat (String.length (render (n / 10))) - 1) <= n / 10
            < 10 ^ Z.of_nat (String.length (render (n / 10)))) as [Hlo Hhi].
    { apply IH; [|lia|assumption]. split; [lia|]. apply Z.div_lt; lia. }
    destruct (render_spec (n / 10) ltac:(lia)) as (_ & Hlen & _).
    set (l := String.length (render (n / 10))) in *.
    replace (Z.of_nat (l + 1) - 1) with (Z.succ (Z.of_nat l - 1)) by lia.
    replace (Z.of_nat (l + 1)) with (Z.succ (Z.of_nat l)) by lia.
    rewrite !Z.pow_succ_r by lia.
    pose proof (Z.div_mod n 10 ltac:(lia)). pose proof (Z.mod_pos_bound n 10 ltac:(lia)). lia.
Qed.

Lemma render_times_ten (n : Z) : 1 <= n -> render (10 * n) = render n +:+ "0".
Proof.
  intros Hn. rewrite render_step by lia.
  rewrite (Z.mul_comm 10 n), Z.div_mul, Z.mod_mul by lia. reflexivity.
Qed.

Lemma render_scaled (s : Z) (q : nat) :
  1 <= s -> render (s * 10 ^ Z.of_nat q) = render s +:+ ethers.zeros q.
Proof.
  intros Hs. induction q as [|q IH].
  - change (10 ^ Z.of_nat 0) with 1. rewrite Z.mul_1_r, append_empty. reflexivity.
  - rewrite Nat2Z.inj_succ, Z.pow_succ_r by lia.
    replace (s * (10 * 10 ^ Z.of_nat q)) with (10 * (s * 10 ^ Z.of_nat q)) by lia.
    rewrite render_times_ten, IH.
    + rewrite append_assoc. f_equal.
      clear. induction q as [|q IH]; [reflexivity|].
      cbn [ethers.zeros]. rewrite append_cons, IH. reflexivity.
    + assert (0 < 10 ^ Z.of_nat q) by (apply Z.pow_pos_nonneg; lia). nia.
Qed.

(** *** The shortest decimal *)

Lemma better_cases (m : positive) (e k : Z) (c c' : Z * Z) :
  Number.better m e k c c' = c \/ Number.better m e k c c' = c'.
Proof.
  unfold Number.better.
  destruct (Number.nearer _ _); [auto|]. destruct (Number.nearer _ _); [auto|].
  destruct (Z.even _); auto.
Qed.

Lemma closest_In (m : positive) (e k : Z) (cs : list (Z * Z)) (c : Z * Z) :
  Number.closest m e k cs = Some c -> In c cs.
Proof.
  destruct cs as [|c0 r]; [discriminate|]. cbn [Number.closest]. intros [= <-].
  revert c0. induction r as [|c1 r IH]; intros c0; [left; reflexivity|].
  cbn [fold_left].
  destruct (IH (Number.better m e k c0 c1)) as [Heq|Hin].
  - rewrite <- Heq. destruct (better_cases m e k c0 c1) as [Hb|Hb]; rewrite Hb; [left|right; left]; reflexivity.
  - right. right. exact Hin.
Qed.

(** The search stops at the first number of digits that has a decimal
    reading back as the number, on one of them. *)
Lemma shortest_from_spec (fuel : nat) (m : positive) (e k0 k1 : Z) :
  k0 <= k1 < k0 + Z.of_nat fuel ->
  Number.candidates m e k1 <> [] ->
  exists s n k,
    Number.shortest_from fuel m e k0 = (s, n, k)
    /\ k0 <= k <= k1 /\ In (s, n) (Number.candidates m e k).
Proof.
  revert k0. induction fuel as [|f IH]; intros k0 Hk Hsome; [lia|].
  cbn [Number.shortest_from].
  destruct (Number.closest m e k0 (Number.candidates m e k0)) as [[s n]|] eqn:Hc.
  - exists s, n, k0. split; [reflexivity|]. split; [lia|].
    apply (closest_In m e k0). exact Hc.
  - assert (Number.candidates m e k0 = []) as Hnone
        by (destruct (Number.candidates m e k0); [reflexivity|discriminate]).
    assert (k0 <> k1) as Hne by (intros ->; contradiction).
    destruct (IH (k0 + 1)) as (s & n & k & Heq & Hrange & Hin); [lia|assumption|].
    exists s, n, k. split; [exact Heq|]. split; [lia|exact Hin].
Qed.

Lemma candidates_admissible (m : positive) (e k s n : Z) :
  In (s, n) (Number.candidates m e k) ->
  10 ^ (k - 1) <= s < 10 ^ k /\ Number.rounds_to m e s (n - k) = true.
Proof.
  unfold Number.candidates. intros Hin. apply List.filter_In in Hin as [_ Hadm].
  unfold Number.admissible in Hadm. cbn [fst snd] in Hadm.
  apply andb_prop in Hadm as [[Hlo%Z.leb_le Hhi%Z.ltb_lt]%andb_prop Hr]. auto.
Qed.

(** A decimal that reads back as a number lies within half a unit in the
    last place of it. *)
Lemma rounds_to_bounds (m : positive) (e s q : Z) :
  Number.rounds_to m e s q = true ->
  (4 * Zpos m - 2) * 2 ^ Z.max (e - 2) 0 * 10 ^ Z.max (- q) 0
  <= s * 10 ^ Z.max q 0 * 2 ^ Z.max (- (e - 2)) 0
  <= (4 * Zpos m + 2) * 2 ^ Z.max (e - 2) 0 * 10 ^ Z.max (- q) 0.
Proof.
  unfold Number.rounds_to, Number.compare_scaled.
  match goal with
  | |- context [if ?c then 1 else 2] => set (below := if c then 1 else 2)
  end.
  assert (1 <= below <= 2) as Hbelow
      by (subst below; match goal with |- context [if ?c then _ else _] => destruct c end; lia).
  assert (0 < 2 ^ Z.max (e - 2) 0 * 10 ^ Z.max (- q) 0) as Hscale.
  { apply Z.mul_pos_pos; apply Z.pow_pos_nonneg; lia. }
  set (lhs := s * 10 ^ Z.max q 0 * 2 ^ Z.max (- (e - 2)) 0).
  rewrite <- !Z.mul_assoc.
  set (scale := 2 ^ Z.max (e - 2) 0 * 10 ^ Z.max (- q) 0) in *.
  destruct (Z.compare_spec lhs ((4 * Zpos m - below) * scale)) as [Hl|Hl|Hl];
    destruct (Z.compare_spec lhs ((4 * Zpos m + 2) * scale)) as [Hu|Hu|Hu];
    try discriminate; intros _; nia.
Qed.

(** A whole number below 2^53 is the only decimal of no more digits than
    it has that reads back as its number. *)
Lemma whole_number_unique (N j : Z) (m : positive) (s q : Z) :
  1 <= N -> 0 <= j -> Zpos m = N * 2 ^ j -> 2 ^ 52 <= Zpos m < 2 ^ 53 ->
  Number.rounds_to m (- j) s q = true ->
  s < 10 * N -> s < 10 ^ 16 ->
  0 <= q /\ s * 10 ^ q = N.
Proof.
  intros HN Hj Hm Hrange Hr HsN Hs16.
  apply rounds_to_bounds in Hr.
  replace (Z.max (- j - 2) 0) with 0 in Hr by lia.
  replace (Z.max (- (- j - 2)) 0) with (j + 2) in Hr by lia.
  rewrite Z.pow_add_r in Hr by lia. change (2 ^ 0) with 1 in Hr. change (2 ^ 2) with 4 in Hr.
  set (T := 2 ^ j) in *.
  assert (1 <= T) as HT by (subst T; pose proof (Z.pow_pos_nonneg 2 j); lia).
  rewrite Hm in Hr.
  destruct (Z.le_gt_cases 0 q) as [Hq|Hq].
  - split; [assumption|].
    replace (Z.max (- q) 0) with 0 in Hr by lia. replace (Z.max q 0) with q in Hr by lia.
    change (10 ^ 0) with 1 in Hr. set (V := s * 10 ^ q) in *. nia.
  - exfalso.
    replace (Z.max q 0) with 0 in Hr by lia. replace (Z.max (- q) 0) with (- q) in Hr by lia.
    change (10 ^ 0) with 1 in Hr.
    assert (10 <= 10 ^ (- q)) as Hten.
    { change 10 with (10 ^ 1) at 1. apply Z.pow_le_mono_r; lia. }
    set (P := 10 ^ (- q)) in *.
    destruct Hr as [Hlow _].
    assert ((4 * (N * T) - 2) * 10 <= s * 1 * (T * 4)) as Hlow'.
    { etransitivity; [|exact Hlow]. rewrite Z.mul_1_r. apply Z.mul_le_mono_nonneg_l; nia. }
    destruct (Z.le_gt_cases 3 j) as [H3|H3].
    + assert (8 <= T) by (subst T; change 8 with (2 ^ 3); apply Z.pow_le_mono_r; lia).
      nia.
    + assert (j = 0 \/ j = 1 \/ j = 2) as [Hj0|[Hj0|Hj0]] by lia; subst j T;
        [change (2 ^ 0) with 1 in *|change (2 ^ 1) with 2 in *|change (2 ^ 2) with 4 in *];
        change (2 ^ 52) with 4503599627370496 in *;
        change (10 ^ 16) with 10000000000000000 in *; lia.
Qed.

Lemma pow10_lt_inv (a b : Z) : 0 <= b -> 10 ^ a < 10 ^ b -> a < b.
Proof. intros Hb Hlt. apply (Z.pow_lt_mono_r_iff 10); [lia|assumption|assumption]. Qed.

Lemma whole_number_candidate (N j : Z) (m : positive) :
  1 <= N -> 0 <= j -> Zpos m = N * 2 ^ j ->
  In (N, Z.of_nat (String.length (render N)))
     (Number.candidates m (- j) (Z.of_nat (String.length (render N)))).
Proof.
  intros HN Hj Hm.
  assert (0 < 2 ^ j) as HT by (apply Z.pow_pos_nonneg; lia).
  assert (Number.quotient m (- j) 0 = N) as Hquot.
  { unfold Number.quotient.
    replace (Z.max (- j) 0) with 0 by lia. replace (Z.max (- - j) 0) with j by lia.
    change (Z.max (- 0) 0) with 0. change (Z.max 0 0) with 0.
    change (10 ^ 0) with 1. change (2 ^ 0) with 1.
    rewrite Hm, !Z.mul_1_r. apply Z.div_mul. lia. }
  set (D := Z.of_nat (String.length (render N))).
  unfold Number.candidates. apply List.filter_In. split.
  - apply in_flat_map. exists D. split.
    + unfold Number.exponents, Number.magnitude. rewrite Hquot.
      destruct (Z.ltb_spec 0 N); [|lia]. fold D. right. left. reflexivity.
    + rewrite Z.sub_diag, Hquot. left. reflexivity.
  - unfold Number.admissible. cbn [fst snd].
    pose proof (render_length N HN) as [Hlo Hhi]. fold D in Hlo, Hhi.
    destruct (Z.leb_spec (10 ^ (D - 1)) N); [|lia].
    destruct (Z.ltb_spec N (10 ^ D)); [|lia].
    cbn [andb]. rewrite Z.sub_diag.
    unfold Number.rounds_to, Number.compare_scaled.
    match goal with
    | |- context [if ?c then 1 else 2] => set (below := if c then 1 else 2)
    end.
    assert (1 <= below <= 2) as Hbelow
        by (subst below; match goal with |- context [if ?c then _ else _] => destruct c end; lia).
    replace (Z.max (- j - 2) 0) with 0 by lia.
    replace (Z.max (- (- j - 2)) 0) with (j + 2) by lia.
    change (Z.max (- 0) 0) with 0. change (Z.max 0 0) with 0.
    rewrite Z.pow_add_r by lia.
    change (10 ^ 0) with 1. change (2 ^ 0) with 1. change (2 ^ 2) with 4.
    rewrite Hm.
    destruct (Z.compare_spec (N * 1 * (2 ^ j * 4)) ((4 * (N * 2 ^ j) - below) * 1 * 1));
      destruct (Z.compare_spec (N * 1 * (2 ^ j * 4)) ((4 * (N * 2 ^ j) + 2) * 1 * 1));
      try reflexivity; lia.
Qed.

(** The text of a whole number below 2^53 is its decimal digits. *)
Lemma Number_toString_whole (n : Z) :
  0 <= n < 2 ^ 53 -> Number_toString (Number.of_Z n) = render n.
Proof.
  intros [Hlo Hhi]. destruct (Z.eq_dec n 0) as [->|Hne]; [reflexivity|].
  destruct (of_Z_spec n ltac:(lia)) as (m & j & -> & Hj & Hm & Hrange).
  pose proof (render_length n ltac:(lia)) as [HDlo HDhi].
  destruct (render_spec n ltac:(lia)) as (_ & HD1 & _).
  set (D := Z.of_nat (String.length (render n))) in *.
  assert (D <= 16) as HD16.
  { assert (D - 1 < 16); [|lia]. apply pow10_lt_inv; [lia|].
    change (10 ^ 16) with 10000000000000000. change (2 ^ 53) with 9007199254740992 in Hhi. lia. }
  destruct (shortest_from_spec 17 m (- j) 1 D) as (s & n' & k & Hshort & Hk & Hin).
  { lia. }
  { intros Hnone. pose proof (whole_number_candidate n j m ltac:(lia) Hj Hm) as Hc.
    fold D in Hc. rewrite Hnone in Hc. destruct Hc. }
  apply candidates_admissible in Hin as [[Hslo Hshi] Hr].
  assert (1 <= 10 ^ (k - 1)) as Hk1 by (pose proof (Z.pow_pos_nonneg 10 (k - 1)); lia).
  assert (10 ^ k <= 10 ^ D) as HkD by (apply Z.pow_le_mono_r; lia).
  assert (10 ^ D = 10 * 10 ^ (D - 1)) as HDs.
  { replace D with (Z.succ (D - 1)) at 1 by lia. apply Z.pow_succ_r. lia. }
  assert (10 ^ D <= 10 ^ 16) as HD16' by (apply Z.pow_le_mono_r; lia).
  destruct (whole_number_unique n j m s (n' - k)) as [Hq Hval]; try assumption; try lia.
  assert (n' <= 16) as Hn16.
  { assert (n' - 1 < 16); [|lia]. apply pow10_lt_inv; [lia|].
    replace (n' - 1) with ((k - 1) + (n' - k)) by lia. rewrite Z.pow_add_r by lia.
    assert (0 < 10 ^ (n' - k)) by (apply Z.pow_pos_nonneg; lia).
    change (10 ^ 16) with 10000000000000000. change (2 ^ 53) with 9007199254740992 in Hhi. nia. }
  unfold Number_toString, Number.shortest. rewrite Hshort. rewrite append_nil.
  unfold Number.notation.
  destruct (Z.leb_spec k n'); [|lia]. destruct (Z.leb_spec n' 21); [|lia]. cbn [andb].
  rewrite <- render_scaled by lia. rewrite Z2Nat.id by lia. rewrite Hval. reflexivity.
Qed.

(** *** The text of a number, read by parseUnits *)

Lemma match_fixed_signed (neg : bool) (W P F : string) :
  forall_string is_digit W = true -> (0 < String.length W)%nat ->
  forall_string is_digit F = true ->
  P = "." \/ (P = "" /\ F = "") ->
  ethers.match_fixed ((if neg then "-" else "") +:+ W +:+ P +:+ F) = Some (neg, W, F).
Proof.
  intros HW Hlen HF HP.
  assert (ethers.match_fixed (W +:+ P +:+ F) = Some (false, W, F)) as Hplain.
  { destruct HP as [->|[-> ->]].
    - rewrite append_cons, append_nil.
      unfold ethers.match_fixed.
      destruct W as [|a W1] eqn:HeqW; [cbn [String.length] in Hlen; lia|].
      rewrite append_cons.
      pose proof HW as HW'. cbn [forall_string] in HW'.
      apply andb_prop in HW' as [Ha%is_digit_code _].
      destruct (Z.eqb_spec (code a) 45); [lia|].
      rewrite <- append_cons.
      rewrite (span_stop is_digit (String a W1) "." F HW eq_refl).
      change (code "." =? 46) with true. cbv iota.
      rewrite (span_all _ _ HF). reflexivity.
    - rewrite append_nil, append_empty. apply match_fixed_digits. exact HW. }
  destruct neg; [|rewrite append_nil; exact Hplain].
  rewrite append_cons, append_nil.
  revert Hplain. unfold ethers.match_fixed.
  change (code "-" =? 45) with true. cbv iota.
  destruct (W +:+ P +:+ F) as [|a T] eqn:HT.
  - intros [= <- <-]. reflexivity.
  - assert (48 <= code a <= 57) as Ha.
    { destruct W as [|a' W1]; [cbn [String.length] in Hlen; lia|].
      rewrite append_cons in HT. injection HT as <- _.
      cbn [forall_string] in HW. apply andb_prop in HW as [Ha%is_digit_code _]. exact Ha. }
    destruct (Z.eqb_spec (code a) 45); [lia|].
    destruct (ethers.span is_digit (String a T)) as [whole rest1].
    destruct (ethers.span is_digit _) as [frac rest3].
    destruct rest3; [|discriminate]. intros [= <- <-]. reflexivity.
Qed.

(** A text with a letter after its digits is no decimal. *)
Lemma match_fixed_exponent (neg : bool) (W P F rest : string) :
  forall_string is_digit W = true -> (0 < String.length W)%nat ->
  forall_string is_digit F = true ->
  P = "." \/ (P = "" /\ F = "") ->
  ethers.match_fixed ((if neg then "-" else "") +:+ W +:+ P +:+ F +:+ String "e" rest) = None.
Proof.
  intros HW Hlen HF HP.
  assert (forall a T, W +:+ P +:+ F +:+ String "e" rest = String a T ->
            (code a =? 45) = false) as Hfirst.
  { intros a T HT. destruct W as [|a' W1]; [cbn [String.length] in Hlen; lia|].
    rewrite append_cons in HT. injection HT as <- _.
    cbn [forall_string] in HW. apply andb_prop in HW as [Ha%is_digit_code _].
    apply Z.eqb_neq. lia. }
  assert (let '(whole, rest1) := ethers.span is_digit (W +:+ P +:+ F +:+ String "e" rest) in
          let rest2 := match rest1 with
                       | String c r => if code c =? 46 then r else rest1
                       | EmptyString => rest1
                       end in
          let '(frac, rest3) := ethers.span is_digit rest2 in
          rest3 = String "e" rest) as Hspan.
  { destruct HP as [->|[-> ->]].
    - rewrite append_cons, append_nil.
      rewrite (span_stop is_digit W "." _ HW eq_refl).
      change (code "." =? 46) with true. cbv beta iota zeta.
      rewrite (span_stop is_digit F "e" rest HF eq_refl). reflexivity.
    - rewrite !append_nil.
      rewrite (span_stop is_digit W "e" rest HW eq_refl).
      change (code "e" =? 46) with false. cbv beta iota zeta. cbn [ethers.span].
      change (is_digit "e") with false. cbv iota. reflexivity. }
  unfold ethers.match_fixed.
  destruct neg.
  - rewrite append_cons, append_nil. change (code "-" =? 45) with true. cbv iota.
    destruct (ethers.span is_digit _) as [whole rest1]. cbv zeta in Hspan.
    destruct (ethers.span is_digit _) as [frac rest3]. rewrite Hspan. reflexivity.
  - rewrite append_nil.
    destruct (W +:+ P +:+ F +:+ String "e" rest) as [|a T] eqn:HT.
    + destruct W; [cbn [String.length] in Hlen; lia|rewrite append_cons in HT; discriminate].
    + rewrite (Hfirst a T eq_refl).
      destruct (ethers.span is_digit _) as [whole rest1]. cbv zeta in Hspan.
      destruct (ethers.span is_digit _) as [frac rest3]. rewrite Hspan. reflexivity.
Qed.

Lemma zero_chars (s : string) :
  forall_string ethers.is_zero_char s = true -> s = ethers.zeros (String.length s).
Proof.
  induction s as [|c s IH]; [reflexivity|].
  cbn [forall_string]. intros [Hc Hs]%andb_prop.
  cbn [String.length ethers.zeros]. rewrite <- (IH Hs). f_equal.
  apply code_inj. unfold ethers.is_zero_char in Hc. apply Z.eqb_eq in Hc. exact Hc.
Qed.

Lemma digits_value_nonneg (s : string) (acc : Z) :
  forall_string is_digit s = true -> 0 <= acc -> 0 <= digits_value 10 acc s.
Proof.
  revert acc. induction s as [|c s IH]; intros acc Hs Hacc; [exact Hacc|].
  cbn [forall_string] in Hs. apply andb_prop in Hs as [Hc Hs].
  cbn [digits_value]. apply IH; [assumption|].
  pose proof (is_digit_code c Hc). unfold digit_value. rewrite Hc. lia.
Qed.

(** What [fromString] returns for a text that matches: the digits, at the
    decimal count, with the sign. *)
Lemma fromString_matched (value : string) (d : nat) (neg : bool) (W F : string) (v : Z) :
  ethers.match_fixed value = Some (neg, W, F) ->
  forall_string is_digit W = true -> (0 < String.length W)%nat ->
  forall_string is_digit F = true ->
  ethers.fromString value d = ret v ->
  Z.abs v * 10 ^ Z.of_nat (String.length F) = digits_value 10 0 (W +:+ F) * 10 ^ Z.of_nat d
  /\ v = (if neg then - Z.abs v else Z.abs v).
Proof.
  intros Hmatch HW Hlen HF. unfold ethers.fromString. rewrite Hmatch.
  destruct (Nat.eqb_spec (String.length W + String.length F) 0) as [?|_]; [lia|].
  assert (match W with EmptyString => "0" | String _ _ => W end = W) as ->
      by (destruct W; [cbn [String.length] in Hlen; lia|reflexivity]).
  set (padded := F +:+ ethers.zeros (d - String.length F)).
  assert (String.length padded = (String.length F + (d - String.length F))%nat) as Hpl
      by (subst padded; rewrite length_append, length_zeros; reflexivity).
  destruct (split_at d padded ltac:(lia)) as [Hsplit HlenA].
  set (A := substring 0 d padded) in *. set (B := slice d padded) in *.
  destruct (forall_string ethers.is_zero_char B) eqn:HB; cbn [negb]; [|discriminate].
  apply zero_chars in HB.
  assert (String.length B = (String.length F - d)%nat) as HlenB
      by (subst B; rewrite slice_size; lia).
  rewrite HlenB in HB.
  assert (forall_string is_digit (W +:+ A) = true) as HWA.
  { rewrite forall_string_app, HW. cbn [andb].
    assert (forall_string is_digit padded = true) as Hp
        by (subst padded; rewrite forall_string_app, HF, zeros_digits; reflexivity).
    rewrite Hsplit, forall_string_app in Hp. apply andb_prop in Hp as [-> _]. reflexivity. }
  set (v0 := digits_value 10 0 (W +:+ A)).
  assert (0 <= v0) as Hv0 by (apply digits_value_nonneg; [assumption|lia]).
  assert (v0 * 10 ^ Z.of_nat (String.length F - d)
          = digits_value 10 0 (W +:+ F) * 10 ^ Z.of_nat (d - String.length F)) as Hkey.
  { subst v0. rewrite <- !digits_value_zeros, <- !digits_value_app.
    rewrite !append_assoc. fold padded. rewrite <- HB, <- Hsplit. reflexivity. }
  assert (v0 * 10 ^ Z.of_nat (String.length F)
          = digits_value 10 0 (W +:+ F) * 10 ^ Z.of_nat d) as Hscaled.
  { destruct (Nat.le_ge_cases (String.length F) d) as [Hle|Hge].
    - replace (String.length F - d)%nat with 0%nat in Hkey by lia.
      change (10 ^ Z.of_nat 0) with 1 in Hkey. rewrite Z.mul_1_r in Hkey. rewrite Hkey.
      rewrite <- Z.mul_assoc, <- Z.pow_add_r by lia. do 2 f_equal. lia.
    - replace (d - String.length F)%nat with 0%nat in Hkey by lia.
      change (10 ^ Z.of_nat 0) with 1 in Hkey. rewrite Z.mul_1_r in Hkey. rewrite <- Hkey.
      rewrite <- Z.mul_assoc, <- Z.pow_add_r by lia. do 2 f_equal. lia. }
  unfold ethers.checkValue.
  destruct (_ && _); [|discriminate]. unfold ret. intros [= <-].
  destruct neg.
  - rewrite Z.abs_opp, Z.abs_eq by assumption. split; [exact Hscaled|reflexivity].
  - rewrite Z.abs_eq by assumption. split; [exact Hscaled|reflexivity].
Qed.

Lemma render_length_eq (s k : Z) :
  10 ^ (k - 1) <= s < 10 ^ k -> 1 <= k -> Z.of_nat (String.length (render s)) = k.
Proof.
  intros [Hlo Hhi] Hk.
  assert (1 <= s) as Hs by (pose proof (Z.pow_pos_nonneg 10 (k - 1)); lia).
  pose proof (render_length s Hs) as [Hl Hh].
  destruct (render_spec s ltac:(lia)) as (_ & Hlen & _).
  set (L := Z.of_nat (String.length (render s))) in *.
  assert (L - 1 < k) by (apply pow10_lt_inv; lia).
  assert (k - 1 < L) by (apply pow10_lt_inv; lia).
  lia.
Qed.

(** The exact expansion reads back as the number. *)
Lemma exact_sound (m : positive) (e : Z) :
  let '(s, n, k) := Number.exact m e in
  1 <= k /\ 10 ^ (k - 1) <= s < 10 ^ k /\ Number.rounds_to m e s (n - k) = true.
Proof.
  unfold Number.exact.
  set (s := Zpos m * 2 ^ Z.max e 0 * 5 ^ Z.max (- e) 0).
  assert (0 < 2 ^ Z.max e 0) by (apply Z.pow_pos_nonneg; lia).
  assert (0 < 5 ^ Z.max (- e) 0) by (apply Z.pow_pos_nonneg; lia).
  assert (1 <= s) as Hs by (subst s; nia).
  destruct (render_spec s ltac:(lia)) as (_ & Hlen & _).
  split; [lia|]. split; [apply render_length; exact Hs|].
  replace (Z.of_nat (String.length (render s)) + Z.min e 0
           - Z.of_nat (String.length (render s))) with (Z.min e 0) by lia.
  unfold Number.rounds_to, Number.compare_scaled.
  match goal with
  | |- context [if ?c then 1 else 2] => set (below := if c then 1 else 2)
  end.
  assert (1 <= below <= 2) as Hbelow
      by (subst below; match goal with |- context [if ?c then _ else _] => destruct c end; lia).
  replace (Z.max (Z.min e 0) 0) with 0 by lia.
  replace (Z.max (- Z.min e 0) 0) with (Z.max (- e) 0) by lia.
  change (10 ^ 0) with 1. rewrite Z.mul_1_r.
  set (C := 2 ^ Z.max (e - 2) 0 * 2 ^ Z.max (- e) 0 * 5 ^ Z.max (- e) 0).
  assert (0 < C) as HC by (subst C; repeat apply Z.mul_pos_pos; apply Z.pow_pos_nonneg; lia).
  assert (s * 2 ^ Z.max (- (e - 2)) 0 = 4 * Zpos m * C) as ->.
  { subst s C.
    assert (2 ^ Z.max e 0 * 2 ^ Z.max (- (e - 2)) 0
            = 4 * (2 ^ Z.max (e - 2) 0 * 2 ^ Z.max (- e) 0)) as Hpow.
    { change 4 with (2 ^ 2). rewrite <- !Z.pow_add_r by lia. f_equal. lia. }
    nia. }
  assert (forall W, W * 2 ^ Z.max (e - 2) 0 * 10 ^ Z.max (- e) 0 = W * C) as Hrhs.
  { intros W. subst C. change 10 with (2 * 5). rewrite Z.pow_mul_l. lia. }
  rewrite !Hrhs.
  destruct (Z.compare_spec (4 * Zpos m * C) ((4 * Zpos m - below) * C));
    destruct (Z.compare_spec (4 * Zpos m * C) ((4 * Zpos m + 2) * C));
    try reflexivity; nia.
Qed.

(** What the search returns reads back as the number, whatever the number. *)
Lemma shortest_from_sound (fuel : nat) (m : positive) (e k0 : Z) :
  1 <= k0 ->
  let '(s, n, k) := Number.shortest_from fuel m e k0 in
  1 <= k /\ 10 ^ (k - 1) <= s < 10 ^ k /\ Number.rounds_to m e s (n - k) = true.
Proof.
  revert k0. induction fuel as [|f IH]; intros k0 Hk0; cbn [Number.shortest_from].
  - apply exact_sound.
  - destruct (Number.closest m e k0 (Number.candidates m e k0)) as [[s n]|] eqn:Hc.
    + apply closest_In, candidates_admissible in Hc. split; [lia|exact Hc].
    + apply IH. lia.
Qed.

Lemma compare_scaled_shift (a i q b f : Z) :
  0 <= i ->
  Number.compare_scaled (a * 10 ^ i) (q - i) b f = Number.compare_scaled a q b f.
Proof.
  intros Hi. unfold Number.compare_scaled.
  assert (10 ^ i * 10 ^ Z.max (q - i) 0 * 10 ^ Z.max (- q) 0
          = 10 ^ Z.max q 0 * 10 ^ Z.max (- (q - i)) 0) as Hpow.
  { rewrite <- !Z.pow_add_r by lia. f_equal. lia. }
  assert (0 < 10 ^ Z.max (- q) 0) as H1 by (apply Z.pow_pos_nonneg; lia).
  assert (0 < 10 ^ Z.max (- (q - i)) 0) as H2 by (apply Z.pow_pos_nonneg; lia).
  set (F1 := 2 ^ Z.max (- f) 0). set (F2 := 2 ^ Z.max f 0).
  set (X1 := 10 ^ i) in *. set (X2 := 10 ^ Z.max (q - i) 0) in *.
  set (X3 := 10 ^ Z.max (- q) 0) in *. set (Y1 := 10 ^ Z.max q 0) in *.
  set (Y2 := 10 ^ Z.max (- (q - i)) 0) in *.
  rewrite (Zmult_compare_compat_r (a * X1 * X2 * F1) _ X3) by lia.
  rewrite (Zmult_compare_compat_r (a * Y1 * F1) _ Y2) by lia.
  replace (a * X1 * X2 * F1 * X3) with (a * F1 * (X1 * X2 * X3)) by ring.
  rewrite Hpow. f_equal; ring.
Qed.

Lemma rounds_to_rescale (m : positive) (e s q v a b d : Z) :
  Number.rounds_to m e s q = true ->
  0 <= a -> 0 <= b -> b - a = q + d -> v * 10 ^ a = s * 10 ^ b ->
  Number.rounds_to m e v (- d) = true.
Proof.
  intros Hr Ha Hb Hab Hv. unfold Number.rounds_to in *.
  assert (forall W f, Number.compare_scaled v (- d) W f = Number.compare_scaled s q W f) as Heq.
  { intros W f.
    rewrite <- (compare_scaled_shift v a (- d) W f Ha), Hv.
    replace (- d - a) with (q - b) by lia. apply compare_scaled_shift. exact Hb. }
  rewrite !Heq. exact Hr.
Qed.

Lemma digits_value_pad (k : nat) (s : string) :
  digits_value 10 0 (String "0" (ethers.zeros k +:+ s)) = digits_value 10 0 s.
Proof.
  cbn [digits_value]. change (digit_value "0") with 0.
  rewrite digits_value_app, digits_value_zeros. reflexivity.
Qed.

(** The text of a finite number, read at [d] decimals: when [fromString]
    returns, the text was in decimal notation, and the integer is the
    decimal [s * 10^(n-k)] scaled by [10^d], with the sign. *)
Lemma fromString_notation (sign : bool) (s n k : Z) (d : nat) (v : Z) :
  1 <= k -> 10 ^ (k - 1) <= s < 10 ^ k ->
  ethers.fromString ((if sign then "-" else "") +:+ Number.notation s n k) d = ret v ->
  exists a b,
    0 <= a /\ 0 <= b /\ b - a = n - k + Z.of_nat d
    /\ Z.abs v * 10 ^ a = s * 10 ^ b
    /\ v = (if sign then - Z.abs v else Z.abs v).
Proof.
  intros Hk Hs.
  assert (1 <= s) as Hs1 by (pose proof (Z.pow_pos_nonneg 10 (k - 1)); lia).
  destruct (render_spec s ltac:(lia)) as (Hdig & Hlen & Hval).
  pose proof (render_length_eq s k Hs Hk) as HL.
  unfold Number.notation.
  destruct ((k <=? n) && (n <=? 21)) eqn:HA.
  { (* the digits, then zeros *)
    apply andb_prop in HA as [Hkn%Z.leb_le _].
    set (W := render s +:+ ethers.zeros (Z.to_nat (n - k))).
    assert (forall_string is_digit W = true) as HW
        by (subst W; rewrite forall_string_app, Hdig, zeros_digits; reflexivity).
    assert (0 < String.length W)%nat as HWl by (subst W; rewrite length_append; lia).
    replace ((if sign then "-" else "") +:+ W)
      with ((if sign then "-" else "") +:+ W +:+ "" +:+ "")
      by (rewrite !append_nil, append_empty; reflexivity).
    intros Hfrom.
    destruct (fromString_matched _ d sign W "" v
                (match_fixed_signed sign W "" "" HW HWl eq_refl (or_intror (conj eq_refl eq_refl)))
                HW HWl eq_refl Hfrom) as [Heq Hsign].
    exists 0, (n - k + Z.of_nat d). split; [lia|]. split; [lia|]. split; [lia|].
    split; [|exact Hsign].
    cbn [String.length] in Heq. rewrite append_empty in Heq.
    change (10 ^ Z.of_nat 0) with 1 in Heq. change (10 ^ 0) with 1.
    rewrite Z.mul_1_r in *. rewrite Heq.
    subst W. rewrite digits_value_app, Hval, digits_value_zeros, Z2Nat.id by lia.
    rewrite Z.pow_add_r by lia. lia. }
  destruct ((0 <? n) && (n <=? 21)) eqn:HB.
  { (* the point inside the digits *)
    apply andb_prop in HB as [Hn0%Z.ltb_lt Hn21%Z.leb_le].
    assert (n < k) as Hnk.
    { apply Bool.andb_false_iff in HA as [HA|HA]; [apply Z.leb_gt in HA; lia|].
      apply Z.leb_gt in HA. lia. }
    destruct (split_at (Z.to_nat n) (render s) ltac:(lia)) as [Hsplit HlenW].
    set (W := substring 0 (Z.to_nat n) (render s)) in *.
    set (F := slice (Z.to_nat n) (render s)) in *.
    assert (forall_string is_digit W = true /\ forall_string is_digit F = true) as [HW HF].
    { rewrite Hsplit, forall_string_app in Hdig. apply andb_prop in Hdig. exact Hdig. }
    assert (String.length F = Z.to_nat (k - n)) as HlenF
        by (subst F; rewrite slice_size; lia).
    intros Hfrom.
    destruct (fromString_matched _ d sign W F v
                (match_fixed_signed sign W "." F HW ltac:(lia) HF (or_introl eq_refl))
                HW ltac:(lia) HF Hfrom) as [Heq Hsign].
    exists (k - n), (Z.of_nat d). split; [lia|]. split; [lia|]. split; [lia|].
    split; [|exact Hsign].
    rewrite <- Hsplit, Hval, HlenF, Z2Nat.id in Heq by lia. exact Heq. }
  destruct ((-6 <? n) && (n <=? 0)) eqn:HC.
  { (* zero, the point, zeros, the digits *)
    apply andb_prop in HC as [_ Hn0%Z.leb_le].
    set (F := ethers.zeros (Z.to_nat (- n)) +:+ render s).
    assert (forall_string is_digit F = true) as HF
        by (subst F; rewrite forall_string_app, zeros_digits, Hdig; reflexivity).
    change ((if sign then "-" else "") +:+ "0." +:+ F)
      with ((if sign then "-" else "") +:+ "0" +:+ "." +:+ F).
    intros Hfrom.
    destruct (fromString_matched _ d sign "0" F v
                (match_fixed_signed sign "0" "." F eq_refl ltac:(cbn [String.length]; lia) HF
                   (or_introl eq_refl))
                eq_refl ltac:(cbn [String.length]; lia) HF Hfrom) as [Heq Hsign].
    exists (k - n), (Z.of_nat d). split; [lia|]. split; [lia|]. split; [lia|].
    split; [|exact Hsign].
    rewrite append_cons, append_nil in Heq. subst F.
    rewrite digits_value_pad, Hval, length_append, length_zeros in Heq.
    rewrite <- Heq. do 2 f_equal. lia. }
  (* exponent notation *)
  intros Hfrom. exfalso. revert Hfrom. unfold ethers.fromString.
  set (exponent := (if n - 1 <? 0 then "-" else "+") +:+ render (Z.abs (n - 1))).
  destruct (Z.eqb_spec k 1) as [Hk1|Hk1].
  - replace ((if sign then "-" else "") +:+ render s +:+ "e" +:+ exponent)
      with ((if sign then "-" else "") +:+ render s +:+ "" +:+ "" +:+ String "e" exponent)
      by (rewrite !append_cons, !append_nil; reflexivity).
    rewrite (match_fixed_exponent sign (render s) "" "" exponent Hdig Hlen eq_refl
               (or_intror (conj eq_refl eq_refl))).
    discriminate.
  - destruct (split_at 1 (render s) ltac:(lia)) as [Hsplit HlenW].
    set (W := substring 0 1 (render s)) in *. set (F := slice 1 (render s)) in *.
    assert (forall_string is_digit W = true /\ forall_string is_digit F = true) as [HW HF].
    { rewrite Hsplit, forall_string_app in Hdig. apply andb_prop in Hdig. exact Hdig. }
    replace ((if sign then "-" else "") +:+ W +:+ "." +:+ F +:+ "e" +:+ exponent)
      with ((if sign then "-" else "") +:+ W +:+ "." +:+ F +:+ String "e" exponent)
      by (rewrite !append_cons, !append_nil; reflexivity).
    rewrite (match_fixed_exponent sign W "." F exponent HW ltac:(lia) HF (or_introl eq_refl)).
    discriminate.
Qed.

(** Whatever number is passed, when [fromString] returns for its text, the
    integer denotes the number at the decimal count. *)
Lemma fromString_denotes (x : SpecFloat.spec_float) (d : nat) (v : Z) :
  ethers.fromString (Number_toString x) d = ret v -> denotes x v d = true.
Proof.
  destruct x as [sign|sign| |sign m e]; cbn [Number_toString denotes].
  - intros Hfrom.
    destruct (fromString_matched "0" d false "0" "" v eq_refl eq_refl
                ltac:(cbn [String.length]; lia) eq_refl Hfrom) as [Heq _].
    cbn [String.length] in Heq. change (digits_value 10 0 ("0" +:+ "")) with 0 in Heq.
    change (10 ^ Z.of_nat 0) with 1 in Heq. apply Z.eqb_eq. lia.
  - unfold ethers.fromString.
    destruct sign;
      [change (ethers.match_fixed "-Infinity") with (@None (bool * string * string))
      |change (ethers.match_fixed "Infinity") with (@None (bool * string * string))];
      discriminate.
  - unfold ethers.fromString.
    change (ethers.match_fixed "NaN") with (@None (bool * string * string)). discriminate.
  - pose proof (shortest_from_sound 17 m e 1 ltac:(lia)) as Hsound.
    fold (Number.shortest m e) in Hsound.
    destruct (Number.shortest m e) as [[s n] k]. destruct Hsound as (Hk & Hs & Hr).
    intros Hfrom.
    destruct (fromString_notation sign s n k d v Hk Hs Hfrom)
      as (a & b & Ha & Hb & Hab & Heq & Hsign).
    assert (0 < Z.abs v) as Hpos.
    { assert (0 < s * 10 ^ b)
        by (apply Z.mul_pos_pos; [pose proof (Z.pow_pos_nonneg 10 (k - 1)); lia
                                 |apply Z.pow_pos_nonneg; lia]).
      assert (0 < 10 ^ a) by (apply Z.pow_pos_nonneg; lia). nia. }
    apply andb_true_intro. split.
    + destruct sign; [apply Z.ltb_lt|apply Z.ltb_lt]; lia.
    + apply (rounds_to_rescale m e s (n - k) (Z.abs v) a b (Z.of_nat d)); assumption.
Qed.

Lemma digits_value_bound (s : string) :
  forall_string is_digit s = true ->
  0 <= digits_value 10 0 s < 10 ^ Z.of_nat (String.length s).
Proof.
  intros Hs. split; [apply digits_value_nonneg; [exact Hs|lia]|].
  induction s as [|c s IH]; [cbn; lia|].
  cbn [forall_string] in Hs. apply andb_prop in Hs as [Hc Hs].
  cbn [digits_value String.length]. rewrite digits_value_shift.
  pose proof (is_digit_code c Hc) as Hcode.
  assert (digit_value c <= 9) as Hd by (unfold digit_value; rewrite Hc; lia).
  assert (0 <= digit_value c) as Hd0 by (unfold digit_value; rewrite Hc; lia).
  specialize (IH Hs).
  rewrite Nat2Z.inj_succ, Z.pow_succ_r by lia.
  assert (0 < 10 ^ Z.of_nat (String.length s)) by (apply Z.pow_pos_nonneg; lia). nia.
Qed.

Lemma digits_value_zero_iff (s : string) :
  forall_string is_digit s = true ->
  (digits_value 10 0 s = 0 <-> forall_string ethers.is_zero_char s = true).
Proof.
  intros Hs. split.
  - induction s as [|c s IH]; [reflexivity|].
    cbn [forall_string] in Hs. apply andb_prop in Hs as [Hc Hs].
    cbn [digits_value forall_string]. rewrite digits_value_shift.
    pose proof (is_digit_code c Hc) as Hcode.
    pose proof (digits_value_bound s Hs) as [Hlo _].
    assert (0 < 10 ^ Z.of_nat (String.length s)) by (apply Z.pow_pos_nonneg; lia).
    unfold digit_value at 1. rewrite Hc. intros Hzero.
    assert (code c = 48) as Hc48 by nia.
    unfold ethers.is_zero_char at 1. rewrite Hc48. cbn [Z.eqb andb].
    apply IH; [exact Hs|]. rewrite Hc48 in Hzero. lia.
  - intros Hz. rewrite (zero_chars s Hz), digits_value_zeros. lia.
Qed.

(** What [fromString] does with a text that matches. *)
Lemma fromString_forward (value : string) (d : nat) (neg : bool) (W F : string) :
  ethers.match_fixed value = Some (neg, W, F) ->
  forall_string is_digit W = true -> (0 < String.length W)%nat ->
  forall_string is_digit F = true ->
  let beyond := Z.of_nat (String.length F) - Z.of_nat d in
  let V := digits_value 10 0 (W +:+ F) in
  ethers.fromString value d
  = if beyond <=? 0 then ethers.checkValue ((if neg then -1 else 1) * (V * 10 ^ (- beyond)))
    else if V mod 10 ^ beyond =? 0
         then ethers.checkValue ((if neg then -1 else 1) * (V / 10 ^ beyond))
         else throw NumericFault.
Proof.
  intros Hmatch HW Hlen HF. cbv zeta. unfold ethers.fromString. rewrite Hmatch.
  destruct (Nat.eqb_spec (String.length W + String.length F) 0) as [?|_]; [lia|].
  assert (match W with EmptyString => "0" | String _ _ => W end = W) as ->
      by (destruct W; [cbn [String.length] in Hlen; lia|reflexivity]).
  set (padded := F +:+ ethers.zeros (d - String.length F)).
  assert (String.length padded = (String.length F + (d - String.length F))%nat) as Hpl
      by (subst padded; rewrite length_append, length_zeros; reflexivity).
  assert (forall_string is_digit padded = true) as Hp
      by (subst padded; rewrite forall_string_app, HF, zeros_digits; reflexivity).
  destruct (split_at d padded ltac:(lia)) as [Hsplit HlenA].
  set (A := substring 0 d padded) in *. set (B := slice d padded) in *.
  assert (forall_string is_digit A = true /\ forall_string is_digit B = true) as [HA HB].
  { rewrite Hsplit, forall_string_app in Hp. apply andb_prop in Hp. exact Hp. }
  assert (String.length B = (String.length F - d)%nat) as HlenB
      by (subst B; rewrite slice_size; lia).
  set (V := digits_value 10 0 (W +:+ F)).
  set (VA := digits_value 10 0 (W +:+ A)).
  assert (digits_value 10 0 (W +:+ padded) = V * 10 ^ Z.of_nat (d - String.length F)) as HVp.
  { subst padded V. rewrite <- append_assoc, digits_value_app, digits_value_zeros. reflexivity. }
  assert (digits_value 10 0 (W +:+ padded)
          = VA * 10 ^ Z.of_nat (String.length F - d) + digits_value 10 0 B) as HVs.
  { rewrite Hsplit at 1. rewrite <- append_assoc, digits_value_app, digits_value_shift, HlenB.
    reflexivity. }
  pose proof (digits_value_bound B HB) as HBb. rewrite HlenB in HBb.
  assert ((if neg then - VA else VA) = (if neg then -1 else 1) * VA) as Hneg
      by (destruct neg; lia).
  rewrite Hneg.
  destruct (Z.leb_spec (Z.of_nat (String.length F) - Z.of_nat d) 0) as [Hle|Hgt].
  - assert (B = EmptyString) as HBe
        by (destruct B; [reflexivity|cbn [String.length] in HlenB; lia]).
    rewrite HBe. cbn [forall_string negb].
    replace (String.length F - d)%nat with 0%nat in HVs by lia.
    rewrite HBe in HVs. change (digits_value 10 0 "") with 0 in HVs.
    change (10 ^ Z.of_nat 0) with 1 in HVs.
    do 2 f_equal. replace (- (Z.of_nat (String.length F) - Z.of_nat d))
      with (Z.of_nat (d - String.length F)) by lia. lia.
  - replace (d - String.length F)%nat with 0%nat in HVp by lia.
    change (10 ^ Z.of_nat 0) with 1 in HVp.
    replace (Z.of_nat (String.length F - d)) with (Z.of_nat (String.length F) - Z.of_nat d)
      in * by lia.
    set (P := 10 ^ (Z.of_nat (String.length F) - Z.of_nat d)) in *.
    assert (0 < P) as HP by (subst P; apply Z.pow_pos_nonneg; lia).
    assert (V = VA * P + digits_value 10 0 B) as HV by lia.
    assert (V mod P = digits_value 10 0 B) as Hmod.
    { rewrite HV, Z.add_comm, Z.mod_add by lia. apply Z.mod_small. lia. }
    assert (V / P = VA) as Hdiv.
    { rewrite HV, Z.add_comm, Z.div_add by lia. rewrite Z.div_small by lia. lia. }
    rewrite Hmod, Hdiv.
    destruct (Z.eqb_spec (digits_value 10 0 B) 0) as [Hz|Hnz].
    + apply (digits_value_zero_iff B HB) in Hz. rewrite Hz. reflexivity.
    + destruct (forall_string ethers.is_zero_char B) eqn:HzB; [|reflexivity].
      exfalso. apply Hnz. apply (digits_value_zero_iff B HB). exact HzB.
Qed.

(** The text of a finite number, read at [d] decimals. *)
Lemma fromString_scaled (sign : bool) (s n k : Z) (d : nat) :
  1 <= k -> 10 ^ (k - 1) <= s < 10 ^ k ->
  ethers.fromString ((if sign then "-" else "") +:+ Number.notation s n k) d
  = scaled sign s n k d.
Proof.
  intros Hk Hs.
  assert (1 <= s) as Hs1 by (pose proof (Z.pow_pos_nonneg 10 (k - 1)); lia).
  destruct (render_spec s ltac:(lia)) as (Hdig & Hlen & Hval).
  pose proof (render_length_eq s k Hs Hk) as HL.
  unfold Number.notation, scaled.
  destruct ((k <=? n) && (n <=? 21)) eqn:HA.
  { apply andb_prop in HA as [Hkn%Z.leb_le Hn21%Z.leb_le].
    destruct (Z.leb_spec n (-6)); [lia|]. destruct (Z.ltb_spec 21 n); [lia|]. cbn [orb].
    set (W := render s +:+ ethers.zeros (Z.to_nat (n - k))).
    assert (forall_string is_digit W = true) as HW
        by (subst W; rewrite forall_string_app, Hdig, zeros_digits; reflexivity).
    assert (0 < String.length W)%nat as HWl by (subst W; rewrite length_append; lia).
    replace ((if sign then "-" else "") +:+ W)
      with ((if sign then "-" else "") +:+ W +:+ "" +:+ "")
      by (rewrite !append_nil, append_empty; reflexivity).
    rewrite (fromString_forward _ d sign W ""
               (match_fixed_signed sign W "" "" HW HWl eq_refl (or_intror (conj eq_refl eq_refl)))
               HW HWl eq_refl).
    cbn [String.length]. cbv zeta. rewrite append_empty.
    destruct (Z.leb_spec (Z.of_nat 0 - Z.of_nat d) 0); [|lia].
    destruct (Z.leb_spec (k - n - Z.of_nat d) 0); [|lia].
    do 2 f_equal. subst W.
    rewrite digits_value_app, Hval, digits_value_zeros, Z2Nat.id by lia.
    rewrite <- Z.mul_assoc, <- Z.pow_add_r by lia. do 2 f_equal. lia. }
  destruct ((0 <? n) && (n <=? 21)) eqn:HB.
  { apply andb_prop in HB as [Hn0%Z.ltb_lt Hn21%Z.leb_le].
    assert (n < k) as Hnk.
    { apply Bool.andb_false_iff in HA as [HA|HA]; [apply Z.leb_gt in HA; lia|].
      apply Z.leb_gt in HA. lia. }
    destruct (Z.leb_spec n (-6)); [lia|]. destruct (Z.ltb_spec 21 n); [lia|]. cbn [orb].
    destruct (split_at (Z.to_nat n) (render s) ltac:(lia)) as [Hsplit HlenW].
    set (W := substring 0 (Z.to_nat n) (render s)) in *.
    set (F := slice (Z.to_nat n) (render s)) in *.
    assert (forall_string is_digit W = true /\ forall_string is_digit F = true) as [HW HF].
    { rewrite Hsplit, forall_string_app in Hdig. apply andb_prop in Hdig. exact Hdig. }
    assert (String.length F = Z.to_nat (k - n)) as HlenF
        by (subst F; rewrite slice_size; lia).
    rewrite (fromString_forward _ d sign W F
               (match_fixed_signed sign W "." F HW ltac:(lia) HF (or_introl eq_refl))
               HW ltac:(lia) HF).
    cbv zeta. rewrite <- Hsplit, Hval, HlenF, Z2Nat.id by lia. reflexivity. }
  destruct ((-6 <? n) && (n <=? 0)) eqn:HC.
  { apply andb_prop in HC as [Hn6%Z.ltb_lt Hn0%Z.leb_le].
    destruct (Z.leb_spec n (-6)); [lia|]. destruct (Z.ltb_spec 21 n); [lia|]. cbn [orb].
    set (F := ethers.zeros (Z.to_nat (- n)) +:+ render s).
    assert (forall_string is_digit F = true) as HF
        by (subst F; rewrite forall_string_app, zeros_digits, Hdig; reflexivity).
    change ((if sign then "-" else "") +:+ "0." +:+ F)
      with ((if sign then "-" else "") +:+ "0" +:+ "." +:+ F).
    rewrite (fromString_forward _ d sign "0" F
               (match_fixed_signed sign "0" "." F eq_refl ltac:(cbn [String.length]; lia) HF
                  (or_introl eq_refl))
               eq_refl ltac:(cbn [String.length]; lia) HF).
    cbv zeta. rewrite append_cons, append_nil. subst F.
    rewrite digits_value_pad, Hval, length_append, length_zeros.
    replace (Z.of_nat (Z.to_nat (- n) + String.length (render s)) - Z.of_nat d)
      with (k - n - Z.of_nat d) by lia.
    reflexivity. }
  (* exponent notation *)
  assert ((n <=? -6) || (21 <? n) = true) as ->.
  { apply Bool.andb_false_iff in HB, HC. apply Bool.orb_true_iff.
    destruct (Z.leb_spec n (-6)); [left; reflexivity|right].
    destruct HC as [HC|HC]; [apply Z.ltb_ge in HC; lia|apply Z.leb_gt in HC].
    destruct HB as [HB|HB]; [apply Z.ltb_ge in HB; lia|apply Z.leb_gt in HB].
    apply Z.ltb_lt. lia. }
  unfold ethers.fromString.
  set (exponent := (if n - 1 <? 0 then "-" else "+") +:+ render (Z.abs (n - 1))).
  destruct (Z.eqb_spec k 1) as [Hk1|Hk1].
  - replace ((if sign then "-" else "") +:+ render s +:+ "e" +:+ exponent)
      with ((if sign then "-" else "") +:+ render s +:+ "" +:+ "" +:+ String "e" exponent)
      by (rewrite !append_cons, !append_nil; reflexivity).
    rewrite (match_fixed_exponent sign (render s) "" "" exponent Hdig Hlen eq_refl
               (or_intror (conj eq_refl eq_refl))).
    reflexivity.
  - destruct (split_at 1 (render s) ltac:(lia)) as [Hsplit HlenW].
    set (W := substring 0 1 (render s)) in *. set (F := slice 1 (render s)) in *.
    assert (forall_string is_digit W = true /\ forall_string is_digit F = true) as [HW HF].
    { rewrite Hsplit, forall_string_app in Hdig. apply andb_prop in Hdig. exact Hdig. }
    replace ((if sign then "-" else "") +:+ W +:+ "." +:+ F +:+ "e" +:+ exponent)
      with ((if sign then "-" else "") +:+ W +:+ "." +:+ F +:+ String "e" exponent)
      by (rewrite !append_cons, !append_nil; reflexivity).
    rewrite (match_fixed_exponent sign W "." F exponent HW ltac:(lia) HF (or_introl eq_refl)).
    reflexivity.
Qed.


(** C8 (as stated, refuted): the amount is a floating-point number, and
    nothing rounds it to the decimal count of the token.  The sum 0.1 + 0.2
    of two line items is the number 0.30000000000000004: on USDC its
    conversion is refused with a numeric fault (eleven digits too many),
    and on cUSD the excess of the sum enters the integer, 40 smallest
    units above the 3 * 10^17 that the number 0.3 gives. *)
Lemma parseAmount_carries_float_error :
  sum_of_two_items = SpecFloat.S754_finite false 5404319552844596 (-54)
  /\ Number_toString sum_of_two_items = "0.30000000000000004"
  /\ parseAmount sum_of_two_items "USDC" = throw NumericFault
  /\ parseAmount sum_of_two_items "cUSD" = ret 300000000000000040
  /\ parseAmount three_tenths "cUSD" = ret 300000000000000000
  /\ parseAmount three_tenths "USDC" = ret 300000.
Proof. conjuncts; vm_compute; reflexivity. Qed.

(** C8 (amended): the conversion is exact on the decimal text of the
    number, not on the number.  [parseAmount] hands the shortest decimal
    text of the amount to [parseUnits] with the decimal count of the token,
    6 for USDC and 18 for cUSD.  A whole amount [n] below 2^53 becomes
    exactly [n * 10^6] smallest units of USDC and [n * 10^18] of cUSD, and
    100 USD on base 100_000_000.  For every finite number, with [s], [n]
    and [k] the digits, the exponent and the number of digits of its text,
    the result is the decimal scaled by the power of ten of the token when
    the text is in decimal notation and has no digit other than zero beyond
    the decimal count, a numeric fault when it has one, and an invalid
    argument when the text is in exponent notation; nothing is rounded.  So
    whatever is returned, taken at the decimals of the token, is a decimal
    that reads back as the number passed in.  NaN and the infinities are
    refused, a zero gives 0. *)
Theorem parseAmount_exact_on_text (n : Z) :
  0 <= n < 2 ^ 53 ->
  TOKEN_DECIMALS (symbol (stablecoin (NETWORKS base))) = Own 6
  /\ TOKEN_DECIMALS (symbol (stablecoin (NETWORKS celo))) = Own 18
  /\ decimals (stablecoin (NETWORKS base)) = 6%nat
  /\ decimals (stablecoin (NETWORKS celo)) = 18%nat
  /\ parseAmount (Number.of_Z n) "USDC" = ret (n * 10 ^ 6)
  /\ parseAmount (Number.of_Z n) "cUSD" = ret (n * 10 ^ 18)
  /\ parseAmount (Number.of_Z 100) (symbol (stablecoin (NETWORKS base))) = ret 100000000
  /\ (forall sign m e tokenSymbol d,
        TOKEN_DECIMALS tokenSymbol = Own d ->
        parseAmount (SpecFloat.S754_finite sign m e) tokenSymbol
        = let '(s, n, k) := Number.shortest m e in scaled sign s n k d)
  /\ (forall x tokenSymbol d v,
        TOKEN_DECIMALS tokenSymbol = Own d ->
        parseAmount x tokenSymbol = ret v -> denotes x v d = true)
  /\ (forall tokenSymbol d sign,
        TOKEN_DECIMALS tokenSymbol = Own d ->
        parseAmount SpecFloat.S754_nan tokenSymbol = throw InvalidArgument
        /\ parseAmount (SpecFloat.S754_infinity sign) tokenSymbol = throw InvalidArgument
        /\ parseAmount (SpecFloat.S754_zero sign) tokenSymbol = ret 0).
Proof.
  intros [Hlo Hhi]. conjuncts; try reflexivity.
  - unfold parseAmount. change (TOKEN_DECIMALS "USDC") with (Own 6). cbv beta iota zeta.
    rewrite Number_toString_whole by lia. apply (parseUnits_whole n 6); lia.
  - unfold parseAmount. change (TOKEN_DECIMALS "cUSD") with (Own 18). cbv beta iota zeta.
    rewrite Number_toString_whole by lia. apply (parseUnits_whole n 18); lia.
  - intros sign m e tokenSymbol d Hown. unfold parseAmount. rewrite Hown.
    unfold ethers.parseUnits. change (default 18%nat (Some d)) with d.
    cbn [Number_toString].
    pose proof (shortest_from_sound 17 m e 1 ltac:(lia)) as Hsound.
    fold (Number.shortest m e) in Hsound.
    destruct (Number.shortest m e) as [[s n'] k]. destruct Hsound as (Hk & Hs & _).
    apply fromString_scaled; assumption.
  - intros x tokenSymbol d v Hown. unfold parseAmount. rewrite Hown.
    unfold ethers.parseUnits. change (default 18%nat (Some d)) with d.
    apply fromString_denotes.
  - intros tokenSymbol d sign Hown. unfold parseAmount. rewrite Hown.
    unfold ethers.parseUnits. change (default 18%nat (Some d)) with d.
    cbn [Number_toString]. unfold ethers.fromString. conjuncts.
    + change (ethers.match_fixed "NaN") with (@None (bool * string * string)). reflexivity.
    + destruct sign;
        [change (ethers.match_fixed "-Infinity") with (@None (bool * string * string))
        |change (ethers.match_fixed "Infinity") with (@None (bool * string * string))];
        reflexivity.
    + fold (ethers.fromString "0" d).
      rewrite (fromString_forward "0" d false "0" "" eq_refl eq_refl
                 ltac:(cbn [String.length]; lia) eq_refl).
      cbn [String.length]. cbv zeta.
      destruct (Z.leb_spec (Z.of_nat 0 - Z.of_nat d) 0); [|lia].
      change (digits_value 10 0 ("0" +:+ "")) with 0. reflexivity.
Qed.

Lemma parseAmount_exact_on_text_witness :
  TOKEN_DECIMALS (symbol (stablecoin (NETWORKS base))) = Own 6
  /\ TOKEN_DECIMALS (symbol (stablecoin (NETWORKS celo))) = Own 18
  /\ decimals (stablecoin (NETWORKS base)) = 6%nat
  /\ decimals (stablecoin (NETWORKS celo)) = 18%nat
  /\ parseAmount (Number.of_Z 100) "USDC" = ret (100 * 10 ^ 6)
  /\ parseAmount (Number.of_Z 100) "cUSD" = ret (100 * 10 ^ 18)
  /\ parseAmount (Number.of_Z 100) (symbol (stablecoin (NETWORKS base))) = ret 100000000
  /\ (forall sign m e tokenSymbol d,
        TOKEN_DECIMALS tokenSymbol = Own d ->
        parseAmount (SpecFloat.S754_finite sign m e) tokenSymbol
        = let '(s, n, k) := Number.shortest m e in scaled sign s n k d)
  /\ (forall x tokenSymbol d v,
        TOKEN_DECIMALS tokenSymbol = Own d ->
        parseAmount x tokenSymbol = ret v -> denotes x v d = true)
  /\ (forall tokenSymbol d sign,
        TOKEN_DECIMALS tokenSymbol = Own d ->
        parseAmount SpecFloat.S754_nan tokenSymbol = throw InvalidArgument
        /\ parseAmount (SpecFloat.S754_infinity sign) tokenSymbol = throw InvalidArgument
        /\ parseAmount (SpecFloat.S754_zero sign) tokenSymbol = ret 0).
Proof. apply (parseAmount_exact_on_text 100). lia. Defined.


(** ** The mark-paid update *)

Lemma markPaid_lookup (now : Z) (invoices : gmap string Db.Invoice)
    (invoiceId txHash : string) :
  Db.markPaid now invoices invoiceId txHash !! invoiceId
  = (fun row => Db.update_updated_at_column now (Db.set_paid txHash row))
      <$> invoices !! invoiceId.
Proof. unfold Db.markPaid. apply lookup_alter_eq. Qed.

Lemma markPaid_lookup_other (now : Z) (invoices : gmap string Db.Invoice)
    (invoiceId txHash other : string) :
  other <> invoiceId ->
  Db.markPaid now invoices invoiceId txHash !! other = invoices !! other.
Proof. intros Hne. unfold Db.markPaid. apply lookup_alter_ne. congruence. Qed.

(** The update never writes [paid_at]. *)
Lemma markPaid_paid_at (now : Z) (invoices : gmap string Db.Invoice)
    (invoiceId txHash other : string) :
  Db.paid_at <$> Db.markPaid now invoices invoiceId txHash !! other
  = Db.paid_at <$> invoices !! other.
Proof.
  destruct (decide (other = invoiceId)) as [->|Hne].
  - rewrite markPaid_lookup. destruct (invoices !! invoiceId); reflexivity.
  - rewrite markPaid_lookup_other by assumption. reflexivity.
Qed.

(** C2 (as stated, refuted): on a paid invoice whose stored transaction hash
    is 0xaaaa, the update with the hash 0xbbbb goes through and stores
    0xbbbb; the settled hash is overwritten. *)
Lemma markPaid_overwrites_settled_tx_hash :
  let invoices : gmap string Db.Invoice := {[ "inv-2" := paid_invoice ]} in
  Db.status <$> invoices !! "inv-2" = Some "paid"
  /\ Db.tx_hash <$> invoices !! "inv-2" = Some (Some "0xaaaa")
  /\ Db.tx_hash <$> Db.markPaid 60 invoices "inv-2" "0xbbbb" !! "inv-2"
     = Some (Some "0xbbbb")
  /\ Db.tx_hash <$> Db.markPaid 60 invoices "inv-2" "0xbbbb" !! "inv-2"
     <> Db.tx_hash <$> invoices !! "inv-2".
Proof.
  cbv zeta. rewrite markPaid_lookup, lookup_singleton_eq. cbn.
  conjuncts; try reflexivity. discriminate.
Qed.

(** C2 (amended): the update has no guard.  For every stored invoice,
    whatever its status and stored transaction hash, it stores the supplied
    hash and the status paid, the trigger stamps [updated_at], the other
    columns and the other invoices stay as they are; nothing is raised. *)
Theorem markPaid_unconditional (now : Z) (invoices : gmap string Db.Invoice)
    (invoiceId txHash : string) (row : Db.Invoice) :
  invoices !! invoiceId = Some row ->
  Db.markPaid now invoices invoiceId txHash !! invoiceId
  = Some {| Db.merchant_id := Db.merchant_id row;
            Db.invoice_number := Db.invoice_number row;
            Db.amount := Db.amount row;
            Db.status := "paid";
            Db.due_date := Db.due_date row;
            Db.paid_at := Db.paid_at row;
            Db.tx_hash := Some txHash;
            Db.network := Db.network row;
            Db.updated_at := now |}
  /\ (forall other, other <> invoiceId ->
        Db.markPaid now invoices invoiceId txHash !! other = invoices !! other).
Proof.
  intros Hrow. split.
  - rewrite markPaid_lookup, Hrow. reflexivity.
  - intros other Hne. apply markPaid_lookup_other. assumption.
Qed.

Lemma markPaid_unconditional_witness :
  Db.markPaid 60 {[ "inv-2" := paid_invoice ]} "inv-2" "0xbbbb" !! "inv-2"
  = Some {| Db.merchant_id := Db.merchant_id paid_invoice;
            Db.invoice_number := Db.invoice_number paid_invoice;
            Db.amount := Db.amount paid_invoice;
            Db.status := "paid";
            Db.due_date := Db.due_date paid_invoice;
            Db.paid_at := Db.paid_at paid_invoice;
            Db.tx_hash := Some "0xbbbb";
            Db.network := Db.network paid_invoice;
            Db.updated_at := 60 |}
  /\ (forall other, other <> "inv-2" ->
        Db.markPaid 60 {[ "inv-2" := paid_invoice ]} "inv-2" "0xbbbb" !! other
        = ({[ "inv-2" := paid_invoice ]} : gmap string Db.Invoice) !! other).
Proof.
  apply (markPaid_unconditional 60 {[ "inv-2" := paid_invoice ]} "inv-2" "0xbbbb" paid_invoice).
  vm_compute. reflexivity.
Defined.

(** C3 (the defect): marking a sent invoice, with neither [tx_hash] nor
    [paid_at], as paid stores the status paid and the transaction hash and
    leaves [paid_at] unset. *)
Theorem markPaid_leaves_paid_at_unset :
  Db.markPaid 60 {[ "inv-1" := sent_invoice ]} "inv-1" "0xcccc" !! "inv-1"
  = Some {| Db.merchant_id := "m-1"; Db.invoice_number := "INV-1"; Db.amount := 100;
            Db.status := "paid"; Db.due_date := 700; Db.paid_at := None;
            Db.tx_hash := Some "0xcccc"; Db.network := Some "base";
            Db.updated_at := 60 |}.
Proof. rewrite markPaid_lookup, lookup_singleton_eq. reflexivity. Qed.

(** C6 (as stated, refuted): a second update with the same invoice id and
    transaction hash does not leave the same invoice.  The trigger of the
    table stamps [updated_at] at every update, so the row after two calls,
    made at the instants 60 and 61, differs from the row after the first
    call alone. *)
Lemma markPaid_restamps_updated_at :
  let once := Db.markPaid 60 {[ "inv-1" := sent_invoice ]} "inv-1" "0xabc" in
  let twice := Db.markPaid 61 once "inv-1" "0xabc" in
  Db.updated_at <$> once !! "inv-1" = Some 60
  /\ Db.updated_at <$> twice !! "inv-1" = Some 61
  /\ twice !! "inv-1" <> once !! "inv-1"
  /\ twice <> once.
Proof.
  cbv zeta. rewrite !markPaid_lookup, lookup_singleton_eq. cbn.
  conjuncts; try reflexivity; [discriminate|].
  intros Heq.
  apply (f_equal (fun table : gmap string Db.Invoice => table !! "inv-1")) in Heq.
  rewrite !markPaid_lookup, lookup_singleton_eq in Heq. discriminate Heq.
Qed.

(** C6 (amended): a second update with the same invoice id and transaction
    hash changes nothing but the [updated_at] stamp.  For an invoice that
    is stored, the first update leaves it paid with the hash and stamped
    with its instant; the second leaves every column as the first did, but
    for [updated_at], which takes the instant of the second; the other
    invoices are as they were before both.  So the table after the two
    updates is the table after the first exactly when both are made at the
    same instant.  The update has no error path, the first time or the
    second. *)
Theorem markPaid_replay (t1 t2 : Z) (invoices : gmap string Db.Invoice)
    (invoiceId txHash : string) (row : Db.Invoice) :
  invoices !! invoiceId = Some row ->
  Db.markPaid t1 invoices invoiceId txHash !! invoiceId
  = Some {| Db.merchant_id := Db.merchant_id row;
            Db.invoice_number := Db.invoice_number row;
            Db.amount := Db.amount row;
            Db.status := "paid";
            Db.due_date := Db.due_date row;
            Db.paid_at := Db.paid_at row;
            Db.tx_hash := Some txHash;
            Db.network := Db.network row;
            Db.updated_at := t1 |}
  /\ Db.markPaid t2 (Db.markPaid t1 invoices invoiceId txHash) invoiceId txHash !! invoiceId
     = Some {| Db.merchant_id := Db.merchant_id row;
               Db.invoice_number := Db.invoice_number row;
               Db.amount := Db.amount row;
               Db.status := "paid";
               Db.due_date := Db.due_date row;
               Db.paid_at := Db.paid_at row;
               Db.tx_hash := Some txHash;
               Db.network := Db.network row;
               Db.updated_at := t2 |}
  /\ (forall other, other <> invoiceId ->
        Db.markPaid t2 (Db.markPaid t1 invoices invoiceId txHash) invoiceId txHash !! other
        = invoices !! other)
  /\ (Db.markPaid t2 (Db.markPaid t1 invoices invoiceId txHash) invoiceId txHash
      = Db.markPaid t1 invoices invoiceId txHash
      <-> t2 = t1).
Proof.
  intros Hrow.
  assert (Db.markPaid t1 invoices invoiceId txHash !! invoiceId
          = Some (Db.update_updated_at_column t1 (Db.set_paid txHash row))) as Honce
      by (rewrite markPaid_lookup, Hrow; reflexivity).
  assert (Db.markPaid t2 (Db.markPaid t1 invoices invoiceId txHash) invoiceId txHash
            !! invoiceId
          = Some (Db.update_updated_at_column t2
                    (Db.set_paid txHash (Db.update_updated_at_column t1 (Db.set_paid txHash row)))))
    as Htwice by (rewrite markPaid_lookup, Honce; reflexivity).
  conjuncts.
  - rewrite Honce. reflexivity.
  - rewrite Htwice. reflexivity.
  - intros other Hne. rewrite !markPaid_lookup_other by assumption. reflexivity.
  - split.
    + intros Heq.
      apply (f_equal (fun table : gmap string Db.Invoice => table !! invoiceId)) in Heq.
      rewrite Htwice, Honce in Heq. injection Heq as Heq. exact Heq.
    + intros ->. unfold Db.markPaid. rewrite alter_alter_eq. apply alter_ext.
      intros x _. reflexivity.
Qed.

Lemma markPaid_replay_witness :
  Db.markPaid 60 {[ "inv-1" := sent_invoice ]} "inv-1" "0xabc" !! "inv-1"
  = Some {| Db.merchant_id := "m-1"; Db.invoice_number := "INV-1"; Db.amount := 100;
            Db.status := "paid"; Db.due_date := 700; Db.paid_at := None;
            Db.tx_hash := Some "0xabc"; Db.network := Some "base";
            Db.updated_at := 60 |}
  /\ Db.markPaid 61 (Db.markPaid 60 {[ "inv-1" := sent_invoice ]} "inv-1" "0xabc")
       "inv-1" "0xabc" !! "inv-1"
     = Some {| Db.merchant_id := "m-1"; Db.invoice_number := "INV-1"; Db.amount := 100;
               Db.status := "paid"; Db.due_date := 700; Db.paid_at := None;
               Db.tx_hash := Some "0xabc"; Db.network := Some "base";
               Db.updated_at := 61 |}
  /\ (forall other, other <> "inv-1" ->
        Db.markPaid 61 (Db.markPaid 60 {[ "inv-1" := sent_invoice ]} "inv-1" "0xabc")
          "inv-1" "0xabc" !! other
        = ({[ "inv-1" := sent_invoice ]} : gmap string Db.Invoice) !! other)
  /\ (Db.markPaid 61 (Db.markPaid 60 {[ "inv-1" := sent_invoice ]} "inv-1" "0xabc")
        "inv-1" "0xabc"
      = Db.markPaid 60 {[ "inv-1" := sent_invoice ]} "inv-1" "0xabc"
      <-> 61 = 60).
Proof.
  apply (markPaid_replay 60 61 {[ "inv-1" := sent_invoice ]} "inv-1" "0xabc" sent_invoice).
  vm_compute. reflexivity.
Defined.

(** ** The scenario of an invoice of 100 USD on base *)

(** The expected amount is 100_000_000 smallest units of USDC; a successful
    receipt with a Transfer of that amount to the recipient is verified, and
    the update then turns the sent invoice into a paid one with the
    transaction hash.  One unit less is "Amount mismatch", and a receipt
    whose status is 0 is "Transaction failed" whatever its logs. *)
Example invoice_of_100_usd_on_base :
  let good := transfer_log usdc merchant_topic word_100_000_000 in
  let short := transfer_log usdc merchant_topic word_99_999_999 in
  parseAmount (Number.of_Z (Db.amount sent_invoice)) "USDC" = ret 100000000
  /\ Security.verifyPayment (serving (Some (receipt_of [good])) 12)
       "0xabc" merchant 100000000 base = ret true
  /\ Db.status <$> Db.markPaid 60 {[ "inv-1" := sent_invoice ]} "inv-1" "0xabc" !! "inv-1"
     = Some "paid"
  /\ Db.tx_hash <$> Db.markPaid 60 {[ "inv-1" := sent_invoice ]} "inv-1" "0xabc" !! "inv-1"
     = Some (Some "0xabc")
  /\ Blockchain.verifyPayment (serving (Some (receipt_of [short])) 12)
       "0xabc" merchant 100000000 base = throw AmountMismatch
  /\ Blockchain.verifyPayment
       (serving (Some {| status := Some 0; logs := [good]; blockNumber := 10 |}) 12)
       "0xabc" merchant 100000000 base = throw TransactionFailed.
Proof. cbv zeta. conjuncts; vm_compute; reflexivity. Qed.


(** * Further properties *)

(** ** What verifyPayment accepts *)

Lemma Security_accepts_inv (rpc : Rpc) (tx eR : string) (eA : Z) (n : Network) :
  Security.verifyPayment rpc tx eR eA n = ret true ->
  exists r l recipient amount,
    getTransactionReceipt (rpc (rpcUrl (NETWORKS n))) tx = Some r
    /\ status_is_0 r = false
    /\ List.find is_transfer (logs r) = Some l
    /\ decode l = ret (recipient, amount)
    /\ toLowerCase recipient = toLowerCase eR
    /\ eA <= amount.
Proof.
  pose proof (Security_verifyPayment_cases rpc tx eR eA n) as HS.
  cbv zeta in HS. intros Hvp.
  destruct (getTransactionReceipt _ tx) as [r|] eqn:Hr; [|other_error].
  destruct (status_is_0 r) eqn:Hs; [other_error|].
  destruct (List.find _ _) as [l|] eqn:Hl; [|other_error].
  destruct (decode l) as [e|[recipient amount]] eqn:Hd; [other_error|].
  destruct (String.eqb_spec (toLowerCase recipient) (toLowerCase eR)) as [Heq|];
    [|other_error].
  destruct (Z.ltb_spec amount eA); [other_error|].
  exists r, l, recipient, amount. conjuncts; first [reflexivity | assumption].
Qed.

Lemma Blockchain_accepts_inv (rpc : Rpc) (tx eR : string) (eA : Z) (n : Network)
    (v : Blockchain.Verification) :
  Blockchain.verifyPayment rpc tx eR eA n = ret v ->
  exists r l recipient amount,
    getTransactionReceipt (rpc (rpcUrl (NETWORKS n))) tx = Some r
    /\ status_is_0 r = false
    /\ List.find is_transfer (logs r) = Some l
    /\ decode l = ret (recipient, amount)
    /\ toLowerCase recipient = toLowerCase eR
    /\ eA <= amount
    /\ - 2 ^ 511 <= amount < 2 ^ 511
    /\ v = {| Blockchain.verified := true;
              Blockchain.txHash := tx;
              Blockchain.recipient := recipient;
              Blockchain.amount :=
                ethers.fixed_toString amount (decimals (stablecoin (NETWORKS n)));
              Blockchain.blockNumber := blockNumber r;
              Blockchain.confirmations :=
                getBlockNumber (rpc (rpcUrl (NETWORKS n))) - blockNumber r |}.
Proof.
  pose proof (Blockchain_verifyPayment_cases rpc tx eR eA n) as HB.
  cbv zeta in HB. intros Hvp.
  destruct (getTransactionReceipt _ tx) as [r|] eqn:Hr; [|other_error].
  destruct (status_is_0 r) eqn:Hs; [other_error|].
  destruct (List.find _ _) as [l|] eqn:Hl; [|other_error].
  destruct (decode l) as [e|[recipient amount]] eqn:Hd; [other_error|].
  destruct (String.eqb_spec (toLowerCase recipient) (toLowerCase eR)) as [Heq|];
    [|other_error].
  destruct (Z.ltb_spec amount eA); [other_error|].
  cbn [negb] in HB.
  destruct (ethers.formatUnits _ _) as [e|formatted] eqn:Hf; [other_error|].
  unfold ethers.formatUnits, ethers.checkValue, bind in Hf.
  destruct (Z.leb_spec (- 2 ^ 511) amount); [|discriminate].
  destruct (Z.ltb_spec amount (2 ^ 511)); [|discriminate].
  cbn [andb] in Hf. unfold ret in Hf. injection Hf as <-.
  exists r, l, recipient, amount.
  conjuncts; try first [reflexivity | assumption]. unfold ret in *. congruence.
Qed.

(** X1: the acceptance condition, complete.  The copy of docs/SECURITY.md
    returns true, and the copy of docs/BLOCKCHAIN.md a verification record,
    exactly when the node has a receipt whose status is not 0, the first log
    with the Transfer signature decodes, its recipient equals the expected
    one in lower case and its amount is at least the expected amount (and,
    for the record, fits the 512-bit format of the formatted amount); the
    record then carries the hash asked for, the decoded recipient, the
    block number of the receipt and the distance to the latest block. *)
Theorem verifyPayment_accepts_iff (rpc : Rpc) (tx eR : string) (eA : Z) (n : Network) :
  (Security.verifyPayment rpc tx eR eA n = ret true
   <-> exists r l recipient amount,
         getTransactionReceipt (rpc (rpcUrl (NETWORKS n))) tx = Some r
         /\ status_is_0 r = false
         /\ List.find is_transfer (logs r) = Some l
         /\ decode l = ret (recipient, amount)
         /\ toLowerCase recipient = toLowerCase eR
         /\ eA <= amount)
  /\ (forall v,
        Blockchain.verifyPayment rpc tx eR eA n = ret v
        <-> exists r l recipient amount,
              getTransactionReceipt (rpc (rpcUrl (NETWORKS n))) tx = Some r
              /\ status_is_0 r = false
              /\ List.find is_transfer (logs r) = Some l
              /\ decode l = ret (recipient, amount)
              /\ toLowerCase recipient = toLowerCase eR
              /\ eA <= amount
              /\ - 2 ^ 511 <= amount < 2 ^ 511
              /\ v = {| Blockchain.verified := true;
                        Blockchain.txHash := tx;
                        Blockchain.recipient := recipient;
                        Blockchain.amount :=
                          ethers.fixed_toString amount (decimals (stablecoin (NETWORKS n)));
                        Blockchain.blockNumber := blockNumber r;
                        Blockchain.confirmations :=
                          getBlockNumber (rpc (rpcUrl (NETWORKS n))) - blockNumber r |}).
Proof.
  pose proof (Security_verifyPayment_cases rpc tx eR eA n) as HS.
  pose proof (Blockchain_verifyPayment_cases rpc tx eR eA n) as HB.
  cbv zeta in HS, HB. split.
  - split.
    + apply Security_accepts_inv.
    + intros (r & l & recipient & amount & Hr & Hs & Hl & Hd & Hrec & Hamt).
      unfold ret in Hd. rewrite Hr, Hs, Hl, Hd, Hrec, String.eqb_refl in HS.
      cbn [negb] in HS. destruct (Z.ltb_spec amount eA); [lia|exact HS].
  - intros v. split.
    + apply Blockchain_accepts_inv.
    + intros (r & l & recipient & amount & Hr & Hs & Hl & Hd & Hrec & Hamt & Hrange & ->).
      unfold ret in Hd. rewrite Hr, Hs, Hl, Hd, Hrec, String.eqb_refl in HB.
      cbn [negb] in HB. destruct (Z.ltb_spec amount eA); [lia|].
      rewrite (formatUnits_in_range _ _ Hrange) in HB. exact HB.
Qed.

(** X2: lowering the amount asked for never turns an acceptance into a
    rejection, and raising it never turns "Amount mismatch" into anything
    else: a receipt accepted for [eA] is accepted, with the same result, for
    every smaller expected amount, and one rejected with "Amount mismatch"
    for [eA] is rejected so for every larger one. *)
Theorem verifyPayment_monotone (rpc : Rpc) (tx eR : string) (eA eA' : Z) (n : Network) :
  eA' <= eA ->
  (Security.verifyPayment rpc tx eR eA n = ret true ->
   Security.verifyPayment rpc tx eR eA' n = ret true)
  /\ (forall v, Blockchain.verifyPayment rpc tx eR eA n = ret v ->
                Blockchain.verifyPayment rpc tx eR eA' n = ret v)
  /\ (Security.verifyPayment rpc tx eR eA' n = throw AmountMismatch ->
      Security.verifyPayment rpc tx eR eA n = throw AmountMismatch)
  /\ (Blockchain.verifyPayment rpc tx eR eA' n = throw AmountMismatch ->
      Blockchain.verifyPayment rpc tx eR eA n = throw AmountMismatch).
Proof.
  intros Hle.
  pose proof (Security_verifyPayment_cases rpc tx eR eA n) as HS.
  pose proof (Blockchain_verifyPayment_cases rpc tx eR eA n) as HB.
  pose proof (Security_verifyPayment_cases rpc tx eR eA' n) as HS'.
  pose proof (Blockchain_verifyPayment_cases rpc tx eR eA' n) as HB'.
  cbv zeta in HS, HB, HS', HB'.
  destruct (getTransactionReceipt _ tx) as [r|]; [|conjuncts; intros; other_error].
  destruct (status_is_0 r); [conjuncts; intros; other_error|].
  destruct (List.find _ _) as [l|]; [|conjuncts; intros; other_error].
  destruct (decode l) as [e|[recipient amount]] eqn:Hd; [conjuncts; intros; other_error|].
  destruct (negb _); [conjuncts; intros; other_error|].
  destruct (Z.ltb_spec amount eA), (Z.ltb_spec amount eA'); try lia;
    conjuncts; intros;
    first [other_error | destruct (ethers.formatUnits _ _) eqn:Hf; other_error].
Qed.

Lemma verifyPayment_monotone_witness :
  Security.verifyPayment
    (serving (Some (receipt_of [transfer_log usdc merchant_topic word_100_000_000])) 12)
    "0xabc" merchant 99999999 base = ret true.
Proof.
  apply (verifyPayment_monotone
           (serving (Some (receipt_of [transfer_log usdc merchant_topic word_100_000_000])) 12)
           "0xabc" merchant 100000000 99999999 base).
  - lia.
  - vm_compute. reflexivity.
Defined.

(** ** Addresses *)

(** Turning boolean range tests into arithmetic. *)
Ltac ranges :=
  unfold is_hex, is_digit, is_lower_hex, is_upper_hex, is_ws, in_range,
    SecurityMd.is_base58, ethers.is_zero_char in *;
  repeat match goal with
         | H : _ = false |- _ => apply Bool.not_true_iff_false in H
         | |- _ = false => apply Bool.not_true_iff_false
         end;
  rewrite ?Bool.negb_true_iff, ?Bool.andb_true_iff, ?Bool.orb_true_iff,
    ?Z.leb_le, ?Z.eqb_eq in *;
  try lia.

Lemma code_range (c : ascii) : 0 <= code c < 256.
Proof.
  unfold code. pose proof (nat_ascii_bounded c). lia.
Qed.

Lemma code_chr (z : Z) : 0 <= z < 256 -> code (chr z) = z.
Proof.
  intros Hz. unfold chr, code. rewrite nat_ascii_embedding by lia. lia.
Qed.

Lemma lower_char_hex (c : ascii) : is_hex c = true -> low_hex (lower_char c) = true.
Proof.
  intros H. unfold lower_char, low_hex.
  destruct (in_range 65 90 c) eqn:Hup.
  - assert (65 <= code c <= 70) by ranges.
    unfold is_digit, is_lower_hex, in_range. rewrite code_chr by lia.
    apply Bool.orb_true_iff. right. apply Bool.andb_true_iff. rewrite !Z.leb_le. lia.
  - destruct (in_range 192 222 c && negb (code c =? 215)) eqn:Hlat.
    + exfalso. ranges.
    + ranges.
Qed.

(** Facts about single characters, by inspection of the 256 of them. *)
Ltac each_char c :=
  destruct c as [[] [] [] [] [] [] [] []]; vm_compute;
  try discriminate; try reflexivity; try (intros; discriminate); auto.

Lemma low_hex_facts (c : ascii) :
  low_hex c = true ->
  lower_char c = c /\ lower_char (upper_char c) = c /\ is_hex c = true
  /\ is_hex (upper_char c) = true /\ is_upper_hex c = false.
Proof. each_char c. Qed.

Lemma is_hex_facts (c : ascii) :
  is_hex c = true ->
  is_ws c = false /\ is_radix_digit 16 c = true /\ 0 <= digit_value c < 16.
Proof. each_char c; intros _; repeat split; discriminate. Qed.

Lemma forall_string_impl (p q : ascii -> bool) (s : string) :
  (forall c, p c = true -> q c = true) ->
  forall_string p s = true -> forall_string q s = true.
Proof.
  intros Hpq. induction s as [|c s IH]; cbn [forall_string]; [reflexivity|].
  intros [Hc Hs]%andb_prop. rewrite (Hpq c Hc), IH by assumption. reflexivity.
Qed.

Lemma join_chars (s : string) : join (chars s) = s.
Proof. induction s as [|c s IH]; [reflexivity|]. cbn [chars join]. rewrite IH. reflexivity. Qed.

Lemma chars_map_string (f : ascii -> ascii) (s : string) :
  chars (map_string f s) = List.map f (chars s).
Proof. induction s as [|c s IH]; [reflexivity|]. cbn [map_string chars List.map]. rewrite IH. reflexivity. Qed.

Lemma map_string_join (f : ascii -> ascii) (cs : list ascii) :
  map_string f (join cs) = join (List.map f cs).
Proof. induction cs as [|c cs IH]; [reflexivity|]. cbn [join map_string List.map]. rewrite IH. reflexivity. Qed.

Lemma length_join (cs : list ascii) : String.length (join cs) = List.length cs.
Proof. induction cs as [|c cs IH]; [reflexivity|]. cbn [join String.length List.length]. rewrite IH. reflexivity. Qed.

Lemma length_chars (s : string) : List.length (chars s) = String.length s.
Proof. induction s as [|c s IH]; [reflexivity|]. cbn [chars String.length List.length]. rewrite IH. reflexivity. Qed.

Lemma length_map_string (f : ascii -> ascii) (s : string) :
  String.length (map_string f s) = String.length s.
Proof. induction s as [|c s IH]; [reflexivity|]. cbn [map_string String.length]. rewrite IH. reflexivity. Qed.

Lemma forall_string_join (p : ascii -> bool) (cs : list ascii) :
  forall_string p (join cs) = forallb p cs.
Proof. induction cs as [|c cs IH]; [reflexivity|]. cbn [join forall_string forallb]. rewrite IH. reflexivity. Qed.

Lemma forall_string_chars (p : ascii -> bool) (s : string) :
  forallb p (chars s) = forall_string p s.
Proof. rewrite <- forall_string_join, join_chars. reflexivity. Qed.

(** The checksum loop changes nothing but the case of letters. *)
Lemma checksum_case_spec (cs : list ascii) :
  forallb low_hex cs = true ->
  forall hashed,
    List.map lower_char (ethers.checksum_case cs hashed) = cs
    /\ forallb is_hex (ethers.checksum_case cs hashed) = true.
Proof.
  assert (forall k cs', (List.length cs' <= k)%nat -> forallb low_hex cs' = true ->
            forall hashed,
              List.map lower_char (ethers.checksum_case cs' hashed) = cs'
              /\ forallb is_hex (ethers.checksum_case cs' hashed) = true) as Hall.
  { induction k as [|k IH]; intros cs' Hlen Hlow hashed.
    - destruct cs'; [split; reflexivity|cbn [List.length] in Hlen; lia].
    - destruct cs' as [|c1 [|c2 rest]].
      + split; reflexivity.
      + cbn [forallb] in Hlow. apply andb_prop in Hlow as [H1 _].
        destruct (low_hex_facts c1 H1) as (Hl & _ & Hh & _).
        destruct hashed; cbn [ethers.checksum_case List.map forallb];
          rewrite Hl, Hh; split; reflexivity.
      + cbn [forallb] in Hlow.
        apply andb_prop in Hlow as [H1 Hlow]. apply andb_prop in Hlow as [H2 Hrest].
        destruct (low_hex_facts c1 H1) as (Hl1 & Hlu1 & Hh1 & Hhu1 & _).
        destruct (low_hex_facts c2 H2) as (Hl2 & Hlu2 & Hh2 & Hhu2 & _).
        destruct hashed as [|h hs].
        * cbn [ethers.checksum_case List.map forallb]. rewrite Hl1, Hl2, Hh1, Hh2.
          cbn [andb]. split.
          -- f_equal. f_equal. clear -Hrest.
             induction rest as [|c r IHr]; [reflexivity|].
             cbn [forallb] in Hrest. apply andb_prop in Hrest as [Hc Hr].
             cbn [List.map]. rewrite IHr by assumption.
             destruct (low_hex_facts c Hc) as (-> & _). reflexivity.
          -- clear -Hrest.
             induction rest as [|c r IHr]; [reflexivity|].
             cbn [forallb] in Hrest. apply andb_prop in Hrest as [Hc Hr].
             cbn [forallb]. rewrite IHr by assumption.
             destruct (low_hex_facts c Hc) as (_ & _ & -> & _). reflexivity.
        * cbn [List.length] in Hlen.
          destruct (IH rest ltac:(lia) Hrest hs) as [Hmap Hhex].
          cbn [ethers.checksum_case List.map forallb]. rewrite Hmap, Hhex.
          destruct (8 <=? Z.shiftr h 4), (8 <=? Z.land h 15);
            rewrite ?Hl1, ?Hl2, ?Hlu1, ?Hlu2, ?Hh1, ?Hh2, ?Hhu1, ?Hhu2;
            split; reflexivity. }
  intros Hlow hashed. apply (Hall (List.length cs) cs); [lia|assumption].
Qed.

Lemma checksum_case_length (cs : list ascii) (hashed : list Z) :
  List.length (ethers.checksum_case cs hashed) = List.length cs.
Proof.
  assert (forall k cs' hs, (List.length cs' <= k)%nat ->
            List.length (ethers.checksum_case cs' hs) = List.length cs') as Hall.
  { induction k as [|k IH]; intros cs' hs Hlen.
    - destruct cs'; [reflexivity|cbn [List.length] in Hlen; lia].
    - destruct cs' as [|c1 [|c2 rest]]; [reflexivity|destruct hs; reflexivity|].
      destruct hs as [|h hs]; [reflexivity|].
      cbn [ethers.checksum_case List.length]. cbn [List.length] in Hlen.
      rewrite IH by lia. reflexivity. }
  apply (Hall (List.length cs)). lia.
Qed.

(** What [getAddress] returns for a 0x string: the same 40 hex digits, some
    in upper case. *)
Lemma getAddress_0x (body r : string) :
  ethers.getAddress ("0x" +:+ body) = ret r ->
  ethers.hex40 body = true
  /\ BlockchainMd.evm_address r = true
  /\ toLowerCase r = "0x" +:+ toLowerCase body.
Proof.
  rewrite !append_cons, append_nil. unfold ethers.getAddress.
  destruct (ethers.hex40 body) eqn:Hhex; [|unfold throw, ret; discriminate].
  intros Hr.
  assert (r = ethers.getChecksumAddress (String "0" (String "x" body))) as ->.
  { destruct (_ && _); unfold throw, ret in Hr; congruence. }
  clear Hr. split; [reflexivity|].
  unfold ethers.hex40 in Hhex. apply andb_prop in Hhex as [Hlen Hall].
  apply Nat.eqb_eq in Hlen.
  unfold ethers.getChecksumAddress.
  change (toLowerCase (String "0" (String "x" body)))
    with (String "0" (String "x" (toLowerCase body))).
  change (slice 2 (String "0" (String "x" (toLowerCase body)))) with (toLowerCase body).
  set (cs := chars (toLowerCase body)).
  assert (forallb low_hex cs = true) as Hlow.
  { subst cs. clear Hlen. induction body as [|c body IH]; [reflexivity|].
    cbn [forall_string] in Hall. apply andb_prop in Hall as [Hc Hall].
    change (toLowerCase (String c body)) with (String (lower_char c) (toLowerCase body)).
    cbn [chars forallb]. rewrite (lower_char_hex c Hc), IH by assumption. reflexivity. }
  destruct (checksum_case_spec cs Hlow (Keccak.keccak256 (List.map code cs))) as [Hmap Hhex].
  rewrite !append_cons, append_nil. split.
  - unfold BlockchainMd.evm_address, ethers.hex40.
    rewrite length_join, checksum_case_length, forall_string_join, Hhex.
    subst cs. unfold toLowerCase. rewrite length_chars, length_map_string, Hlen.
    reflexivity.
  - unfold toLowerCase at 1. cbn [map_string].
    rewrite map_string_join, Hmap. subst cs. rewrite join_chars. reflexivity.
Qed.

Lemma hex40_lower (body : string) :
  ethers.hex40 body = true ->
  ethers.hex40 (toLowerCase body) = true
  /\ forall_string low_hex (toLowerCase body) = true
  /\ toLowerCase (toLowerCase body) = toLowerCase body.
Proof.
  unfold ethers.hex40. intros [Hlen Hall]%andb_prop.
  unfold toLowerCase. rewrite length_map_string, Hlen. cbn [andb].
  clear Hlen. induction body as [|c body IH]; [repeat split; reflexivity|].
  cbn [forall_string] in Hall. apply andb_prop in Hall as [Hc Hall].
  destruct (IH Hall) as (IH1 & IH2 & IH3).
  pose proof (lower_char_hex c Hc) as Hlow.
  destruct (low_hex_facts _ Hlow) as (Hl & _ & Hh & _).
  cbn [map_string forall_string]. rewrite IH1, IH2, IH3, Hlow, Hh, Hl.
  repeat split; reflexivity.
Qed.

Lemma low_hex_no_upper (s : string) :
  forall_string low_hex s = true -> exists_string is_upper_hex s = false.
Proof.
  induction s as [|c s IH]; cbn [forall_string exists_string]; [reflexivity|].
  intros [Hc Hs]%andb_prop.
  destruct (low_hex_facts c Hc) as (_ & _ & _ & _ & ->). rewrite IH by assumption.
  reflexivity.
Qed.

Lemma decode_ok (l : Log) (recipient : string) (amount : Z) :
  decode l = ret (recipient, amount) ->
  exists t, nth_error (topics l) 2 = Some t
            /\ ethers.getAddress ("0x" +:+ slice 26 t) = ret recipient
            /\ BigInt (data l) = ret amount.
Proof.
  unfold decode, topic2_slice26, bind.
  destruct (nth_error (topics l) 2) as [t|]; [|unfold throw, ret; discriminate].
  unfold ret at 1.
  destruct (ethers.getAddress _) as [e|r] eqn:Ha; [unfold ret; discriminate|].
  destruct (BigInt _) as [e|a] eqn:Hb; [unfold ret; discriminate|].
  unfold ret. intros [= <- <-]. exists t. split; [reflexivity|].
  split; [assumption|reflexivity].
Qed.

(** X3: a payment is only ever accepted for an expected recipient that is,
    up to the case of its letters, a 0x address of 40 hex digits as
    [validateAddress] wants it; the recipient in the verification record is
    that address (in checksum case) and passes [validateAddress] itself. *)
Theorem verifyPayment_accepts_only_addresses (rpc : Rpc) (tx eR : string) (eA : Z)
    (n : Network) :
  (Security.verifyPayment rpc tx eR eA n = ret true ->
   BlockchainMd.validateAddress (toLowerCase eR) n = true)
  /\ (forall v, Blockchain.verifyPayment rpc tx eR eA n = ret v ->
        BlockchainMd.validateAddress (Blockchain.recipient v) n = true
        /\ toLowerCase (Blockchain.recipient v) = toLowerCase eR
        /\ BlockchainMd.validateAddress (toLowerCase eR) n = true).
Proof.
  pose proof (Security_accepts_inv rpc tx eR eA n) as HS.
  pose proof (fun v => Blockchain_accepts_inv rpc tx eR eA n v) as HB.
  assert (forall recipient l amount,
            decode l = ret (recipient, amount) ->
            toLowerCase recipient = toLowerCase eR ->
            BlockchainMd.validateAddress recipient n = true
            /\ BlockchainMd.validateAddress (toLowerCase eR) n = true) as Hkey.
  { intros recipient l amount Hd Hrec.
    destruct (decode_ok l recipient amount Hd) as (t & _ & Ha & _).
    destruct (getAddress_0x _ _ Ha) as (Hhex & Hvalid & Hlow).
    destruct (hex40_lower _ Hhex) as (Hhex' & _).
    assert (BlockchainMd.evm_address (toLowerCase eR) = true) as Hexp.
    { rewrite <- Hrec, Hlow, !append_cons, append_nil. exact Hhex'. }
    destruct n; split; assumption. }
  split.
  - intros Hvp. apply HS in Hvp as (r & l & recipient & amount & _ & _ & _ & Hd & Hrec & _).
    apply (Hkey recipient l amount Hd Hrec).
  - intros v Hvp.
    apply HB in Hvp as (r & l & recipient & amount & _ & _ & _ & Hd & Hrec & _ & _ & ->).
    cbn [Blockchain.recipient].
    destruct (Hkey recipient l amount Hd Hrec). auto.
Qed.

Lemma evm_address_inv (address : string) :
  BlockchainMd.evm_address address = true ->
  exists body, address = String "0" (String "x" body) /\ ethers.hex40 body = true.
Proof.
  unfold BlockchainMd.evm_address.
  destruct address as [|c0 rest]; [discriminate|].
  destruct (Ascii.eqb_spec c0 "0") as [->|Hn0].
  - destruct rest as [|c1 body]; [discriminate|].
    destruct (Ascii.eqb_spec c1 "x") as [->|Hn1]; [eauto|].
    intros Hevm. exfalso. revert Hevm Hn1. clear.
    destruct c1 as [[] [] [] [] [] [] [] []]; cbn; try discriminate; congruence.
  - intros Hevm. exfalso. revert Hevm Hn0. clear.
    destruct c0 as [[] [] [] [] [] [] [] []]; cbn; try discriminate; congruence.
Qed.

(** X4: an address that passes [validateAddress] is one that
    [ethers.getAddress] accepts once written in lower case, and the result
    is the same address in checksum case, valid again; on the address as
    written, [getAddress] returns that same result or rejects it (a checksum
    that does not match), which [validateAddress] does not detect. *)
Theorem validateAddress_normalises (address : string) (n : Network) :
  BlockchainMd.validateAddress address n = true ->
  exists r,
    ethers.getAddress (toLowerCase address) = ret r
    /\ BlockchainMd.validateAddress r n = true
    /\ toLowerCase r = toLowerCase address
    /\ (ethers.getAddress address = ret r
        \/ ethers.getAddress address = throw InvalidArgument).
Proof.
  intros Hvalid.
  assert (BlockchainMd.evm_address address = true) as Hevm by (destruct n; exact Hvalid).
  clear Hvalid. apply evm_address_inv in Hevm as (body & -> & Hhex).
  destruct (hex40_lower _ Hhex) as (Hhex' & Hlow & Hidem).
  set (r := ethers.getChecksumAddress (String "0" (String "x" body))).
  assert (ethers.getChecksumAddress (String "0" (String "x" (toLowerCase body))) = r) as Hsame.
  { subst r. unfold ethers.getChecksumAddress.
    change (toLowerCase (String "0" (String "x" (toLowerCase body))))
      with (String "0" (String "x" (toLowerCase (toLowerCase body)))).
    rewrite Hidem. reflexivity. }
  assert (ethers.getAddress (String "0" (String "x" (toLowerCase body))) = ret r) as Hget.
  { unfold ethers.getAddress. rewrite Hhex', Hsame.
    unfold ethers.mixed_case. cbn [exists_string].
    rewrite (low_hex_no_upper _ Hlow). reflexivity. }
  exists r.
  change (toLowerCase (String "0" (String "x" body)))
    with (String "0" (String "x" (toLowerCase body))).
  split; [exact Hget|].
  change (String "0" (String "x" (toLowerCase body))) with ("0x" +:+ toLowerCase body) in Hget.
  destruct (getAddress_0x _ _ Hget) as (_ & Hevm' & Hlower).
  rewrite Hidem in Hlower.
  split; [destruct n; exact Hevm'|]. split; [exact Hlower|].
  unfold ethers.getAddress. rewrite Hhex. fold r.
  destruct (_ && _); auto.
Qed.

Lemma validateAddress_normalises_witness :
  exists r,
    ethers.getAddress (toLowerCase "0x833589fCD6eDb6E08f4c7C32D4f71b54bda02913") = ret r
    /\ BlockchainMd.validateAddress r base = true
    /\ toLowerCase r = toLowerCase "0x833589fCD6eDb6E08f4c7C32D4f71b54bda02913"
    /\ (ethers.getAddress "0x833589fCD6eDb6E08f4c7C32D4f71b54bda02913" = ret r
        \/ ethers.getAddress "0x833589fCD6eDb6E08f4c7C32D4f71b54bda02913"
           = throw InvalidArgument).
Proof.
  apply (validateAddress_normalises "0x833589fCD6eDb6E08f4c7C32D4f71b54bda02913" base).
  vm_compute. reflexivity.
Defined.

(** X5: the two copies of [validateAddress] agree on base and celo; no
    string is valid both as an EVM address and as a Solana address; and for
    a network name other than base, celo and solana every address is
    rejected. *)
Theorem validateAddress_formats (address : string) :
  SecurityMd.validateAddress address "base" = BlockchainMd.validateAddress address base
  /\ SecurityMd.validateAddress address "celo" = BlockchainMd.validateAddress address celo
  /\ (SecurityMd.validateAddress address "base" = true ->
      SecurityMd.validateAddress address "solana" = false)
  /\ (forall network,
        network <> "base" -> network <> "celo" -> network <> "solana" ->
        SecurityMd.validateAddress address network = false).
Proof.
  split; [reflexivity|]. split; [reflexivity|]. split.
  - change (SecurityMd.validateAddress address "base")
      with (BlockchainMd.evm_address address).
    change (SecurityMd.validateAddress address "solana")
      with (SecurityMd.solana_address address).
    intros Hevm. apply evm_address_inv in Hevm as (body & -> & _).
    unfold SecurityMd.solana_address. cbn [forall_string].
    change (SecurityMd.is_base58 "0") with false.
    rewrite Bool.andb_false_l, Bool.andb_false_r. reflexivity.
  - intros network Hb Hc Hs. unfold SecurityMd.validateAddress.
    destruct (String.eqb_spec network "base"); [contradiction|].
    destruct (String.eqb_spec network "celo"); [contradiction|].
    destruct (String.eqb_spec network "solana"); [contradiction|].
    reflexivity.
Qed.

(** ** Well-formed transfer logs *)

Lemma trim_end_id (s : string) :
  forall_string (fun c => negb (is_ws c)) s = true -> trim_end s = s.
Proof.
  induction s as [|c s IH]; [reflexivity|].
  cbn [forall_string]. intros [Hc Hs]%andb_prop.
  cbn [trim_end]. rewrite IH by assumption.
  apply Bool.negb_true_iff in Hc. rewrite Hc. destruct s; reflexivity.
Qed.

Lemma digits16_bound (s : string) :
  forall_string is_hex s = true ->
  forall acc, 0 <= acc ->
    acc * 16 ^ Z.of_nat (String.length s) <= digits_value 16 acc s
    < (acc + 1) * 16 ^ Z.of_nat (String.length s).
Proof.
  induction s as [|c s IH]; intros Hs acc Hacc.
  - cbn [digits_value String.length]. change (16 ^ Z.of_nat 0) with 1. lia.
  - cbn [forall_string] in Hs. apply andb_prop in Hs as [Hc Hs].
    destruct (is_hex_facts c Hc) as (_ & _ & Hd).
    cbn [digits_value String.length].
    rewrite Nat2Z.inj_succ, Z.pow_succ_r by lia.
    specialize (IH Hs (16 * acc + digit_value c) ltac:(lia)).
    assert (0 < 16 ^ Z.of_nat (String.length s)) by (apply Z.pow_pos_nonneg; lia).
    nia.
Qed.

(** [BigInt] of a 0x string of hex digits is their value. *)
Lemma BigInt_hex (body : string) :
  forall_string is_hex body = true -> (0 < String.length body)%nat ->
  BigInt ("0x" +:+ body) = ret (digits_value 16 0 body)
  /\ 0 <= digits_value 16 0 body < 16 ^ Z.of_nat (String.length body).
Proof.
  intros Hhex Hlen. split.
  - rewrite !append_cons, append_nil. unfold BigInt.
    change (trim_start (String "0" (String "x" body))) with (String "0" (String "x" body)).
    rewrite trim_end_id.
    + cbv iota beta. unfold parse_digits.
      destruct body as [|c body]; [cbn [String.length] in Hlen; lia|].
      rewrite (forall_string_impl is_hex (is_radix_digit 16)); [reflexivity| |assumption].
      intros c' Hc'. apply is_hex_facts. assumption.
    + cbn [forall_string].
      change (negb (is_ws "0")) with true. change (negb (is_ws "x")) with true.
      cbn [andb]. apply (forall_string_impl is_hex); [|assumption].
      intros c Hc. destruct (is_hex_facts c Hc) as (-> & _). reflexivity.
  - pose proof (digits16_bound body Hhex 0 ltac:(lia)). lia.
Qed.

Lemma hex_word_inv (n : nat) (s : string) :
  hex_word n s = true ->
  exists body, s = "0x" +:+ body /\ String.length body = n
               /\ forall_string is_hex body = true.
Proof.
  unfold hex_word. destruct s as [|c0 rest]; [discriminate|].
  destruct (Ascii.eqb_spec c0 "0") as [->|Hn0].
  - destruct rest as [|c1 body]; [discriminate|].
    destruct (Ascii.eqb_spec c1 "x") as [->|Hn1].
    + intros [Hlen Hall]%andb_prop. apply Nat.eqb_eq in Hlen. exists body.
      rewrite !append_cons, append_nil. auto.
    + intros Hw. exfalso. revert Hw Hn1. clear.
      destruct c1 as [[] [] [] [] [] [] [] []]; cbn; try discriminate; congruence.
  - intros Hw. exfalso. revert Hw Hn0. clear.
    destruct c0 as [[] [] [] [] [] [] [] []]; cbn; try discriminate; congruence.
Qed.

Lemma lower_hex_word_inv (n : nat) (s : string) :
  lower_hex_word n s = true ->
  exists body, s = "0x" +:+ body /\ String.length body = n
               /\ forall_string low_hex body = true.
Proof.
  unfold lower_hex_word. destruct s as [|c0 rest]; [discriminate|].
  destruct (Ascii.eqb_spec c0 "0") as [->|Hn0].
  - destruct rest as [|c1 body]; [discriminate|].
    destruct (Ascii.eqb_spec c1 "x") as [->|Hn1].
    + intros [Hlen Hall]%andb_prop. apply Nat.eqb_eq in Hlen. exists body.
      rewrite !append_cons, append_nil. auto.
    + intros Hw. exfalso. revert Hw Hn1. clear.
      destruct c1 as [[] [] [] [] [] [] [] []]; cbn; try discriminate; congruence.
  - intros Hw. exfalso. revert Hw Hn0. clear.
    destruct c0 as [[] [] [] [] [] [] [] []]; cbn; try discriminate; congruence.
Qed.

Lemma low_hex_lower (s : string) :
  forall_string low_hex s = true -> toLowerCase s = s.
Proof.
  induction s as [|c s IH]; [reflexivity|].
  cbn [forall_string]. intros [Hc Hs]%andb_prop.
  change (toLowerCase (String c s)) with (String (lower_char c) (toLowerCase s)).
  rewrite IH by assumption. destruct (low_hex_facts c Hc) as (-> & _). reflexivity.
Qed.

(** Decoding a well-formed transfer log never throws: the recipient is the
    address in the last 40 hex digits of [topics[2]], the amount the value
    of the data word. *)
Lemma decode_well_formed (l : Log) :
  well_formed_transfer l = true ->
  exists t1 t2 recipient,
    topics l = [transferTopic; t1; t2]
    /\ decode l = ret (recipient, digits_value 16 0 (slice 2 (data l)))
    /\ toLowerCase recipient = "0x" +:+ slice 26 t2
    /\ 0 <= digits_value 16 0 (slice 2 (data l)) < 2 ^ 256.
Proof.
  unfold well_formed_transfer.
  destruct (topics l) as [|t0 [|t1 [|t2 [|]]]] eqn:Ht; try discriminate.
  intros [[H0 H2]%andb_prop Hdata]%andb_prop.
  apply String.eqb_eq in H0. subst t0.
  apply lower_hex_word_inv in H2 as (body2 & -> & Hlen2 & Hlow2).
  apply hex_word_inv in Hdata as (word & Hword & Hlenw & Hhexw).
  assert (slice 26 ("0x" +:+ body2) = slice 24 body2) as Hslice
      by (rewrite !append_cons, append_nil; reflexivity).
  assert (forall_string low_hex (slice 24 body2) = true) as Hlow by (apply slice_forall; assumption).
  assert (ethers.hex40 (slice 24 body2) = true) as Hhex40.
  { unfold ethers.hex40. rewrite slice_size, Hlen2. cbn [Nat.sub Nat.eqb andb].
    apply (forall_string_impl low_hex); [|assumption].
    intros c Hc. apply (low_hex_facts c Hc). }
  assert (exists recipient, ethers.getAddress ("0x" +:+ slice 24 body2) = ret recipient)
    as (recipient & Hget).
  { rewrite !append_cons, append_nil. unfold ethers.getAddress. rewrite Hhex40.
    unfold ethers.mixed_case. cbn [exists_string].
    rewrite (low_hex_no_upper _ Hlow). eexists. reflexivity. }
  destruct (getAddress_0x _ _ Hget) as (_ & _ & Hlower).
  rewrite (low_hex_lower _ Hlow) in Hlower.
  destruct (BigInt_hex word Hhexw ltac:(lia)) as [Hbig Hbound].
  rewrite Hlenw in Hbound. change (16 ^ Z.of_nat 64) with (2 ^ 256) in Hbound.
  assert (slice 2 (data l) = word) as Hw
      by (rewrite Hword, !append_cons, append_nil; reflexivity).
  exists t1, ("0x" +:+ body2), recipient. rewrite Hw, Hslice.
  split; [reflexivity|]. split; [|split; assumption].
  unfold decode, topic2_slice26, bind. rewrite Ht. cbn [nth_error].
  unfold ret at 1. rewrite Hslice, Hget, Hword, Hbig. reflexivity.
Qed.

(** X6: on a receipt whose status is not 0 and whose first log with the
    Transfer signature is well formed (three 32-byte topics in lower-case
    hex, one 32-byte data word), [verifyPayment] throws nothing but its own
    two mismatch errors: the recipient compared is 0x followed by the last
    40 hex digits of [topics[2]], the amount is the value of the data word,
    below 2^256; the verdict is "Recipient mismatch", "Amount mismatch" or
    acceptance accordingly, in both copies. *)
Theorem verifyPayment_well_formed (head : Z) (tx eR : string) (eA : Z) (n : Network)
    (r : TransactionReceipt) (l : Log) :
  status_is_0 r = false ->
  List.find is_transfer (logs r) = Some l ->
  well_formed_transfer l = true ->
  exists t1 t2 recipient amount,
    topics l = [transferTopic; t1; t2]
    /\ amount = digits_value 16 0 (slice 2 (data l))
    /\ 0 <= amount < 2 ^ 256
    /\ toLowerCase recipient = "0x" +:+ slice 26 t2
    /\ Security.verifyPayment (serving (Some r) head) tx eR eA n
       = (if negb (String.eqb ("0x" +:+ slice 26 t2) (toLowerCase eR))
          then throw RecipientMismatch
          else if amount <? eA then throw AmountMismatch
          else ret true)
    /\ Blockchain.verifyPayment (serving (Some r) head) tx eR eA n
       = (if negb (String.eqb ("0x" +:+ slice 26 t2) (toLowerCase eR))
          then throw RecipientMismatch
          else if amount <? eA then throw AmountMismatch
          else ret {| Blockchain.verified := true;
                      Blockchain.txHash := tx;
                      Blockchain.recipient := recipient;
                      Blockchain.amount :=
                        ethers.fixed_toString amount (decimals (stablecoin (NETWORKS n)));
                      Blockchain.blockNumber := blockNumber r;
                      Blockchain.confirmations := head - blockNumber r |}).
Proof.
  intros Hs Hfind Hwf.
  destruct (decode_well_formed l Hwf) as (t1 & t2 & recipient & Ht & Hd & Hlow & Hbound).
  exists t1, t2, recipient, (digits_value 16 0 (slice 2 (data l))).
  pose proof (Security_verifyPayment_cases (serving (Some r) head) tx eR eA n) as HS.
  pose proof (Blockchain_verifyPayment_cases (serving (Some r) head) tx eR eA n) as HB.
  cbv zeta in HS, HB. cbn [serving getTransactionReceipt getBlockNumber] in HS, HB.
  unfold ret in Hd. rewrite Hs, Hfind, Hd, Hlow in HS, HB.
  rewrite (formatUnits_in_range (digits_value 16 0 (slice 2 (data l)))) in HB by lia.
  conjuncts; try first [reflexivity | assumption | lia].
  - destruct (negb _); [exact HS|]. destruct (_ <? eA); exact HS.
  - destruct (negb _); [exact HB|]. destruct (_ <? eA); exact HB.
Qed.

Lemma verifyPayment_well_formed_witness :
  exists t1 t2 recipient amount,
    topics (transfer_log usdc merchant_topic word_100_000_000) = [transferTopic; t1; t2]
    /\ amount = digits_value 16 0 (slice 2 (data (transfer_log usdc merchant_topic word_100_000_000)))
    /\ 0 <= amount < 2 ^ 256
    /\ toLowerCase recipient = "0x" +:+ slice 26 t2
    /\ Security.verifyPayment
         (serving (Some (receipt_of [transfer_log usdc merchant_topic word_100_000_000])) 12)
         "0xabc" merchant 100000000 base
       = (if negb (String.eqb ("0x" +:+ slice 26 t2) (toLowerCase merchant))
          then throw RecipientMismatch
          else if amount <? 100000000 then throw AmountMismatch
          else ret true)
    /\ Blockchain.verifyPayment
         (serving (Some (receipt_of [transfer_log usdc merchant_topic word_100_000_000])) 12)
         "0xabc" merchant 100000000 base
       = (if negb (String.eqb ("0x" +:+ slice 26 t2) (toLowerCase merchant))
          then throw RecipientMismatch
          else if amount <? 100000000 then throw AmountMismatch
          else ret {| Blockchain.verified := true;
                      Blockchain.txHash := "0xabc";
                      Blockchain.recipient := recipient;
                      Blockchain.amount :=
                        ethers.fixed_toString amount (decimals (stablecoin (NETWORKS base)));
                      Blockchain.blockNumber :=
                        blockNumber (receipt_of [transfer_log usdc merchant_topic word_100_000_000]);
                      Blockchain.confirmations :=
                        12 - blockNumber (receipt_of [transfer_log usdc merchant_topic word_100_000_000]) |}).
Proof.
  apply (verifyPayment_well_formed 12 "0xabc" merchant 100000000 base
           (receipt_of [transfer_log usdc merchant_topic word_100_000_000])
           (transfer_log usdc merchant_topic word_100_000_000)).
  - reflexivity.
  - vm_compute. reflexivity.
  - vm_compute. reflexivity.
Defined.

(** ** The formatted amount of the verification record *)

Lemma trim_whole_eq (a : ascii) (t : string) :
  ethers.trim_whole (String a t)
  = if Ascii.eqb a "0"
    then match t with
         | String c r => if code c =? 46 then String a t else ethers.trim_whole t
         | EmptyString => String a t
         end
    else String a t.
Proof.
  destruct a as [[] [] [] [] [] [] [] []]; try reflexivity.
  all: destruct t; reflexivity.
Qed.

(** Leading zeros of the whole part go, but for the last digit; the value
    stays. *)
Lemma trim_whole_spec (W : string) :
  forall_string is_digit W = true -> (0 < String.length W)%nat ->
  exists W',
    ethers.trim_whole (W +:+ ".") = W' +:+ "."
    /\ forall_string is_digit W' = true
    /\ (0 < String.length W')%nat
    /\ digits_value 10 0 W' = digits_value 10 0 W.
Proof.
  induction W as [|a W1 IH]; intros Hd Hlen; [cbn [String.length] in Hlen; lia|].
  cbn [forall_string] in Hd. apply andb_prop in Hd as [Ha Hd1].
  rewrite append_cons, trim_whole_eq.
  destruct (Ascii.eqb_spec a "0") as [->|Hne].
  - destruct W1 as [|c W2].
    + rewrite append_nil. change (code "." =? 46) with true. cbv iota.
      exists "0". repeat split; cbn [String.length]; lia.
    + rewrite append_cons.
      pose proof Hd1 as Hd1'. cbn [forall_string] in Hd1'.
      apply andb_prop in Hd1' as [Hc%is_digit_code _].
      destruct (Z.eqb_spec (code c) 46); [lia|].
      rewrite <- append_cons.
      destruct (IH Hd1 ltac:(cbn [String.length]; lia)) as (W' & Heq & HdW & HlenW & Hval).
      exists W'. repeat split; try assumption.
  - exists (String a W1). rewrite append_cons. cbn [forall_string]. rewrite Ha, Hd1.
    repeat split. cbn [String.length]. lia.
Qed.

(** The trimmed fraction is the fraction without its trailing zeros. *)
Lemma trim_fraction_spec (r : string) :
  exists k, r = ethers.trim_fraction r +:+ ethers.zeros k.
Proof.
  induction r as [|c r [k IH]]; [exists 0%nat; reflexivity|].
  cbn [ethers.trim_fraction].
  destruct (ethers.trim_fraction r) as [|c' T] eqn:HT.
  - rewrite append_nil in IH. destruct (Z.eqb_spec (code c) 48) as [Hc|Hc].
    + exists (S k). rewrite append_nil. cbn [ethers.zeros]. rewrite <- IH.
      f_equal. apply code_inj. exact Hc.
    + exists k. rewrite append_cons, append_nil, <- IH. reflexivity.
  - exists k. rewrite append_cons, <- IH. reflexivity.
Qed.

Lemma match_fixed_point (W f : string) :
  forall_string is_digit W = true -> (0 < String.length W)%nat ->
  forall_string is_digit f = true ->
  ethers.match_fixed (W +:+ String "." f) = Some (false, W, f).
Proof.
  intros HW Hlen Hf. unfold ethers.match_fixed.
  destruct W as [|a W1] eqn:HeqW; [cbn [String.length] in Hlen; lia|].
  rewrite append_cons.
  pose proof HW as HW'. cbn [forall_string] in HW'.
  apply andb_prop in HW' as [Ha%is_digit_code _].
  destruct (Z.eqb_spec (code a) 45); [lia|].
  rewrite <- append_cons.
  rewrite (span_stop is_digit (String a W1) "." f HW eq_refl).
  change (code "." =? 46) with true. cbv iota.
  rewrite (span_all _ _ Hf). reflexivity.
Qed.

(** What [formatUnits] writes, [parseUnits] reads back: the text of a
    non-negative amount at a positive decimal count denotes that amount. *)
Lemma fromString_fixed_toString (v : Z) (d : nat) :
  0 <= v < 2 ^ 511 -> (0 < d)%nat ->
  ethers.fromString (ethers.fixed_toString v d) d = ret v.
Proof.
  intros [Hv Hmax] Hd.
  destruct (render_spec v Hv) as (Hdig0 & Hlen0 & Hval0).
  unfold ethers.fixed_toString.
  destruct (Z.ltb_spec v 0) as [?|_]; [lia|].
  destruct (Nat.eqb_spec d 0) as [?|_]; [lia|].
  rewrite Z.abs_eq by assumption. rewrite append_nil.
  set (m := (S d - String.length (render v))%nat).
  set (str := ethers.zeros m +:+ render v).
  assert (forall_string is_digit str = true) as Hdig
      by (subst str; rewrite forall_string_app, zeros_digits, Hdig0; reflexivity).
  assert (String.length str = (m + String.length (render v))%nat) as Hlen
      by (subst str; rewrite length_append, length_zeros; reflexivity).
  assert (digits_value 10 0 str = v) as Hval.
  { subst str. rewrite digits_value_app, digits_value_zeros.
    rewrite Z.mul_0_l. exact Hval0. }
  set (index := (String.length str - d)%nat).
  destruct (split_at index str ltac:(lia)) as [Hsplit HlenW].
  set (W := substring 0 index str) in *. set (F := slice index str) in *.
  assert (String.length F = d) as HlenF by (subst F; rewrite slice_size; lia).
  assert (forall_string is_digit W = true /\ forall_string is_digit F = true) as [HdW HdF].
  { rewrite Hsplit, forall_string_app in Hdig. apply andb_prop in Hdig. exact Hdig. }
  destruct (trim_whole_spec W HdW ltac:(lia)) as (W' & -> & HdW' & HlenW' & HvalW').
  destruct F as [|c r1] eqn:HF; [cbn [String.length] in HlenF; lia|].
  destruct (trim_fraction_spec r1) as [k Hk].
  set (T := ethers.trim_fraction r1) in *.
  assert (forall_string is_digit (String c T) = true) as HdT.
  { cbn [forall_string] in HdF |- *. apply andb_prop in HdF as [Hc Hr1].
    rewrite Hc. rewrite Hk, forall_string_app in Hr1.
    apply andb_prop in Hr1 as [-> _]. reflexivity. }
  assert (String.length r1 = (String.length T + k)%nat) as HlenT
      by (rewrite Hk at 1; rewrite length_append, length_zeros; reflexivity).
  cbn [String.length] in HlenF.
  (* the match of the regular expression *)
  cbv iota. rewrite append_assoc, append_cons, append_nil.
  unfold ethers.fromString.
  rewrite (match_fixed_point W' (String c T) HdW' HlenW' HdT).
  destruct (Nat.eqb_spec (String.length W' + String.length (String c T)) 0) as [Hz|_];
    [lia|].
  assert (match W' with EmptyString => "0" | String _ _ => W' end = W') as ->
      by (destruct W'; [cbn [String.length] in HlenW'; lia|reflexivity]).
  assert (String c T +:+ ethers.zeros (d - String.length (String c T)) = String c r1) as ->.
  { cbn [String.length]. replace (d - S (String.length T))%nat with k by lia.
    rewrite append_cons, <- Hk. reflexivity. }
  assert (slice d (String c r1) = EmptyString) as ->.
  { rewrite <- (append_empty (String c r1)).
    replace d with (String.length (String c r1)) at 1 by (cbn [String.length]; lia).
    apply slice_length. }
  assert (substring 0 d (String c r1) = String c r1) as ->.
  { rewrite <- (append_empty (String c r1)) at 1.
    replace d with (String.length (String c r1)) at 1 by (cbn [String.length]; lia).
    apply substring_length. }
  cbn [forall_string negb].
  rewrite digits_value_app, HvalW', <- digits_value_app, <- Hsplit, Hval.
  unfold ethers.checkValue.
  destruct (Z.leb_spec (- 2 ^ 511) v); [|lia].
  destruct (Z.ltb_spec v (2 ^ 511)); [|lia].
  reflexivity.
Qed.

(** X7: the amount text of the verification record denotes the decoded
    amount: read back with [parseUnits] at the decimals of the network's
    stablecoin, the formatted amount of an accepted payment is exactly the
    integer decoded from the log.  (The expected amount is not negative.) *)
Theorem verification_amount_round_trip (rpc : Rpc) (tx eR : string) (eA : Z)
    (n : Network) (v : Blockchain.Verification) :
  0 <= eA ->
  Blockchain.verifyPayment rpc tx eR eA n = ret v ->
  exists r l recipient amount,
    getTransactionReceipt (rpc (rpcUrl (NETWORKS n))) tx = Some r
    /\ List.find is_transfer (logs r) = Some l
    /\ decode l = ret (recipient, amount)
    /\ eA <= amount
    /\ ethers.parseUnits (Blockchain.amount v) (Some (decimals (stablecoin (NETWORKS n))))
       = ret amount.
Proof.
  intros HeA Hvp.
  apply Blockchain_accepts_inv in Hvp
    as (r & l & recipient & amount & Hr & _ & Hl & Hd & _ & Hamt & Hrange & ->).
  exists r, l, recipient, amount. conjuncts; try assumption.
  cbn [Blockchain.amount]. unfold ethers.parseUnits.
  change (default 18%nat (Some (decimals (stablecoin (NETWORKS n)))))
    with (decimals (stablecoin (NETWORKS n))).
  apply fromString_fixed_toString; [lia|]. destruct n; cbn; lia.
Qed.

Lemma verification_amount_round_trip_witness :
  exists r l recipient amount,
    getTransactionReceipt
      (serving (Some (receipt_of [transfer_log usdc merchant_topic word_100_000_000])) 12
               (rpcUrl (NETWORKS base))) "0xabc" = Some r
    /\ List.find is_transfer (logs r) = Some l
    /\ decode l = ret (recipient, amount)
    /\ 100000000 <= amount
    /\ ethers.parseUnits "100.0" (Some (decimals (stablecoin (NETWORKS base)))) = ret amount.
Proof.
  apply (verification_amount_round_trip
           (serving (Some (receipt_of [transfer_log usdc merchant_topic word_100_000_000])) 12)
           "0xabc" merchant 100000000 base
           {| Blockchain.verified := true;
              Blockchain.txHash := "0xabc";
              Blockchain.recipient := merchant;
              Blockchain.amount := "100.0";
              Blockchain.blockNumber := 10;
              Blockchain.confirmations := 2 |}).
  - lia.
  - vm_compute. reflexivity.
Defined.

(** ** escapeHTML *)

Lemma replace_all_app (c : ascii) (by_ s t : string) :
  SecurityMd.replace_all c by_ (s +:+ t)
  = SecurityMd.replace_all c by_ s +:+ SecurityMd.replace_all c by_ t.
Proof.
  induction s as [|a s IH]; [reflexivity|].
  rewrite append_cons. cbn [SecurityMd.replace_all]. rewrite IH.
  destruct (Ascii.eqb a c); [rewrite append_assoc|rewrite append_cons]; reflexivity.
Qed.

Lemma escapeHTML_app (s t : string) :
  SecurityMd.escapeHTML (s +:+ t) = SecurityMd.escapeHTML s +:+ SecurityMd.escapeHTML t.
Proof. unfold SecurityMd.escapeHTML. rewrite !replace_all_app. reflexivity. Qed.

Lemma escapeHTML_single (c : ascii) :
  SecurityMd.escapeHTML (String c EmptyString) = escape_char c.
Proof. destruct c as [[] [] [] [] [] [] [] []]; vm_compute; reflexivity. Qed.

Lemma escapeHTML_cons (c : ascii) (r : string) :
  SecurityMd.escapeHTML (String c r) = escape_char c +:+ SecurityMd.escapeHTML r.
Proof.
  change (String c r) with (String c EmptyString +:+ r).
  rewrite escapeHTML_app, escapeHTML_single. reflexivity.
Qed.

Lemma escape_char_cases (c : ascii) :
  (is_special c = false /\ escape_char c = String c EmptyString)
  \/ (c = SecurityMd.amp /\ escape_char c = "&amp;")
  \/ (c = SecurityMd.lt /\ escape_char c = "&lt;")
  \/ (c = SecurityMd.gt /\ escape_char c = "&gt;")
  \/ (c = SecurityMd.quot /\ escape_char c = "&quot;")
  \/ (c = SecurityMd.apos /\ escape_char c = "&#039;").
Proof.
  unfold escape_char, is_special, is_markup.
  destruct (Ascii.eqb_spec c SecurityMd.amp); [auto|].
  destruct (Ascii.eqb_spec c SecurityMd.lt); [auto 6|].
  destruct (Ascii.eqb_spec c SecurityMd.gt); [auto 6|].
  destruct (Ascii.eqb_spec c SecurityMd.quot); [auto 7|].
  destruct (Ascii.eqb_spec c SecurityMd.apos); [auto 8|].
  auto.
Qed.

Lemma escape_char_safe (c : ascii) :
  forall_string (fun a => negb (is_markup a)) (escape_char c) = true.
Proof. destruct c as [[] [] [] [] [] [] [] []]; vm_compute; reflexivity. Qed.

Lemma escapeHTML_length (s : string) :
  (String.length s <= String.length (SecurityMd.escapeHTML s))%nat.
Proof.
  induction s as [|c s IH]; [reflexivity|].
  rewrite escapeHTML_cons, length_append. cbn [String.length].
  assert (1 <= String.length (escape_char c))%nat; [|lia].
  destruct (escape_char_cases c) as [[_ ->]|[[_ ->]|[[_ ->]|[[_ ->]|[[_ ->]|[_ ->]]]]]];
    cbn [String.length]; lia.
Qed.

(** X8: the text [escapeHTML] returns contains none of the characters that
    open or close a tag or an attribute value (less-than, greater-than,
    double quote, apostrophe), whatever the input; and escaping works piece
    by piece, the escape of a concatenation being the concatenation of the
    escapes. *)
Theorem escapeHTML_safe (s t : string) :
  forall_string (fun a => negb (is_markup a)) (SecurityMd.escapeHTML s) = true
  /\ SecurityMd.escapeHTML (s +:+ t)
     = SecurityMd.escapeHTML s +:+ SecurityMd.escapeHTML t.
Proof.
  split; [|apply escapeHTML_app].
  induction s as [|c s IH]; [reflexivity|].
  rewrite escapeHTML_cons, forall_string_app, escape_char_safe, IH. reflexivity.
Qed.

Lemma escape_char_inj (c c' : ascii) (X Y : string) :
  escape_char c +:+ X = escape_char c' +:+ Y -> c = c' /\ X = Y.
Proof.
  unfold is_special, is_markup.
  destruct (escape_char_cases c) as [[Hn ->]|[[-> ->]|[[-> ->]|[[-> ->]|[[-> ->]|[-> ->]]]]]];
    destruct (escape_char_cases c') as [[Hn' ->]|[[-> ->]|[[-> ->]|[[-> ->]|[[-> ->]|[-> ->]]]]]];
    rewrite ?append_cons, ?append_nil; intros Heq;
    try (injection Heq; intros; subst; split; reflexivity);
    try discriminate Heq.
  all: exfalso; injection Heq; intros; subst;
    first [vm_compute in Hn; discriminate Hn | vm_compute in Hn'; discriminate Hn'].
Qed.

(** X9: [escapeHTML] loses nothing: two different texts never have the same
    escape. *)
Theorem escapeHTML_injective (s t : string) :
  SecurityMd.escapeHTML s = SecurityMd.escapeHTML t -> s = t.
Proof.
  revert t. induction s as [|c s IH]; intros [|c' t] Heq.
  - reflexivity.
  - exfalso. rewrite escapeHTML_cons in Heq.
    destruct (escape_char_cases c') as [[_ H]|[[_ H]|[[_ H]|[[_ H]|[[_ H]|[_ H]]]]]];
      rewrite H, append_cons in Heq; discriminate Heq.
  - exfalso. rewrite escapeHTML_cons in Heq.
    destruct (escape_char_cases c) as [[_ H]|[[_ H]|[[_ H]|[[_ H]|[[_ H]|[_ H]]]]]];
      rewrite H, append_cons in Heq; discriminate Heq.
  - rewrite !escapeHTML_cons in Heq.
    apply escape_char_inj in Heq as [-> Heq]. rewrite (IH t Heq). reflexivity.
Qed.

Lemma escapeHTML_injective_witness : "a<b" = "a" +:+ "<b".
Proof. apply (escapeHTML_injective "a<b" ("a" +:+ "<b")). vm_compute. reflexivity. Defined.

Lemma escapeHTML_special (s : string) :
  forall_string (fun a => negb (is_special a)) (SecurityMd.escapeHTML s)
  = forall_string (fun a => negb (is_special a)) s.
Proof.
  induction s as [|c s IH]; [reflexivity|].
  rewrite escapeHTML_cons, forall_string_app, IH. cbn [forall_string]. f_equal.
  destruct (escape_char_cases c) as [[Hn ->]|[[-> ->]|[[-> ->]|[[-> ->]|[[-> ->]|[-> ->]]]]]];
    [cbn [forall_string]; rewrite Hn; reflexivity|reflexivity..].
Qed.

(** X10: [escapeHTML] returns its argument unchanged exactly when the
    argument contains none of the five characters it replaces; so escaping
    a text that has one of them a second time changes it again (it is not
    idempotent). *)
Theorem escapeHTML_fixed_iff (s : string) :
  (SecurityMd.escapeHTML s = s
   <-> forall_string (fun a => negb (is_special a)) s = true)
  /\ (forall_string (fun a => negb (is_special a)) s = false ->
      SecurityMd.escapeHTML (SecurityMd.escapeHTML s) <> SecurityMd.escapeHTML s).
Proof.
  assert (forall u, SecurityMd.escapeHTML u = u
                    <-> forall_string (fun a => negb (is_special a)) u = true) as Hiff.
  { clear s. intros s. induction s as [|c s IH]; [split; reflexivity|].
    rewrite escapeHTML_cons. cbn [forall_string].
    destruct (escape_char_cases c) as [[Hn ->]|Hsp].
    - rewrite Hn, append_cons, append_nil. cbn [negb andb].
      rewrite <- IH. split; [intros [= H]; exact H|intros ->; reflexivity].
    - assert (is_special c = true /\ (2 <= String.length (escape_char c))%nat
              /\ exists tl, escape_char c = String "&" tl) as (Hs & Hlen & tl & Htl).
      { destruct Hsp as [[-> ->]|[[-> ->]|[[-> ->]|[[-> ->]|[-> ->]]]]];
          (split; [reflexivity|split; [cbn [String.length]; lia|eexists; reflexivity]]). }
      rewrite Hs. cbn [negb andb]. split; [|discriminate].
      intros Heq. exfalso.
      assert (String.length (escape_char c +:+ SecurityMd.escapeHTML s)
              = String.length (String c s)) as Hl by (rewrite Heq; reflexivity).
      rewrite length_append in Hl. cbn [String.length] in Hl.
      pose proof (escapeHTML_length s). lia. }
  split; [apply Hiff|].
  intros Hspecial Hidem. apply Hiff in Hidem.
  rewrite escapeHTML_special in Hidem. congruence.
Qed.

(** ** API keys (docs/SECURITY.md) *)

Lemma find_filter {A : Type} (f g : A -> bool) (l : list A) :
  List.find f (List.filter g l) = List.find (fun x => g x && f x) l.
Proof.
  induction l as [|a l IH]; [reflexivity|].
  cbn [List.filter List.find]. destruct (g a); cbn [List.find andb]; rewrite IH; reflexivity.
Qed.

(** X11: who [validateApiKey] authenticates.  It returns a profile id only
    if the table has an active key with the prefix of the provided key whose
    stored hash bcrypt accepts, and then the profile of such a key; it
    returns null exactly when bcrypt accepts the hash of no active key with
    that prefix.  An inactive key never authenticates. *)
Theorem validateApiKey_authenticates (bcrypt_compare : string -> string -> bool)
    (now : Z) (api_keys : list SecurityMd.ApiKey) (providedKey : string) :
  (forall p,
     fst (SecurityMd.validateApiKey bcrypt_compare now api_keys providedKey) = Some p ->
     exists key, In key api_keys /\ SecurityMd.is_active key = true
                 /\ SecurityMd.key_prefix key = substring 0 7 providedKey
                 /\ bcrypt_compare providedKey (SecurityMd.key_hash key) = true
                 /\ SecurityMd.profile_id key = p)
  /\ (fst (SecurityMd.validateApiKey bcrypt_compare now api_keys providedKey) = None
      <-> forall key, In key api_keys -> SecurityMd.is_active key = true ->
                      SecurityMd.key_prefix key = substring 0 7 providedKey ->
                      bcrypt_compare providedKey (SecurityMd.key_hash key) = false).
Proof.
  unfold SecurityMd.validateApiKey.
  destruct (List.find _ _) as [key|] eqn:Hfind; cbn [fst].
  - apply find_some in Hfind as [Hin Hbc]. apply filter_In in Hin as [Hin Hsel].
    apply andb_prop in Hsel as [Hpre%String.eqb_eq Hact].
    split.
    + intros p [= <-]. exists key. auto 6.
    + split; [discriminate|]. intros Hnone.
      rewrite (Hnone key Hin Hact Hpre) in Hbc. discriminate.
  - split; [discriminate|]. split; [|reflexivity]. intros _ key Hin Hact Hpre.
    apply (find_none _ _ Hfind key). apply filter_In. split; [exact Hin|].
    rewrite Hact, Hpre, String.eqb_refl. reflexivity.
Qed.

(** X12: what [validateApiKey] writes.  A call that returns null leaves the
    table as it is; one that authenticates changes nothing but
    [last_used_at] (and the trigger's [updated_at]): the ids, profiles,
    prefixes, hashes, tiers, active flags, limits and call counters of all
    rows are as before, so this validation counts no call. *)
Theorem validateApiKey_writes (bcrypt_compare : string -> string -> bool)
    (now : Z) (api_keys : list SecurityMd.ApiKey) (providedKey : string) :
  (fst (SecurityMd.validateApiKey bcrypt_compare now api_keys providedKey) = None ->
   snd (SecurityMd.validateApiKey bcrypt_compare now api_keys providedKey) = api_keys)
  /\ List.map identity_of
       (snd (SecurityMd.validateApiKey bcrypt_compare now api_keys providedKey))
     = List.map identity_of api_keys
  /\ List.map SecurityMd.calls_used
       (snd (SecurityMd.validateApiKey bcrypt_compare now api_keys providedKey))
     = List.map SecurityMd.calls_used api_keys.
Proof.
  unfold SecurityMd.validateApiKey.
  destruct (List.find _ _) as [key|]; cbn [fst snd]; [|auto].
  split; [discriminate|]. rewrite !List.map_map.
  split; apply List.map_ext; intros row; destruct (String.eqb _ _); reflexivity.
Qed.

(** X13: the stored prefix does not tell keys apart.  Every key the
    generation snippet makes begins with the same seven characters, which
    is what it stores as [key_prefix]; so in a table of such keys the prefix
    filter of [validateApiKey] keeps every active row, and the result is
    the profile of the first active row, of whatever key, whose hash bcrypt
    accepts. *)
Theorem validateApiKey_prefix_is_constant (bcrypt_compare : string -> string -> bool)
    (now : Z) (api_keys : list SecurityMd.ApiKey) (random : list Z) :
  (forall row, In row api_keys ->
     exists random' keyHash userId newId t,
       SecurityMd.key_prefix row
       = SecurityMd.key_prefix (SecurityMd.generated_row random' keyHash userId newId t)) ->
  substring 0 7 (SecurityMd.apiKey random) = "rav_liv"
  /\ fst (SecurityMd.validateApiKey bcrypt_compare now api_keys (SecurityMd.apiKey random))
     = option_map SecurityMd.profile_id
         (List.find (fun row => SecurityMd.is_active row
                                && bcrypt_compare (SecurityMd.apiKey random)
                                                  (SecurityMd.key_hash row))
                    api_keys).
Proof.
  intros Hgen.
  assert (forall r, substring 0 7 (SecurityMd.apiKey r) = "rav_liv") as Hpre
      by (intros r; unfold SecurityMd.apiKey; rewrite !append_cons; reflexivity).
  split; [apply Hpre|].
  unfold SecurityMd.validateApiKey. rewrite find_filter, Hpre.
  assert (forall row, In row api_keys -> String.eqb (SecurityMd.key_prefix row) "rav_liv" = true)
    as Hall.
  { intros row Hin. destruct (Hgen row Hin) as (r' & h & u & i & t & ->).
    cbn [SecurityMd.generated_row SecurityMd.key_prefix]. rewrite Hpre. reflexivity. }
  clear Hgen. induction api_keys as [|row rest IH]; [reflexivity|].
  cbn [List.find]. rewrite (Hall row (or_introl eq_refl)). cbn [andb].
  destruct (SecurityMd.is_active row && _) eqn:Hsel; [reflexivity|].
  cbn [fst] in *.
  assert (forall row0, In row0 rest ->
            String.eqb (SecurityMd.key_prefix row0) "rav_liv" = true) as Hrest
      by (intros row0 Hin; apply Hall; right; exact Hin).
  specialize (IH Hrest).
  destruct (List.find _ rest); destruct (List.find _ rest); cbn [fst option_map] in *;
    congruence.
Qed.

Lemma validateApiKey_prefix_is_constant_witness :
  substring 0 7 (SecurityMd.apiKey [171; 205]) = "rav_liv"
  /\ fst (SecurityMd.validateApiKey String.eqb 9
            [SecurityMd.generated_row [1; 2] "rav_live_abcd" "user-1" "key-1" 3]
            (SecurityMd.apiKey [171; 205]))
     = option_map SecurityMd.profile_id
         (List.find (fun row => SecurityMd.is_active row
                                && String.eqb (SecurityMd.apiKey [171; 205])
                                              (SecurityMd.key_hash row))
                    [SecurityMd.generated_row [1; 2] "rav_live_abcd" "user-1" "key-1" 3]).
Proof.
  apply (validateApiKey_prefix_is_constant String.eqb 9
           [SecurityMd.generated_row [1; 2] "rav_live_abcd" "user-1" "key-1" 3] [171; 205]).
  intros row [<-|[]]. exists [1; 2], "rav_live_abcd", "user-1", "key-1", 3. reflexivity.
Defined.

(** ** Rate limiting (docs/SECURITY.md, api/v1/invoices) *)




Lemma single_inv {A : Type} (rows : list A) (row : A) :
  SecurityMd.single rows = Some row -> rows = [row].
Proof. destruct rows as [|a [|b rest]]; cbn; congruence. Qed.



Lemma filter_map_same {A : Type} (p : A -> bool) (f : A -> A) (l : list A) :
  (forall r, p (f r) = p r) ->
  List.filter p (List.map f l) = List.map f (List.filter p l).
Proof.
  intros Hp. induction l as [|a l IH]; [reflexivity|].
  cbn [List.map List.filter]. rewrite Hp, IH. destruct (p a); reflexivity.
Qed.

(** X15: when the API handlers accept a key.  [validateApiKey] returns the
    key's data exactly when one and only one active row has the SHA-256 hash
    of the key and that row has calls left; the data returned is that row
    as it was before the call is counted.  A key whose hash is on no active
    row, or on several, or whose limit is reached, gets null, and then the
    table is left as it was. *)
Theorem Api_validateApiKey_accepts_iff (sha256_hex : string -> string) (now : Z)
    (api_keys : list SecurityMd.ApiKey) (key : string) :
  (forall data,
     fst (Api.validateApiKey sha256_hex now api_keys key) = Some data
     <-> exists row,
           List.filter (fun r => String.eqb (SecurityMd.key_hash r) (sha256_hex key)
                                 && SecurityMd.is_active r) api_keys = [row]
           /\ SecurityMd.calls_used row < SecurityMd.rate_limit row
           /\ data = Api.select_data row)
  /\ (fst (Api.validateApiKey sha256_hex now api_keys key) = None ->
      snd (Api.validateApiKey sha256_hex now api_keys key) = api_keys).
Proof.
  unfold Api.validateApiKey, Api.hashApiKey.
  destruct (SecurityMd.single _) as [row|] eqn:Hsingle.
  - apply single_inv in Hsingle.
    cbn [Api.select_data Api.data_rate_limit Api.data_calls_used].
    destruct (Z.leb_spec (SecurityMd.rate_limit row) (SecurityMd.calls_used row)); cbn [fst snd].
    + split; [|reflexivity]. intros data. split; [discriminate|].
      intros (row' & Hrow' & Hlt & _). rewrite Hsingle in Hrow'. injection Hrow' as <-. lia.
    + split; [|discriminate]. intros data. split.
      * intros [= <-]. exists row. auto.
      * intros (row' & Hrow' & _ & ->). rewrite Hsingle in Hrow'. injection Hrow' as <-.
        reflexivity.
  - cbn [fst snd]. split; [|reflexivity]. intros data. split; [discriminate|].
    intros (row' & Hrow' & _). rewrite Hrow' in Hsingle. discriminate.
Qed.

(** The row of an accepted key after the call. *)
Lemma Api_validateApiKey_step (sha256_hex : string -> string) (now : Z)
    (api_keys : list SecurityMd.ApiKey) (key : string) (row : SecurityMd.ApiKey) :
  List.filter (fun r => String.eqb (SecurityMd.key_hash r) (sha256_hex key)
                        && SecurityMd.is_active r) api_keys = [row] ->
  SecurityMd.calls_used row < SecurityMd.rate_limit row ->
  fst (Api.validateApiKey sha256_hex now api_keys key) = Some (Api.select_data row)
  /\ List.filter (fun r => String.eqb (SecurityMd.key_hash r) (sha256_hex key)
                           && SecurityMd.is_active r)
                 (snd (Api.validateApiKey sha256_hex now api_keys key))
     = [SecurityMd.count_call (SecurityMd.calls_used row + 1) now row].
Proof.
  intros Hsingle Hroom. unfold Api.validateApiKey, Api.hashApiKey. rewrite Hsingle.
  cbn [SecurityMd.single Api.select_data Api.data_rate_limit Api.data_calls_used Api.data_id].
  destruct (Z.leb_spec (SecurityMd.rate_limit row) (SecurityMd.calls_used row)); [lia|].
  cbn [fst snd]. split; [reflexivity|].
  rewrite filter_map_same
    by (intros r; destruct (String.eqb (SecurityMd.id r) (SecurityMd.id row)); reflexivity).
  rewrite Hsingle. cbn [List.map]. rewrite String.eqb_refl. reflexivity.
Qed.

Lemma Api_validateApiKey_exhausted (sha256_hex : string -> string) (times : list Z)
    (api_keys : list SecurityMd.ApiKey) (key : string) (row : SecurityMd.ApiKey) :
  List.filter (fun r => String.eqb (SecurityMd.key_hash r) (sha256_hex key)
                        && SecurityMd.is_active r) api_keys = [row] ->
  SecurityMd.rate_limit row <= SecurityMd.calls_used row ->
  Api.validateApiKey_each sha256_hex times api_keys key
  = (List.map (fun _ => None) times, api_keys).
Proof.
  intros Hsingle Hfull. induction times as [|now later IH]; [reflexivity|].
  cbn [Api.validateApiKey_each List.map].
  assert (Api.validateApiKey sha256_hex now api_keys key = (None, api_keys)) as ->.
  { unfold Api.validateApiKey, Api.hashApiKey. rewrite Hsingle.
    cbn [SecurityMd.single Api.select_data Api.data_rate_limit Api.data_calls_used].
    destruct (Z.leb_spec (SecurityMd.rate_limit row) (SecurityMd.calls_used row)); [|lia].
    reflexivity. }
  rewrite IH. reflexivity.
Qed.

(** X16: the quota of a key.  Of the requests made one after the other
    with a key that one active row carries, those are accepted for which the
    calls counted so far are below the limit, and each accepted request
    counts once: with [used] calls counted at the start and the limit
    [limit], the request number k (from 0) is accepted if and only if
    used + k < limit, and it is handed the counter used + k.  However many
    requests follow, no more than limit - used are ever accepted. *)
Theorem Api_validateApiKey_quota (sha256_hex : string -> string) (times : list Z)
    (api_keys : list SecurityMd.ApiKey) (key : string) (row : SecurityMd.ApiKey) :
  List.filter (fun r => String.eqb (SecurityMd.key_hash r) (sha256_hex key)
                        && SecurityMd.is_active r) api_keys = [row] ->
  fst (Api.validateApiKey_each sha256_hex times api_keys key)
  = List.map (fun k =>
                if SecurityMd.calls_used row + Z.of_nat k <? SecurityMd.rate_limit row
                then Some {| Api.data_id := SecurityMd.id row;
                             Api.data_profile_id := SecurityMd.profile_id row;
                             Api.data_tier := SecurityMd.tier row;
                             Api.data_rate_limit := SecurityMd.rate_limit row;
                             Api.data_calls_used := SecurityMd.calls_used row + Z.of_nat k;
                             Api.data_is_active := SecurityMd.is_active row |}
                else None)
             (seq 0 (List.length times)).
Proof.
  revert api_keys row. induction times as [|now later IH]; intros api_keys row Hsingle;
    [reflexivity|].
  destruct (Z.lt_ge_cases (SecurityMd.calls_used row) (SecurityMd.rate_limit row))
    as [Hroom|Hfull].
  - destruct (Api_validateApiKey_step sha256_hex now api_keys key row Hsingle Hroom)
      as [Hfst Hnext].
    cbn [Api.validateApiKey_each].
    destruct (Api.validateApiKey sha256_hex now api_keys key) as [result api_keys'].
    cbn [fst snd] in Hfst, Hnext. subst result.
    specialize (IH api_keys' _ Hnext).
    destruct (Api.validateApiKey_each sha256_hex later api_keys' key) as [results final].
    cbn [fst] in IH |- *. cbn [List.length seq List.map].
    rewrite Z.add_0_r. destruct (Z.ltb_spec (SecurityMd.calls_used row) (SecurityMd.rate_limit row));
      [|lia].
    f_equal. rewrite IH, <- seq_shift, List.map_map.
    apply List.map_ext. intros k.
    cbn [SecurityMd.count_call SecurityMd.calls_used SecurityMd.rate_limit SecurityMd.id
         SecurityMd.profile_id SecurityMd.tier SecurityMd.is_active].
    replace (SecurityMd.calls_used row + 1 + Z.of_nat k)
      with (SecurityMd.calls_used row + Z.of_nat (S k)) by lia.
    reflexivity.
  - rewrite (Api_validateApiKey_exhausted sha256_hex (now :: later) api_keys key row Hsingle)
      by lia.
    cbn [fst]. rewrite <- (List.map_map (fun _ => tt) (fun _ => None)).
    generalize 0%nat as start. generalize (now :: later) as l.
    induction l as [|t l IHl]; intros start; [reflexivity|].
    cbn [List.length seq List.map].
    destruct (Z.ltb_spec (SecurityMd.calls_used row + Z.of_nat start) (SecurityMd.rate_limit row));
      [lia|].
    f_equal. apply IHl.
Qed.

Lemma Api_validateApiKey_quota_witness :
  fst (Api.validateApiKey_each (fun k => k) [10; 11; 12] [two_call_key] "rav_live_0123")
  = [ Some {| Api.data_id := "key-1"; Api.data_profile_id := "user-1";
              Api.data_tier := "starter"; Api.data_rate_limit := 2;
              Api.data_calls_used := 0; Api.data_is_active := true |};
      Some {| Api.data_id := "key-1"; Api.data_profile_id := "user-1";
              Api.data_tier := "starter"; Api.data_rate_limit := 2;
              Api.data_calls_used := 1; Api.data_is_active := true |};
      None ].
Proof.
  apply (Api_validateApiKey_quota (fun k => k) [10; 11; 12] [two_call_key]
           "rav_live_0123" two_call_key).
  vm_compute. reflexivity.
Defined.

Lemma hexlify_length (bs : list Z) :
  String.length (hexlify bs) = (2 * List.length bs)%nat.
Proof.
  induction bs as [|b bs IH]; [reflexivity|].
  cbn [hexlify String.length List.length]. rewrite IH. lia.
Qed.

(** X17: a key made by [generateApiKey] from 24 random bytes is 57
    characters long and starts with the 16 characters returned as its
    prefix, the fixed text followed by the first 7 hex digits; and it is a
    key the API handlers accept: on any table where one active row, with
    calls left, stores the hash returned with the key, [validateApiKey]
    returns that row's data for the key. *)
Theorem generateApiKey_validates (sha256_hex : string -> string) (random : list Z) :
  List.length random = 24%nat ->
  let '(key, hash, prefix) := Api.generateApiKey sha256_hex random in
  String.length key = 57%nat
  /\ prefix = "rav_live_" +:+ substring 0 7 (hexlify random)
  /\ key = prefix +:+ slice 16 key
  /\ forall now api_keys row,
       List.filter (fun r => String.eqb (SecurityMd.key_hash r) hash
                             && SecurityMd.is_active r) api_keys = [row] ->
       SecurityMd.calls_used row < SecurityMd.rate_limit row ->
       fst (Api.validateApiKey sha256_hex now api_keys key) = Some (Api.select_data row).
Proof.
  intros Hlen. unfold Api.generateApiKey. cbv zeta.
  pose proof (hexlify_length random) as Hhex. rewrite Hlen in Hhex.
  assert (substring 0 16 ("rav_live_" +:+ hexlify random)
          = "rav_live_" +:+ substring 0 7 (hexlify random)) as Hpre
      by (rewrite !append_cons, append_nil; reflexivity).
  split; [rewrite length_append, Hhex; reflexivity|].
  split; [exact Hpre|]. split.
  - destruct (split_at 16 ("rav_live_" +:+ hexlify random)) as [Hsplit _].
    + rewrite length_append, Hhex. cbn [String.length]. lia.
    + exact Hsplit.
  - intros now api_keys row Hsingle Hroom.
    apply (Api_validateApiKey_step sha256_hex now api_keys _ row Hsingle Hroom).
Qed.

Lemma generateApiKey_validates_witness :
  let '(key, hash, prefix) := Api.generateApiKey (fun k => k) (repeat 171 24) in
  String.length key = 57%nat
  /\ prefix = "rav_live_" +:+ substring 0 7 (hexlify (repeat 171 24))
  /\ key = prefix +:+ slice 16 key
  /\ forall now api_keys row,
       List.filter (fun r => String.eqb (SecurityMd.key_hash r) hash
                             && SecurityMd.is_active r) api_keys = [row] ->
       SecurityMd.calls_used row < SecurityMd.rate_limit row ->
       fst (Api.validateApiKey (fun k => k) now api_keys key) = Some (Api.select_data row).
Proof. apply (generateApiKey_validates (fun k => k) (repeat 171 24)). reflexivity. Defined.

(** ** The token cache (docs/BLOCKCHAIN.md) *)

(** X18: what [getTokenInfo] has resolved once, it answers for good.  After
    a call that resolves to [info], the cache holds [info] for that address,
    every later call for the address resolves to the same [info] without
    reading the chain, whatever the contract answers by then, and leaves
    the cache as it is; the entries of other addresses are never touched. *)
Theorem getTokenInfo_caches (read read' : string -> option BlockchainMd.TokenInfo)
    (tokenCache tokenCache' : gmap string BlockchainMd.TokenInfo)
    (tokenAddress : string) (info : BlockchainMd.TokenInfo) :
  BlockchainMd.getTokenInfo read tokenCache tokenAddress = (Some info, tokenCache') ->
  tokenCache' !! tokenAddress = Some info
  /\ BlockchainMd.getTokenInfo read' tokenCache' tokenAddress = (Some info, tokenCache')
  /\ (forall other, other <> tokenAddress -> tokenCache' !! other = tokenCache !! other).
Proof.
  unfold BlockchainMd.getTokenInfo.
  destruct (tokenCache !! tokenAddress) as [cached|] eqn:Hhit.
  - intros [= <- <-]. rewrite Hhit. auto.
  - destruct (read tokenAddress) as [fresh|]; [|discriminate].
    intros [= <- <-]. rewrite lookup_insert_eq.
    split; [reflexivity|]. split; [reflexivity|].
    intros other Hne. apply lookup_insert_ne. congruence.
Qed.

Lemma getTokenInfo_caches_witness :
  (<["0xusdc" := {| BlockchainMd.info_decimals := 6; BlockchainMd.info_symbol := "USDC" |}]> ∅
     : gmap string BlockchainMd.TokenInfo) !! "0xusdc"
  = Some {| BlockchainMd.info_decimals := 6; BlockchainMd.info_symbol := "USDC" |}
  /\ BlockchainMd.getTokenInfo (fun _ => None)
       (<["0xusdc" := {| BlockchainMd.info_decimals := 6; BlockchainMd.info_symbol := "USDC" |}]> ∅)
       "0xusdc"
     = (Some {| BlockchainMd.info_decimals := 6; BlockchainMd.info_symbol := "USDC" |},
        <["0xusdc" := {| BlockchainMd.info_decimals := 6; BlockchainMd.info_symbol := "USDC" |}]> ∅)
  /\ (forall other, other <> "0xusdc" ->
        (<["0xusdc" := {| BlockchainMd.info_decimals := 6; BlockchainMd.info_symbol := "USDC" |}]> ∅
           : gmap string BlockchainMd.TokenInfo) !! other
        = (∅ : gmap string BlockchainMd.TokenInfo) !! other).
Proof.
  apply (getTokenInfo_caches
           (fun _ => Some {| BlockchainMd.info_decimals := 6; BlockchainMd.info_symbol := "USDC" |})
           (fun _ => None) ∅).
  vm_compute. reflexivity.
Defined.

(** X19: the cache never invents an answer.  If every cached entry is what
    the contract reads give, a call resolves to exactly what the reads give
    for the address (it is rejected exactly when they are, and then writes
    nothing), and the cache it leaves has that property again. *)
Theorem getTokenInfo_consistent (read : string -> option BlockchainMd.TokenInfo)
    (tokenCache : gmap string BlockchainMd.TokenInfo) (tokenAddress : string) :
  (forall a i, tokenCache !! a = Some i -> read a = Some i) ->
  fst (BlockchainMd.getTokenInfo read tokenCache tokenAddress) = read tokenAddress
  /\ (forall a i,
        snd (BlockchainMd.getTokenInfo read tokenCache tokenAddress) !! a = Some i ->
        read a = Some i)
  /\ (fst (BlockchainMd.getTokenInfo read tokenCache tokenAddress) = None ->
      snd (BlockchainMd.getTokenInfo read tokenCache tokenAddress) = tokenCache).
Proof.
  intros Hcons. unfold BlockchainMd.getTokenInfo.
  destruct (tokenCache !! tokenAddress) as [cached|] eqn:Hhit; cbn [fst snd].
  - rewrite (Hcons _ _ Hhit). split; [reflexivity|]. split; [exact Hcons|discriminate].
  - destruct (read tokenAddress) as [fresh|] eqn:Hread; cbn [fst snd].
    + split; [reflexivity|]. split; [|discriminate].
      intros a i. destruct (decide (a = tokenAddress)) as [->|Hne].
      * rewrite lookup_insert_eq. congruence.
      * rewrite lookup_insert_ne by congruence. apply Hcons.
    + split; [reflexivity|]. split; [exact Hcons|reflexivity].
Qed.

Lemma getTokenInfo_consistent_witness :
  (fst (BlockchainMd.getTokenInfo token_reads {[ "0xusdc" := usdc_info ]} "0xcusd")
   = Some cusd_info
   /\ (forall a i,
         snd (BlockchainMd.getTokenInfo token_reads {[ "0xusdc" := usdc_info ]} "0xcusd") !! a
         = Some i ->
         token_reads a = Some i)
   /\ (fst (BlockchainMd.getTokenInfo token_reads {[ "0xusdc" := usdc_info ]} "0xcusd") = None ->
       snd (BlockchainMd.getTokenInfo token_reads {[ "0xusdc" := usdc_info ]} "0xcusd")
       = {[ "0xusdc" := usdc_info ]}))
  /\ fst (BlockchainMd.getTokenInfo token_reads {[ "0xusdc" := usdc_info ]} "0xusdc")
     = Some usdc_info.
Proof.
  assert (forall a i,
            ({[ "0xusdc" := usdc_info ]} : gmap string BlockchainMd.TokenInfo) !! a = Some i ->
            token_reads a = Some i) as Hcached.
  { intros a i Hhit. destruct (decide (a = "0xusdc")) as [->|Hne].
    - rewrite lookup_singleton_eq in Hhit. injection Hhit as <-. reflexivity.
    - rewrite lookup_singleton_ne in Hhit by congruence. discriminate Hhit. }
  split.
  - exact (getTokenInfo_consistent token_reads {[ "0xusdc" := usdc_info ]} "0xcusd" Hcached).
  - exact (proj1 (getTokenInfo_consistent token_reads {[ "0xusdc" := usdc_info ]} "0xusdc"
                    Hcached)).
Defined.

(** ** Amounts *)

(** X20: a token symbol that names no entry of [TOKEN_DECIMALS] is not
    refused for that.  When the lookup is [undefined], which it is for
    every string but the four symbols and the names every object inherits,
    the amount is converted with 18 decimals, as for cUSD; when the string
    is one of the inherited names (toString, constructor, __proto__ and
    the like) the lookup yields a function or an object and the conversion
    throws an invalid argument, whatever the amount. *)
Theorem parseAmount_unknown_symbol (n : Z) (tokenSymbol : string) :
  0 <= n < 2 ^ 53 ->
  (TOKEN_DECIMALS tokenSymbol = Undefined ->
   parseAmount (Number.of_Z n) tokenSymbol = ret (n * 10 ^ 18)
   /\ parseAmount (Number.of_Z n) tokenSymbol = parseAmount (Number.of_Z n) "cUSD")
  /\ (TOKEN_DECIMALS tokenSymbol = Inherited ->
      forall usdAmount, parseAmount usdAmount tokenSymbol = throw InvalidArgument)
  /\ (TOKEN_DECIMALS tokenSymbol = Inherited <-> In tokenSymbol Object_prototype)
  /\ (TOKEN_DECIMALS tokenSymbol = Undefined
      <-> ~ In tokenSymbol ["USDC"; "USDT"; "cUSD"; "CELO"]
          /\ ~ In tokenSymbol Object_prototype).
Proof.
  intros Hn.
  assert (existsb (String.eqb tokenSymbol) Object_prototype = true
          <-> In tokenSymbol Object_prototype) as Hproto.
  { rewrite existsb_exists. split.
    - intros (x & Hin & Heq%String.eqb_eq). subst x. exact Hin.
    - intros Hin. exists tokenSymbol. split; [exact Hin|apply String.eqb_refl]. }
  assert (forall name, In name ["USDC"; "USDT"; "cUSD"; "CELO"] ->
            ~ In name Object_prototype) as Hfresh.
  { intros name [<-|[<-|[<-|[<-|[]]]]] Hin; cbn in Hin;
      repeat (destruct Hin as [Hin|Hin]; [discriminate Hin|]); exact Hin. }
  conjuncts.
  - intros Hundef.
    assert (parseAmount (Number.of_Z n) tokenSymbol = ret (n * 10 ^ 18)) as Hunknown.
    { unfold parseAmount. rewrite Hundef. rewrite Number_toString_whole by lia.
      unfold ethers.parseUnits. change (default 18%nat None) with 18%nat.
      pose proof (parseUnits_whole n 18) as Hw. unfold ethers.parseUnits in Hw.
      change (default 18%nat (Some 18%nat)) with 18%nat in Hw. apply Hw; lia. }
    split; [exact Hunknown|]. rewrite Hunknown. symmetry.
    unfold parseAmount. change (TOKEN_DECIMALS "cUSD") with (Own 18). cbv beta iota zeta.
    rewrite Number_toString_whole by lia. apply (parseUnits_whole n 18); lia.
  - intros Hinh usdAmount. unfold parseAmount. rewrite Hinh. reflexivity.
  - unfold TOKEN_DECIMALS.
    destruct (String.eqb_spec tokenSymbol "USDC") as [->|_];
      [split; [discriminate|intros Hin; exfalso; apply (Hfresh "USDC"); [cbn; auto|exact Hin]]|].
    destruct (String.eqb_spec tokenSymbol "USDT") as [->|_];
      [split; [discriminate|intros Hin; exfalso; apply (Hfresh "USDT"); [cbn; auto|exact Hin]]|].
    destruct (String.eqb_spec tokenSymbol "cUSD") as [->|_];
      [split; [discriminate|intros Hin; exfalso; apply (Hfresh "cUSD"); [cbn; auto|exact Hin]]|].
    destruct (String.eqb_spec tokenSymbol "CELO") as [->|_];
      [split; [discriminate|intros Hin; exfalso; apply (Hfresh "CELO"); [cbn; auto 6|exact Hin]]|].
    destruct (existsb (String.eqb tokenSymbol) Object_prototype) eqn:Hex.
    + split; [intros _; apply Hproto; reflexivity|reflexivity].
    + split; [discriminate|]. intros Hin. apply Hproto in Hin. congruence.
  - unfold TOKEN_DECIMALS.
    destruct (String.eqb_spec tokenSymbol "USDC") as [->|Hn1];
      [split; [discriminate|intros [Hno _]; exfalso; apply Hno; cbn; auto]|].
    destruct (String.eqb_spec tokenSymbol "USDT") as [->|Hn2];
      [split; [discriminate|intros [Hno _]; exfalso; apply Hno; cbn; auto]|].
    destruct (String.eqb_spec tokenSymbol "cUSD") as [->|Hn3];
      [split; [discriminate|intros [Hno _]; exfalso; apply Hno; cbn; auto]|].
    destruct (String.eqb_spec tokenSymbol "CELO") as [->|Hn4];
      [split; [discriminate|intros [Hno _]; exfalso; apply Hno; cbn; auto 6]|].
    destruct (existsb (String.eqb tokenSymbol) Object_prototype) eqn:Hex.
    + split; [discriminate|]. intros [_ Hno]. exfalso. apply Hno, Hproto. reflexivity.
    + split; [|reflexivity]. intros _. split.
      * intros [H|[H|[H|[H|[]]]]]; congruence.
      * intros Hin. apply Hproto in Hin. congruence.
Qed.

Lemma parseAmount_unknown_symbol_witness :
  (parseAmount (Number.of_Z 5) "DAI" = ret (5 * 10 ^ 18)
   /\ parseAmount (Number.of_Z 5) "DAI" = parseAmount (Number.of_Z 5) "cUSD")
  /\ (forall usdAmount, parseAmount usdAmount "toString" = throw InvalidArgument).
Proof.
  split.
  - apply (parseAmount_unknown_symbol 5 "DAI"); [lia|reflexivity].
  - apply (parseAmount_unknown_symbol 5 "toString"); [lia|reflexivity].
Defined.

(** X21: [validateAmount] accepts exactly the amounts that are positive, at
    least the minimum and at most the balance, so never an amount above the
    balance nor, whatever the minimum, one below 1; and for a whole USD
    amount converted by [parseAmount] to USDC units, with the minimum left
    out, it accepts exactly when the amount is at least one USD and its
    10^6-fold is within the balance. *)
Theorem validateAmount_iff (amount balance : Z) (minAmount : option Z) :
  (BlockchainMd.validateAmount amount balance minAmount = true
   <-> 0 < amount /\ default 1 minAmount <= amount /\ amount <= balance)
  /\ (forall n, 0 <= n < 2 ^ 53 ->
        exists units,
          parseAmount (Number.of_Z n) "USDC" = ret units
          /\ (BlockchainMd.validateAmount units balance None = true
              <-> 1 <= n /\ n * 10 ^ 6 <= balance)).
Proof.
  assert (forall a m, BlockchainMd.validateAmount a balance m = true
                      <-> 0 < a /\ default 1 m <= a /\ a <= balance) as Hiff.
  { intros a m. unfold BlockchainMd.validateAmount.
    destruct (Z.leb_spec a 0); [split; [discriminate|lia]|].
    destruct (Z.ltb_spec a (default 1 m)); [split; [discriminate|lia]|].
    destruct (Z.ltb_spec balance a); [split; [discriminate|lia]|].
    split; [lia|reflexivity]. }
  split; [apply Hiff|].
  intros n Hn. exists (n * 10 ^ 6). split.
  - unfold parseAmount. change (TOKEN_DECIMALS "USDC") with (Own 6). cbv beta iota zeta.
    rewrite Number_toString_whole by lia. apply (parseUnits_whole n 6); lia.
  - rewrite Hiff. change (default 1 None) with 1. lia.
Qed.

(** ** The two copies of verifyPayment *)

(** X22: how the two copies relate.  Whatever the copy of docs/BLOCKCHAIN.md
    accepts, the copy of docs/SECURITY.md accepts; every error of the first
    is the error of the second, but for "Transaction not found", which the
    second reports as "Transaction failed", and for the overflow of the
    formatted amount, which the second does not compute and so accepts. *)
Theorem verifyPayment_copies (rpc : Rpc) (tx eR : string) (eA : Z) (n : Network) :
  (forall v, Blockchain.verifyPayment rpc tx eR eA n = ret v ->
             Security.verifyPayment rpc tx eR eA n = ret true)
  /\ (Blockchain.verifyPayment rpc tx eR eA n = throw TransactionNotFound ->
      Security.verifyPayment rpc tx eR eA n = throw TransactionFailed)
  /\ (Blockchain.verifyPayment rpc tx eR eA n = throw NumericFault ->
      Security.verifyPayment rpc tx eR eA n = ret true)
  /\ (forall e, e <> TransactionNotFound -> e <> NumericFault ->
        Blockchain.verifyPayment rpc tx eR eA n = throw e ->
        Security.verifyPayment rpc tx eR eA n = throw e)
  /\ (Security.verifyPayment rpc tx eR eA n = ret true ->
      (exists v, Blockchain.verifyPayment rpc tx eR eA n = ret v)
      \/ Blockchain.verifyPayment rpc tx eR eA n = throw NumericFault).
Proof.
  pose proof (Security_verifyPayment_cases rpc tx eR eA n) as HS.
  pose proof (Blockchain_verifyPayment_cases rpc tx eR eA n) as HB.
  cbv zeta in HS, HB.
  destruct (getTransactionReceipt _ tx) as [r|];
    [|conjuncts; intros; first [other_error | left; eexists; other_error | right; other_error]].
  destruct (status_is_0 r);
    [conjuncts; intros; first [other_error | left; eexists; other_error | right; other_error]|].
  destruct (List.find _ _) as [l|];
    [|conjuncts; intros; first [other_error | left; eexists; other_error | right; other_error]].
  destruct (decode l) as [e0|[recipient amount]] eqn:Hd.
  { conjuncts; intros; first [other_error | left; eexists; other_error | right; other_error]. }
  destruct (negb _);
    [conjuncts; intros; first [other_error | left; eexists; other_error | right; other_error]|].
  destruct (amount <? eA);
    [conjuncts; intros; first [other_error | left; eexists; other_error | right; other_error]|].
  destruct (ethers.formatUnits _ _) as [e1|formatted] eqn:Hf.
  - pose proof (formatUnits_throws _ _ _ Hf) as ->.
    conjuncts; intros; first [exact HS | unfold throw, ret in *; congruence | right; exact HB].
  - conjuncts; intros;
      first [exact HS | unfold throw, ret in *; congruence | left; eexists; exact HB].
Qed.

(** ** Explorer links *)

Lemma append_inj (s t t' : string) : s +:+ t = s +:+ t' -> t = t'.
Proof.
  induction s as [|c s IH]; [rewrite !append_nil; auto|].
  rewrite !append_cons. intros [= H]. auto.
Qed.

(** X23: the explorer link is the configured explorer of the network
    followed by the transaction path and the hash, for base and for celo;
    a network name other than base, solana for one, gets the Celo link;
    and different hashes give different links. *)
Theorem explorerUrl_links (selectedNetwork txHash : string) :
  BlockchainMd.explorerUrl "base" txHash = explorer (NETWORKS base) +:+ "/tx/" +:+ txHash
  /\ BlockchainMd.explorerUrl "celo" txHash
     = explorer (NETWORKS celo) +:+ "/mainnet/tx/" +:+ txHash
  /\ (selectedNetwork <> "base" ->
      BlockchainMd.explorerUrl selectedNetwork txHash = BlockchainMd.explorerUrl "celo" txHash)
  /\ (forall txHash',
        BlockchainMd.explorerUrl selectedNetwork txHash
        = BlockchainMd.explorerUrl selectedNetwork txHash' ->
        txHash = txHash').
Proof.
  split; [vm_compute; reflexivity|]. split; [vm_compute; reflexivity|]. split.
  - intros Hne. unfold BlockchainMd.explorerUrl.
    destruct (String.eqb_spec selectedNetwork "base"); [contradiction|]. reflexivity.
  - intros txHash'. unfold BlockchainMd.explorerUrl.
    destruct (String.eqb selectedNetwork "base"); apply append_inj.
Qed.

(** ** More on the mark-paid update *)

(** X24: the update creates and deletes nothing, and an id that names no
    invoice is no error: the table then stays exactly as it was.  After the
    update the table has the invoices it had, under the same ids. *)
Theorem markPaid_unknown_invoice (now : Z) (invoices : gmap string Db.Invoice)
    (invoiceId txHash : string) :
  (invoices !! invoiceId = None -> Db.markPaid now invoices invoiceId txHash = invoices)
  /\ (forall other, is_Some (Db.markPaid now invoices invoiceId txHash !! other)
                    <-> is_Some (invoices !! other)).
Proof.
  unfold Db.markPaid. split.
  - intros Hnone. apply alter_id'. exact Hnone.
  - intros other. apply lookup_alter_is_Some.
Qed.

(** X25: how two updates compose.  Made one after the other on different
    invoices, they do not interfere: whichever is made first, every invoice
    ends with the same columns, but for [updated_at], where each of the two
    carries the instant of its own update; so the two orders leave the same
    table exactly when the two instants are the same or neither id names an
    invoice.  On the same invoice the later update wins: of two hashes
    submitted one after the other the table keeps the second, as if the
    first had never been stored. *)
Theorem markPaid_compose (t1 t2 : Z) (invoices : gmap string Db.Invoice)
    (id1 id2 txA txB : string) :
  id1 <> id2 ->
  (forall id,
     unstamped <$> Db.markPaid t2 (Db.markPaid t1 invoices id1 txA) id2 txB !! id
     = unstamped <$> Db.markPaid t2 (Db.markPaid t1 invoices id2 txB) id1 txA !! id)
  /\ (forall row, invoices !! id1 = Some row ->
        Db.updated_at <$> Db.markPaid t2 (Db.markPaid t1 invoices id1 txA) id2 txB !! id1
        = Some t1
        /\ Db.updated_at <$> Db.markPaid t2 (Db.markPaid t1 invoices id2 txB) id1 txA !! id1
           = Some t2)
  /\ (forall row, invoices !! id2 = Some row ->
        Db.updated_at <$> Db.markPaid t2 (Db.markPaid t1 invoices id1 txA) id2 txB !! id2
        = Some t2
        /\ Db.updated_at <$> Db.markPaid t2 (Db.markPaid t1 invoices id2 txB) id1 txA !! id2
           = Some t1)
  /\ (Db.markPaid t2 (Db.markPaid t1 invoices id1 txA) id2 txB
      = Db.markPaid t2 (Db.markPaid t1 invoices id2 txB) id1 txA
      <-> t1 = t2 \/ (invoices !! id1 = None /\ invoices !! id2 = None))
  /\ Db.markPaid t2 (Db.markPaid t1 invoices id1 txA) id1 txB
     = Db.markPaid t2 invoices id1 txB.
Proof.
  intros Hne.
  assert (Db.markPaid t2 (Db.markPaid t1 invoices id1 txA) id2 txB !! id1
          = (fun row => Db.update_updated_at_column t1 (Db.set_paid txA row))
              <$> invoices !! id1) as HA1
      by (rewrite markPaid_lookup_other, markPaid_lookup by congruence; reflexivity).
  assert (Db.markPaid t2 (Db.markPaid t1 invoices id1 txA) id2 txB !! id2
          = (fun row => Db.update_updated_at_column t2 (Db.set_paid txB row))
              <$> invoices !! id2) as HA2
      by (rewrite markPaid_lookup, markPaid_lookup_other by congruence; reflexivity).
  assert (Db.markPaid t2 (Db.markPaid t1 invoices id2 txB) id1 txA !! id1
          = (fun row => Db.update_updated_at_column t2 (Db.set_paid txA row))
              <$> invoices !! id1) as HB1
      by (rewrite markPaid_lookup, markPaid_lookup_other by congruence; reflexivity).
  assert (Db.markPaid t2 (Db.markPaid t1 invoices id2 txB) id1 txA !! id2
          = (fun row => Db.update_updated_at_column t1 (Db.set_paid txB row))
              <$> invoices !! id2) as HB2
      by (rewrite markPaid_lookup_other, markPaid_lookup by congruence; reflexivity).
  conjuncts.
  - intros id. destruct (decide (id = id1)) as [->|Hn1].
    + rewrite HA1, HB1. destruct (invoices !! id1); reflexivity.
    + destruct (decide (id = id2)) as [->|Hn2].
      * rewrite HA2, HB2. destruct (invoices !! id2); reflexivity.
      * rewrite !markPaid_lookup_other by assumption. reflexivity.
  - intros row Hrow. rewrite HA1, HB1, Hrow. split; reflexivity.
  - intros row Hrow. rewrite HA2, HB2, Hrow. split; reflexivity.
  - split.
    + intros Heq.
      pose proof (f_equal (fun table : gmap string Db.Invoice => table !! id1) Heq) as H1.
      pose proof (f_equal (fun table : gmap string Db.Invoice => table !! id2) Heq) as H2.
      cbn beta in H1, H2. rewrite HA1, HB1 in H1. rewrite HA2, HB2 in H2.
      destruct (invoices !! id1) as [row1|].
      * left. injection H1 as H1. exact H1.
      * destruct (invoices !! id2) as [row2|]; [|right; split; reflexivity].
        left. injection H2 as H2. symmetry. exact H2.
    + intros [->|[Hnone1 Hnone2]].
      * unfold Db.markPaid. apply alter_alter_ne. congruence.
      * apply map_eq. intros id. destruct (decide (id = id1)) as [->|Hn1].
        -- rewrite HA1, HB1, Hnone1. reflexivity.
        -- destruct (decide (id = id2)) as [->|Hn2].
           ++ rewrite HA2, HB2, Hnone2. reflexivity.
           ++ rewrite !markPaid_lookup_other by assumption. reflexivity.
  - unfold Db.markPaid. rewrite alter_alter_eq. apply alter_ext. intros row _. reflexivity.
Qed.

Lemma markPaid_compose_witness :
  let invoices : gmap string Db.Invoice :=
    {[ "inv-1" := sent_invoice; "inv-2" := paid_invoice ]} in
  (forall id,
     unstamped <$> Db.markPaid 61 (Db.markPaid 60 invoices "inv-1" "0xaaa1") "inv-2" "0xbbb2" !! id
     = unstamped <$> Db.markPaid 61 (Db.markPaid 60 invoices "inv-2" "0xbbb2") "inv-1" "0xaaa1" !! id)
  /\ Db.updated_at
       <$> Db.markPaid 61 (Db.markPaid 60 invoices "inv-1" "0xaaa1") "inv-2" "0xbbb2" !! "inv-1"
     = Some 60
  /\ Db.updated_at
       <$> Db.markPaid 61 (Db.markPaid 60 invoices "inv-2" "0xbbb2") "inv-1" "0xaaa1" !! "inv-1"
     = Some 61
  /\ (Db.markPaid 61 (Db.markPaid 60 invoices "inv-1" "0xaaa1") "inv-2" "0xbbb2"
      = Db.markPaid 61 (Db.markPaid 60 invoices "inv-2" "0xbbb2") "inv-1" "0xaaa1"
      <-> 60 = 61 \/ (invoices !! "inv-1" = None /\ invoices !! "inv-2" = None)).
Proof.
  cbv zeta.
  destruct (markPaid_compose 60 61 {[ "inv-1" := sent_invoice; "inv-2" := paid_invoice ]}
              "inv-1" "inv-2" "0xaaa1" "0xbbb2" ltac:(discriminate))
    as (Hsame & Hone & _ & Hiff & _).
  split; [exact Hsame|].
  destruct (Hone sent_invoice ltac:(vm_compute; reflexivity)) as [Hfirst Hsecond].
  split; [exact Hfirst|]. split; [exact Hsecond|exact Hiff].
Defined.
